(** * QualityMax GitHub Action: local runner, result normalisation, orchestration

    A shallow embedding of [src/unnamed/part_001] (the action's entry
    module, with [runTestsLocally] and [run]) together with the
    declarations of [src/dist/types.d.ts] and of the API client
    ([src/unnamed/part_000]).

    The program talks to a remote service, the file system, subprocesses
    and the CI host. Each of these calls is an event of a trace, and its
    answer (a value or a thrown error) is given by a [World]; the program
    is a function of the world in a state-and-exception monad. Log lines
    ([core.info], [core.warning], [core.debug]) are not modelled, and the
    action inputs are taken as already parsed by [getInputs]; [getInputs]
    itself is embedded apart, in [Inputs], and [Entry] is [run] from its
    first statement, the reading of the inputs.

    Layout:
    - [Regex]     the two regular expressions of the script sanitiser and
                  JavaScript's global [String.prototype.replace];
    - [Js]        the fragment of JavaScript's dynamic values that the
                  report parser relies on (JSON values, truthiness,
                  property access, optional chaining, iteration);
    - [Action]    the data model, the effect monad, [runTestsLocally]
                  and [run];
    - [Examples]  concrete platform functions, worlds and inputs;
    - [Trace], [Props], [Observations]  the vocabulary of the statements;
    - [Inputs]    [getInputs] and the string built-ins it calls;
    - [Entry]     [run] with the reading of the inputs;
    - lemmas, then the properties: sanitiser, normaliser, orchestration,
      sandbox; then whole runs, the local run, cancellation, the inputs
      and the entry point. *)

From Stdlib Require Import ZArith QArith String Ascii.
From stdpp Require Import gmap strings list pretty.

Local Open Scope Z_scope.
Local Open Scope string_scope.
Local Open Scope list_scope.

(* ===================================================================== *)
(** ** Regular expressions over UTF-16 code units *)
(* ===================================================================== *)

Module Regex.

(** A JavaScript string is a sequence of 16-bit code units. The character
    classes [\s] and [\w] are defined on code units, so source text is kept
    as a list of code-unit numbers. *)
Definition text := list N.

Definition codes (s : string) : text :=
  map N_of_ascii (list_ascii_of_string s).

Definition code (s : string) : N :=
  match s with
  | String a _ => N_of_ascii a
  | EmptyString => 0%N
  end.

(** [\w] without the [u] and [i] flags: [A-Za-z0-9_]. *)
Definition is_word (c : N) : bool :=
  ((65 <=? c) && (c <=? 90) || (97 <=? c) && (c <=? 122)
   || (48 <=? c) && (c <=? 57) || (c =? 95))%N.

(** [\s]: ECMAScript WhiteSpace and LineTerminator code units. *)
Definition is_space (c : N) : bool :=
  ((9 <=? c) && (c <=? 13) || (c =? 32) || (c =? 160) || (c =? 5760)
   || (8192 <=? c) && (c <=? 8202) || (c =? 8232) || (c =? 8233)
   || (c =? 8239) || (c =? 8287) || (c =? 12288) || (c =? 65279))%N.

Inductive regex : Type :=
| REps                      (* empty pattern *)
| RChar (P : N -> bool)     (* one code unit of a class *)
| RSeq (r1 r2 : regex)      (* r1 r2 *)
| RAlt (r1 r2 : regex)      (* r1|r2, left alternative first *)
| RStar (r : regex)         (* r*, greedy *)
| RGroup (r : regex)        (* (r), the capturing group $1 *)
| RWordB.                   (* \b *)

Definition RPlus (r : regex) : regex := RSeq r (RStar r).
Definition ROpt (r : regex) : regex := RAlt r REps.

Fixpoint RSeqs (rs : list regex) : regex :=
  match rs with
  | [] => REps
  | [r] => r
  | r :: rs' => RSeq r (RSeqs rs')
  end.

Fixpoint RAlts (rs : list regex) : regex :=
  match rs with
  | [] => REps
  | [r] => r
  | r :: rs' => RAlt r (RAlts rs')
  end.

Definition lit (s : string) : regex :=
  RSeqs (map (fun c => RChar (N.eqb c)) (codes s)).

Definition chr (s : string) : regex := RChar (N.eqb (code s)).
Definition one_of (cs : list N) : regex :=
  RChar (fun c => existsb (N.eqb c) cs).
Definition none_of (cs : list N) : regex :=
  RChar (fun c => negb (existsb (N.eqb c) cs)).

(** The apostrophe (U+0027) and the quotation mark (U+0022). *)
Definition quotes : list N := [39%N; 34%N].

(** The matcher state: the code unit before the current position (for
    [\b]), the text still to be read, the number of code units read since
    the start of the match, and the text captured by group 1. *)
Record mstate : Type := MState {
  m_prev : option N;
  m_rest : text;
  m_read : nat;
  m_cap : option text;
}.

(** A successful match: its length and the text of group 1. *)
Definition mresult : Type := (nat * option text)%type.

Definition is_word_at (c : option N) : bool :=
  match c with
  | Some c => is_word c
  | None => false
  end.

(** The iterations of a greedy star whose body matches by [step]: try one
    more iteration, then the rest of the pattern [k]; an iteration that
    reads nothing is rejected. Every iteration reads at least one code
    unit, so [n = length (m_rest st)] rounds are always enough (lemma
    [star_loop_fuel]). *)
Fixpoint star_loop
  (step : mstate -> (mstate -> option mresult) -> option mresult)
  (k : mstate -> option mresult) (n : nat) (st : mstate) {struct n}
  : option mresult :=
  match n with
  | O => k st
  | S n' =>
      match step st
              (fun st1 =>
                 if (m_read st <? m_read st1)%nat
                 then star_loop step k n' st1 else None) with
      | Some res => Some res
      | None => k st
      end
  end.

(** Backtracking matcher in continuation-passing style: [k] is what must
    still match after [r]; the first success in priority order wins, as in
    a backtracking engine. *)
Fixpoint rmatch (r : regex) (st : mstate) (k : mstate -> option mresult)
  {struct r} : option mresult :=
  match r with
  | REps => k st
  | RChar P =>
      match m_rest st with
      | c :: t =>
          if P c
          then k (MState (Some c) t (S (m_read st)) (m_cap st))
          else None
      | [] => None
      end
  | RSeq r1 r2 => rmatch r1 st (fun st1 => rmatch r2 st1 k)
  | RAlt r1 r2 =>
      match rmatch r1 st k with
      | Some res => Some res
      | None => rmatch r2 st k
      end
  | RStar r1 => star_loop (rmatch r1) k (length (m_rest st)) st
  | RGroup r1 =>
      rmatch r1 st
        (fun st1 =>
           k (MState (m_prev st1) (m_rest st1) (m_read st1)
                (Some (take (m_read st1 - m_read st) (m_rest st)))))
  | RWordB =>
      if xorb (is_word_at (m_prev st)) (is_word_at (head (m_rest st)))
      then k st else None
  end.

(** Try to match [r] at the current position of the scan. *)
Definition match_at (r : regex) (prev : option N) (s : text)
  : option mresult :=
  rmatch r (MState prev s 0 None) (fun st => Some (m_read st, m_cap st)).

(** Replacement patterns: literal text and [$1]. *)
Inductive repl_item : Type :=
| RText (t : text)
| RGroup1.

Definition expand (repl : list repl_item) (cap : option text) : text :=
  concat (map (fun it =>
                 match it with
                 | RText t => t
                 | RGroup1 => default [] cap
                 end) repl).

(** [s.replace(/r/g, repl)]: scan from left to right; at each position not
    inside a previous match try [r]; a match is replaced and the scan
    resumes after it (after an empty match the next code unit is copied).
    [skip] counts the code units of the current match still to be dropped. *)
Fixpoint replace_from (r : regex) (repl : list repl_item)
  (skip : nat) (prev : option N) (s : text) {struct s} : text :=
  match s with
  | [] =>
      match skip with
      | O =>
          match match_at r prev [] with
          | Some (_, cap) => expand repl cap
          | None => []
          end
      | S _ => []
      end
  | c :: s' =>
      match skip with
      | S n => replace_from r repl n (Some c) s'
      | O =>
          match match_at r prev s with
          | Some (O, cap) =>
              expand repl cap ++ c :: replace_from r repl O (Some c) s'
          | Some (S n, cap) =>
              expand repl cap ++ replace_from r repl n (Some c) s'
          | None => c :: replace_from r repl O (Some c) s'
          end
      end
  end.

Definition replace_all (r : regex) (repl : list repl_item) (s : text) : text :=
  replace_from r repl 0 None s.

(** [true] when [r] matches nowhere in [s] (scan started after [prev]). *)
Fixpoint no_match_from (r : regex) (prev : option N) (s : text) : bool :=
  match match_at r prev s with
  | Some _ => false
  | None =>
      match s with
      | [] => true
      | c :: s' => no_match_from r (Some c) s'
      end
  end.

Definition no_match (r : regex) (s : text) : bool := no_match_from r None s.

(** [true] when [r] holds no capturing group. *)
Fixpoint no_group (r : regex) : bool :=
  match r with
  | RSeq r1 r2 | RAlt r1 r2 => no_group r1 && no_group r2
  | RStar r1 => no_group r1
  | RGroup _ => false
  | _ => true
  end.

(** [true] when every match of [r] reads at least one code unit (a
    syntactic sufficient condition). *)
Fixpoint consuming (r : regex) : bool :=
  match r with
  | RChar _ => true
  | RSeq r1 r2 => consuming r1 || consuming r2
  | RAlt r1 r2 => consuming r1 && consuming r2
  | RGroup r1 => consuming r1
  | _ => false
  end.

(** [st'] is a state in which the continuation of [r] can be entered when
    [r] is matched from [st]: some of the text has been read. *)
Definition after (st st' : mstate) : Prop :=
  (m_read st <= m_read st')%nat
  /\ (m_read st' + length (m_rest st') = m_read st + length (m_rest st))%nat.

Definition reached (r : regex) (st st' : mstate) : Prop :=
  after st st'
  /\ (no_group r = true -> m_cap st' = m_cap st)
  /\ (consuming r = true -> (m_read st < m_read st')%nat).

(** Every match of [r] is inside the text and longer than what replaces
    it. *)
Definition shrinking (r : regex) (repl : list repl_item) : Prop :=
  forall prev s n cap,
    match_at r prev s = Some (n, cap) ->
    (length (expand repl cap) < n <= length s)%nat.

(** [/import\s+type\s+\{[^}]*\}\s+from\s+Q[^Q]*Q;?\s*/g], where [Q]
    stands for the class of the two quote characters [quotes]. *)
Definition re_import_type : regex :=
  RSeqs [ lit "import"; RPlus (RChar is_space);
          lit "type"; RPlus (RChar is_space);
          chr "{"; RStar (none_of [code "}"]); chr "}"; RPlus (RChar is_space);
          lit "from"; RPlus (RChar is_space);
          one_of quotes; RStar (none_of quotes); one_of quotes;
          ROpt (chr ";"); RStar (RChar is_space) ].

(** [/(\w+)\s*:\s*(?:Page|BrowserContext|Browser|Locator|FrameLocator|APIRequestContext)\b/g] *)
Definition re_param_type : regex :=
  RSeqs [ RGroup (RPlus (RChar is_word)); RStar (RChar is_space);
          chr ":"; RStar (RChar is_space);
          RAlts [ lit "Page"; lit "BrowserContext"; lit "Browser";
                  lit "Locator"; lit "FrameLocator";
                  lit "APIRequestContext" ];
          RWordB ].

End Regex.

(* ===================================================================== *)
(** ** The fragment of JavaScript's dynamic values used by the parser *)
(* ===================================================================== *)

Module Js.

#[local] Set Warnings "-register-all".

(** What [JSON.parse] returns. Numbers are kept as exact rationals. The
    fields of an object are in source order; on a repeated key the last
    one wins. *)
Inductive json : Type :=
| JNull
| JBool (b : bool)
| JNum (q : Q)
| JStr (s : string)
| JArr (items : list json)
| JObj (fields : list (string * json)).

(** A JavaScript value read from a report: [None] is [undefined]. *)
Definition jsval : Type := option json.

(** The numbers the runner computes: finite values, [NaN], infinities. *)
Inductive jsnum : Type :=
| Fin (q : Q)
| NaN
| PosInf
| NegInf.

Definition truthy (v : jsval) : bool :=
  match v with
  | None => false
  | Some JNull => false
  | Some (JBool b) => b
  | Some (JNum q) => negb (Qeq_bool q 0)
  | Some (JStr s) => negb (String.eqb s "")
  | Some (JArr _) => true
  | Some (JObj _) => true
  end.

Fixpoint obj_get (k : string) (fields : list (string * json)) : jsval :=
  match fields with
  | [] => None
  | (k', v) :: rest =>
      match obj_get k rest with
      | Some v' => Some v'
      | None => if String.eqb k k' then Some v else None
      end
  end.

(** [v.k]: a [TypeError] ([None]) on [null] and [undefined]. The property
    names the parser reads ([suites], [specs], [file], [ok], [title],
    [tests], [results], [duration], [error], [message]) are defined on no
    prototype, so on a boolean, number, string or array the access yields
    [undefined]. *)
Definition get (k : string) (v : jsval) : option jsval :=
  match v with
  | None => None
  | Some JNull => None
  | Some (JObj fields) => Some (obj_get k fields)
  | Some _ => Some None
  end.

(** [v?.k] *)
Definition get_opt (k : string) (v : jsval) : jsval :=
  match get k v with
  | Some r => r
  | None => None
  end.

(** [v?.[0]] *)
Definition first_opt (v : jsval) : jsval :=
  match v with
  | Some (JArr (x :: _)) => Some x
  | Some (JStr (String c _)) => Some (JStr (String c EmptyString))
  | Some (JObj fields) => obj_get "0" fields
  | _ => None
  end.

(** [v || []] *)
Definition or_empty (v : jsval) : json :=
  match v with
  | Some j => if truthy v then j else JArr []
  | None => JArr []
  end.

(** The elements [for (const x of v)] visits; [None] is the [TypeError] of
    a value that is not iterable. A string iterates over its characters. *)
Definition iterate (v : json) : option (list json) :=
  match v with
  | JArr items => Some items
  | JStr s =>
      Some (map (fun c => JStr (String c EmptyString)) (list_ascii_of_string s))
  | _ => None
  end.

(** [n / 1000] *)
Definition div1000 (n : jsnum) : jsnum :=
  match n with
  | Fin q => Fin (q / 1000)
  | other => other
  end.

(** [n / len] for the length of an array. *)
Definition div_length (n : jsnum) (len : nat) : jsnum :=
  match len, n with
  | S _, Fin q => Fin (q / inject_Z (Z.of_nat len))
  | O, Fin q =>
      match Qcompare q 0 with
      | Eq => NaN
      | Gt => PosInf
      | Lt => NegInf
      end
  | _, other => other
  end.

End Js.

(* ===================================================================== *)
(** ** The action: data model, effects, [runTestsLocally], [run] *)
(* ===================================================================== *)

Module Action.
Import Regex Js.

(** *** Data model ([src/dist/types.d.ts]) *)

(** [TestRunStatus] *)
Inductive TestRunStatus : Type :=
| queued | running | completed | status_failed | cancelled | timeout.

(** [TestResult] *)
Inductive TestResult : Type :=
| passed | failed | skipped | error.

(** [IndividualTestResult]. The report parser stores whatever the report
    holds, so [test_name] and [error_message] are JavaScript values. *)
Record IndividualTestResult : Type := {
  test_id : Z;
  test_name : json;
  status : TestResult;
  test_duration_seconds : jsnum;
  error_message : jsval;
}.

(** [TestExecutionResults]. The two ISO timestamps [started_at] and
    [completed_at] (readings of the wall clock) are left out. *)
Record TestExecutionResults : Type := {
  execution_id : string;
  run_status : TestRunStatus;
  result : TestResult;
  total_tests : Z;
  passed_tests : Z;
  failed_tests : Z;
  skipped_tests : Z;
  duration_seconds : jsnum;
  browser : string;
  report_url : string;
  tests : list IndividualTestResult;
  summary_markdown : option string;
}.

(** Modelled from the spec: the declaration of [EmbeddedScript] is missing
    from [types.d.ts]; the spec gives it an id (unique per trigger), a name
    and the executable source text, and the code reads [script.id],
    [script.name] and [script.code]. *)
Record EmbeddedScript : Type := {
  script_id : Z;
  script_name : string;
  script_code : text;
}.

(** Modelled from the spec: the fields [run_locally], [scripts],
    [test_files] and [test_command] of [TriggerTestsResponse] are missing
    from its declaration in [types.d.ts]; the spec describes the
    run-location decision, the optional embedded scripts and the optional
    repository test-file paths with a command string. Of the declared
    fields only [execution_id], which [run] reads, is kept. *)
Record TriggerTestsResponse : Type := {
  tr_execution_id : string;
  run_locally : bool;
  scripts : option (list EmbeddedScript);
  test_files : option (list string);
  test_command : string;
}.

(** [ActionInputs], with the fields [run] and [runTestsLocally] branch on
    or interpolate; the remaining ones are only forwarded to the service. *)
Record ActionInputs : Type := {
  projectId : string;
  projectName : string;
  testSuite : string;
  inputs_browser : string;
  headless : bool;
  timeoutMinutes : Z;
  failOnTestFailure : bool;
  postPrCommentFlag : bool;
  mode : string;
}.



Record TriggerTestsRequest : Type := {
  req_project_id : string;
  req_test_suite : string;
  req_browser : string;
  req_headless : bool;
  req_timeout_minutes : Z;
  req_repository : string;
}.

Record Project : Type := { p_id : string; p_name : string }.

Record SeedTestsResponse : Type := {
  tests_created : Z;
  seed_skipped : Z;
  seed_message : string;
}.

(** *** Thrown values, observable effects, the outside world *)

(** What a [catch] clause receives: an [Error] with its message, or any
    other value. *)
Inductive Thrown : Type :=
| ThrownError (msg : string)
| ThrownOther.

(** The outcome of an external call. *)
Inductive Res (A : Type) : Type :=
| Ok (a : A)
| Throw (e : Thrown).
Arguments Ok {A} a.
Arguments Throw {A} e.

(** The effects of a run that the outside can observe, in program order. *)
Inductive Event : Type :=
| EvValidateApiKey
| EvGetProjects
| EvResolveProject (repository : string)
| EvSeedTests (project_id : string)
| EvTriggerTests (request : TriggerTestsRequest)
| EvReportResults (id : string) (verdict : TestResult) (np nf nt : Z)
| EvCancelExecution (id : string)
| EvWaitForCompletion (id : string) (timeoutMs : Z)
| EvMkdtemp
| EvMkdir (dir : string)
| EvWriteFile (file : string) (content : text)
| EvExec (command : string) (args : list string)
| EvRmSync (dir : string)
| EvSetOutput (name : string)
| EvWriteJobSummary
| EvCreateComment
| EvSetFailed (message : string).

(** The answers of the outside world to the calls of one run: the remote
    service, the file system, the subprocesses, the clock and the CI host.
    Each call site of the program has its own answer. *)
Record World : Type := {
  (* the QualityMax service *)
  w_validateApiKey : Res bool;
  w_getProjects : Res (list Project);
  w_resolveProject : Res (option string);
  w_seedTests : Res SeedTestsResponse;
  w_triggerTests : Res TriggerTestsResponse;
  w_reportResults : Res unit;
  w_cancelExecution : Res unit;
  w_waitForCompletion : Res TestExecutionResults;
  (* the file system *)
  w_mkdtempSync : Res string;
  w_mkdirSync : Res unit;
  w_writeFileSync : string -> Res unit;
  w_resultsFile : option (option json);
  w_rmSync : Res unit;
  (* subprocesses: [exec] rejects on a non-zero exit code unless
     [ignoreReturnCode] is set *)
  w_npmInstall : Res unit;
  w_playwrightInstall : Res unit;
  w_playwrightTest : Res Z;
  w_repositoryTest : Res Z;
  w_elapsedMs : Z;
  (* the CI host *)
  w_repository : string;
  w_writeJobSummary : Res unit;
  w_pullRequest : bool;
  w_githubToken : bool;
  w_createComment : Res unit;
}.

(** The mutable state of a run: the trace of effects so far, the two
    variables of [run] that its [catch] clause reads, and the sandbox
    directory that currently exists on disk, if any. *)
Record State : Type := {
  trace : list Event;
  executionId : option string;
  client : bool;
  sandbox : option string;
}.

Definition initial : State :=
  {| trace := []; executionId := None; client := false; sandbox := None |}.

(** *** The effect monad: state and exceptions *)

Definition M (A : Type) : Type := State -> Res A * State.

Definition ret {A} (a : A) : M A := fun st => (Ok a, st).

Definition throw {A} (e : Thrown) : M A := fun st => (Throw e, st).

Definition bind {A B} (m : M A) (k : A -> M B) : M B :=
  fun st =>
    match m st with
    | (Ok a, st') => k a st'
    | (Throw e, st') => (Throw e, st')
    end.

(** [try { m } catch (e) { h e }] *)
Definition try_catch {A} (m : M A) (h : Thrown -> M A) : M A :=
  fun st =>
    match m st with
    | (Ok a, st') => (Ok a, st')
    | (Throw e, st') => h e st'
    end.

Definition emit (ev : Event) : M unit :=
  fun st =>
    (Ok tt, {| trace := trace st ++ [ev]; executionId := executionId st;
               client := client st; sandbox := sandbox st |}).

Definition set_executionId (id : string) : M unit :=
  fun st =>
    (Ok tt, {| trace := trace st; executionId := Some id;
               client := client st; sandbox := sandbox st |}).

Definition set_client : M unit :=
  fun st =>
    (Ok tt, {| trace := trace st; executionId := executionId st;
               client := true; sandbox := sandbox st |}).

Definition set_sandbox (d : option string) : M unit :=
  fun st =>
    (Ok tt, {| trace := trace st; executionId := executionId st;
               client := client st; sandbox := d |}).

Definition get_state : M State := fun st => (Ok st, st).

(** An external call: its event, then the world's answer. *)
Definition call {A} (ev : Event) (answer : Res A) : M A :=
  fun st =>
    match emit ev st with
    | (_, st') => (answer, st')
    end.

Notation "x <- m ;; k" := (bind m (fun x => k))
  (at level 100, m at next level, right associativity).
Notation "m ;;; k" := (bind m (fun _ => k))
  (at level 100, right associativity).

(** *** The program *)

Section Program.

(** Three functions of the platform are parameters of the development:
    [path.basename] (its result depends on the runner's operating system),
    ECMAScript's [ToNumber] on values that are not numbers (here the
    division of a reported duration coerces its operand) and
    [String.prototype.toLowerCase]. Nothing is assumed about them. *)
Variable basename : string -> string.
Variable ToNumber : json -> jsnum.
Variable toLowerCase : string -> string.

(** The quotation mark. *)
Definition dq : string := String (ascii_of_nat 34) EmptyString.

(** [a || b] on strings *)
Definition str_or (a b : string) : string :=
  if String.eqb a "" then b else a.

(** **** [runTestsLocally] *)

(** The text of [playwright.config.js] up to the first interpolation. *)
Definition config_head : string :=
"
const { defineConfig } = require('@playwright/test');
module.exports = defineConfig({
  testDir: './tests',
  timeout: 60000,
  retries: 0,
  reporter: [['json', { outputFile: 'results.json' }], ['list']],
  use: {
    headless: true,
    viewport: { width: 1280, height: 720 },
    screenshot: 'only-on-failure',
  },
  projects: [{ name: '".

Definition browserName (inputs : ActionInputs) : string :=
  if String.eqb (inputs_browser inputs) "chromium" then "chromium"
  else if String.eqb (inputs_browser inputs) "firefox" then "firefox"
  else "webkit".

Definition configContent (inputs : ActionInputs) : string :=
  config_head +:+ inputs_browser inputs +:+ "', use: { browserName: '"
  +:+ browserName inputs +:+ "' } }],
});
".

(** [`test-${script.id}.spec.js`]; ids are integers, printed in decimal. *)
Definition safeFileName (script : EmbeddedScript) : string :=
  "test-" +:+ pretty (script_id script) +:+ ".spec.js".

(** Lines 214-219: strip TypeScript annotations for [.js] execution. *)
Definition strip_type_annotations (code : text) : text :=
  let code := replace_all re_import_type [] code in
  replace_all re_param_type [RGroup1] code.

(** [JSON.stringify({dependencies: {'@playwright/test': 'latest'}})] *)
Definition packageJson : string :=
  "{" +:+ dq +:+ "dependencies" +:+ dq +:+ ":{" +:+ dq +:+ "@playwright/test"
  +:+ dq +:+ ":" +:+ dq +:+ "latest" +:+ dq +:+ "}}".

(** The loop of lines 210-224: one file per script, and the map from the
    generated file name back to the script. *)
Fixpoint write_scripts (w : World) (testDir : string)
  (scripts : list EmbeddedScript) (scriptMap : gmap string EmbeddedScript)
  : M (gmap string EmbeddedScript) :=
  match scripts with
  | [] => ret scriptMap
  | script :: rest =>
      let file := testDir +:+ "/" +:+ safeFileName script in
      call (EvWriteFile file (strip_type_annotations (script_code script)))
           (w_writeFileSync w file) ;;;
      write_scripts w testDir rest (<[safeFileName script := script]> scriptMap)
  end.

(** The counters and the list that the parser updates in place. *)
Record Parsed : Type := {
  passedTests : Z;
  failedTests : Z;
  testResults : list IndividualTestResult;
}.

Definition no_results : Parsed :=
  {| passedTests := 0; failedTests := 0; testResults := [] |}.

(** [(d || 0) / 1000] *)
Definition duration_of (d : jsval) : jsnum :=
  match d with
  | Some j =>
      if truthy d
      then div1000 (match j with JNum q => Fin q | _ => ToNumber j end)
      else Fin (0 / 1000)
  | None => Fin (0 / 1000)
  end.

(** [script?.name || spec.title || fileName] *)
Definition name_of (script : option EmbeddedScript) (title : jsval)
  (fileName : string) : json :=
  match script with
  | Some sc =>
      if negb (String.eqb (script_name sc) "") then JStr (script_name sc)
      else match title with
           | Some t => if truthy title then t else JStr fileName
           | None => JStr fileName
           end
  | None =>
      match title with
      | Some t => if truthy title then t else JStr fileName
      | None => JStr fileName
      end
  end.

(** [script?.id || 0] *)
Definition id_of (script : option EmbeddedScript) : Z :=
  match script with
  | Some sc => if (script_id sc =? 0)%Z then 0 else script_id sc
  | None => 0
  end.

(** The body of the inner loop, lines 269-284; [None] when it throws,
    which it can only do before the counters and the list are touched:
    [path.basename] rejects an argument that is not a string, and [spec.ok]
    fails on [null]. *)
Definition parse_spec (scriptMap : gmap string EmbeddedScript)
  (suite spec : json) (acc : Parsed) : option Parsed :=
  match get "file" (Some suite) with
  | None => None
  | Some file =>
      match (if truthy file then file else Some (JStr "")) with
      | Some (JStr path) =>
          let fileName := basename path in
          let script := scriptMap !! fileName in
          match get "ok" (Some spec) with
          | None => None
          | Some ok =>
              let testStatus := if truthy ok then passed else failed in
              let attempt :=
                first_opt (get_opt "results"
                             (first_opt (get_opt "tests" (Some spec)))) in
              let testDuration := duration_of (get_opt "duration" attempt) in
              let errorMsg := get_opt "message" (get_opt "error" attempt) in
              let entry :=
                {| test_id := id_of script;
                   test_name := name_of script (get_opt "title" (Some spec))
                                  fileName;
                   status := testStatus;
                   test_duration_seconds := testDuration;
                   error_message := errorMsg |} in
              Some
                match testStatus with
                | passed =>
                    {| passedTests := passedTests acc + 1;
                       failedTests := failedTests acc;
                       testResults := testResults acc ++ [entry] |}
                | _ =>
                    {| passedTests := passedTests acc;
                       failedTests := failedTests acc + 1;
                       testResults := testResults acc ++ [entry] |}
                end
          end
      | _ => None
      end
  end.

(** The inner loop; the flag is [false] when an iteration threw, and the
    updates made before it stay. *)
Fixpoint parse_specs (scriptMap : gmap string EmbeddedScript)
  (suite : json) (specs : list json) (acc : Parsed) : Parsed * bool :=
  match specs with
  | [] => (acc, true)
  | spec :: rest =>
      match parse_spec scriptMap suite spec acc with
      | Some acc' => parse_specs scriptMap suite rest acc'
      | None => (acc, false)
      end
  end.

(** [for (const spec of suite.specs || [])] *)
Definition parse_suite (scriptMap : gmap string EmbeddedScript)
  (suite : json) (acc : Parsed) : Parsed * bool :=
  match get "specs" (Some suite) with
  | None => (acc, false)
  | Some specs =>
      match iterate (or_empty specs) with
      | None => (acc, false)
      | Some l => parse_specs scriptMap suite l acc
      end
  end.

Fixpoint parse_suites (scriptMap : gmap string EmbeddedScript)
  (suites : list json) (acc : Parsed) : Parsed * bool :=
  match suites with
  | [] => (acc, true)
  | suite :: rest =>
      match parse_suite scriptMap suite acc with
      | (acc', true) => parse_suites scriptMap rest acc'
      | (acc', false) => (acc', false)
      end
  end.

(** Lines 261-290. [resultsFile] is [None] when the file does not exist,
    [Some None] when reading or [JSON.parse] throws; every exception is
    swallowed by the [catch] of line 287. *)
Definition parse_results (scriptMap : gmap string EmbeddedScript)
  (resultsFile : option (option json)) : Parsed :=
  match resultsFile with
  | Some (Some raw) =>
      match get "suites" (Some raw) with
      | None => no_results
      | Some suites =>
          match iterate (or_empty suites) with
          | None => no_results
          | Some l => fst (parse_suites scriptMap l no_results)
          end
      end
  | _ => no_results
  end.

(** Lines 292-308: if no results were parsed, infer from the exit code. *)
Definition infer_from_exit_code (scripts : list EmbeddedScript)
  (exitCode : Z) (durationSeconds : jsnum) (totalTests : Z) (acc : Parsed)
  : Parsed :=
  if (length (testResults acc) =? 0)%nat then
    {| passedTests := if (exitCode =? 0)%Z then totalTests else passedTests acc;
       failedTests := if (exitCode =? 0)%Z then failedTests acc else totalTests;
       testResults :=
         testResults acc ++
         map (fun script =>
                {| test_id := script_id script;
                   test_name := JStr (script_name script);
                   status := if (exitCode =? 0)%Z then passed else failed;
                   test_duration_seconds :=
                     div_length durationSeconds (length scripts);
                   error_message :=
                     if negb (exitCode =? 0)%Z
                     then Some (JStr "Test execution failed") else None |})
             scripts |}
  else acc.

(** Lines 310-314 and 326-340: the counts, the verdict and the canonical
    result object. *)
Definition normalize (executionId : string) (inputs : ActionInputs)
  (totalTests : Z) (durationSeconds : jsnum) (acc : Parsed)
  : TestExecutionResults :=
  let skippedTests := totalTests - passedTests acc - failedTests acc in
  let skippedTests := if (skippedTests <? 0)%Z then 0 else skippedTests in
  let overallResult :=
    if ((0 <? passedTests acc) && (failedTests acc =? 0))%Z
    then passed else failed in
  let overallStatus :=
    match overallResult with passed => completed | _ => status_failed end in
  {| execution_id := executionId;
     run_status := overallStatus;
     result := overallResult;
     total_tests := totalTests;
     passed_tests := passedTests acc;
     failed_tests := failedTests acc;
     skipped_tests := skippedTests;
     duration_seconds := durationSeconds;
     browser := inputs_browser inputs;
     report_url := "https://app.qamax.co/results/" +:+ executionId;
     tests := testResults acc;
     summary_markdown := None |}.

Definition runTestsLocally (w : World) (triggerResponse : TriggerTestsResponse)
  (inputs : ActionInputs) : M TestExecutionResults :=
  let scripts := default [] (scripts triggerResponse) in
  let executionId := tr_execution_id triggerResponse in
  (* create temp directory for test files *)
  tmpDir <- call EvMkdtemp (w_mkdtempSync w) ;;
  set_sandbox (Some tmpDir) ;;;
  let testDir := tmpDir +:+ "/tests" in
  call (EvMkdir testDir) (w_mkdirSync w) ;;;
  (* write playwright config *)
  let configFile := tmpDir +:+ "/playwright.config.js" in
  call (EvWriteFile configFile (codes (configContent inputs)))
       (w_writeFileSync w configFile) ;;;
  (* write each test script to a file *)
  scriptMap <- write_scripts w testDir scripts ∅ ;;
  (* install Playwright *)
  let packageFile := tmpDir +:+ "/package.json" in
  call (EvWriteFile packageFile (codes packageJson))
       (w_writeFileSync w packageFile) ;;;
  call (EvExec "npm" ["install"; "--no-audit"; "--no-fund"])
       (w_npmInstall w) ;;;
  call (EvExec "npx" ["playwright"; "install"; "--with-deps";
                      inputs_browser inputs])
       (w_playwrightInstall w) ;;;
  (* run tests *)
  exitCode <-
    try_catch
      (call (EvExec "npx" ["playwright"; "test";
                           "--config=playwright.config.js"])
            (w_playwrightTest w))
      (fun _ => ret 1) ;;
  let durationSeconds := div1000 (Fin (inject_Z (w_elapsedMs w))) in
  (* parse results from the JSON reporter *)
  let totalTests := Z.of_nat (length scripts) in
  let acc := parse_results scriptMap (w_resultsFile w) in
  let acc := infer_from_exit_code scripts exitCode durationSeconds
               totalTests acc in
  let results := normalize executionId inputs totalTests durationSeconds acc in
  (* clean up temp directory *)
  try_catch
    (call (EvRmSync tmpDir) (w_rmSync w) ;;; set_sandbox None)
    (fun _ => ret tt) ;;;
  (* report results back to the API *)
  call (EvReportResults executionId (result results) (passed_tests results)
          (failed_tests results) (total_tests results))
       (w_reportResults w) ;;;
  ret results.

(** **** [run] *)

(** [setOutputs] *)
Definition setOutputs (results : TestExecutionResults) : M unit :=
  emit (EvSetOutput "execution-id") ;;;
  emit (EvSetOutput "status") ;;;
  emit (EvSetOutput "total-tests") ;;;
  emit (EvSetOutput "passed-tests") ;;;
  emit (EvSetOutput "failed-tests") ;;;
  emit (EvSetOutput "duration-seconds") ;;;
  emit (EvSetOutput "report-url") ;;;
  emit (EvSetOutput "summary-markdown").

(** [writeJobSummary] *)
Definition writeJobSummary (w : World) (results : TestExecutionResults)
  : M unit :=
  call EvWriteJobSummary (w_writeJobSummary w).

(** [postPrComment]: only on pull requests and with a token; a failure of
    the comment is caught inside. *)
Definition postPrComment (w : World) (results : TestExecutionResults)
  : M unit :=
  if negb (w_pullRequest w) then ret tt
  else if negb (w_githubToken w) then ret tt
  else try_catch (call EvCreateComment (w_createComment w)) (fun _ => ret tt).

(** Lines 399-445: resolve the project id. *)
Definition resolve_project (w : World) (inputs : ActionInputs) : M string :=
  if negb (String.eqb (projectId inputs) "") then ret (projectId inputs)
  else if negb (String.eqb (projectName inputs) "") then
    projects <- call EvGetProjects (w_getProjects w) ;;
    match find (fun p => String.eqb (toLowerCase (p_name p))
                           (toLowerCase (projectName inputs))) projects with
    | Some match_ => ret (p_id match_)
    | None =>
        fallback <- call (EvResolveProject (w_repository w))
                         (w_resolveProject w) ;;
        match fallback with
        | Some id =>
            if negb (String.eqb id "") then ret id
            else throw (ThrownError
              ("Project " +:+ dq +:+ projectName inputs +:+ dq +:+
               " not found. Available projects: " +:+
               str_or (String.concat ", " (map p_name projects)) "none" +:+
               ". Tip: use the exact project name from QualityMax, or link the repository to your project."))
        | None =>
            throw (ThrownError
              ("Project " +:+ dq +:+ projectName inputs +:+ dq +:+
               " not found. Available projects: " +:+
               str_or (String.concat ", " (map p_name projects)) "none" +:+
               ". Tip: use the exact project name from QualityMax, or link the repository to your project."))
        end
    end
  else
    detected <- call (EvResolveProject (w_repository w))
                     (w_resolveProject w) ;;
    match detected with
    | Some id =>
        if negb (String.eqb id "") then ret id
        else throw (ThrownError
          "Could not auto-detect project. Provide project-id or project-name input, or link your repository in QualityMax project settings.")
    | None =>
        throw (ThrownError
          "Could not auto-detect project. Provide project-id or project-name input, or link your repository in QualityMax project settings.")
    end.

(** Lines 447-476: seed mode. *)
Definition seed (w : World) (resolvedProjectId : string) : M unit :=
  seedResponse <- call (EvSeedTests resolvedProjectId) (w_seedTests w) ;;
  emit (EvSetOutput "tests-created") ;;;
  emit (EvSetOutput "tests-skipped") ;;;
  emit (EvSetOutput "seed-message") ;;;
  if ((tests_created seedResponse =? 0) && (seed_skipped seedResponse =? 0))%Z
  then emit (EvSetFailed (seed_message seedResponse))
  else ret tt.

(** Lines 509-537: repository-based tests, run with [npx playwright test]
    on the listed files; the result is built from the exit code alone. *)
Definition run_repository_tests (w : World) (executionId : string)
  (test_files : list string) (inputs : ActionInputs)
  : M TestExecutionResults :=
  exitCode <-
    try_catch
      (call (EvExec "npx" ("playwright" :: "test" :: test_files))
            (w_repositoryTest w))
      (fun _ => ret 1) ;;
  let duration := div1000 (Fin (inject_Z (w_elapsedMs w))) in
  ret {| execution_id := executionId;
         run_status := if (exitCode =? 0)%Z then completed else status_failed;
         result := if (exitCode =? 0)%Z then passed else failed;
         total_tests := Z.of_nat (length test_files);
         passed_tests :=
           if (exitCode =? 0)%Z then Z.of_nat (length test_files) else 0;
         failed_tests :=
           if negb (exitCode =? 0)%Z then Z.of_nat (length test_files) else 0;
         skipped_tests := 0;
         duration_seconds := duration;
         browser := inputs_browser inputs;
         report_url := "https://app.qamax.co/results/" +:+ executionId;
         tests := [];
         summary_markdown := None |}.

(** Lines 503-542: where the tests run. *)
Definition execute (w : World) (triggerResponse : TriggerTestsResponse)
  (inputs : ActionInputs) : M TestExecutionResults :=
  let executionId := tr_execution_id triggerResponse in
  match run_locally triggerResponse, scripts triggerResponse,
        test_files triggerResponse with
  | true, Some (_ :: _), _ => runTestsLocally w triggerResponse inputs
  | true, _, Some files => run_repository_tests w executionId files inputs
  | _, _, _ =>
      let timeoutMs := timeoutMinutes inputs * 60 * 1000 in
      call (EvWaitForCompletion executionId timeoutMs) (w_waitForCompletion w)
  end.

(** Lines 564-570 *)
Definition executionFailed (results : TestExecutionResults) : bool :=
  match result results with failed => true | _ => false end
  || match run_status results with status_failed => true | _ => false end
  || match run_status results with cancelled => true | _ => false end
  || match run_status results with timeout => true | _ => false end
  || ((passed_tests results =? 0) && (0 <? total_tests results))%Z.

(** Lines 544-579: publish the results and decide the exit signal. *)
Definition conclude (w : World) (inputs : ActionInputs)
  (results : TestExecutionResults) : M unit :=
  setOutputs results ;;;
  writeJobSummary w results ;;;
  (if postPrCommentFlag inputs then postPrComment w results else ret tt) ;;;
  if executionFailed results && failOnTestFailure inputs then
    emit (EvSetFailed
            (pretty (failed_tests results) +:+ " of " +:+
             pretty (total_tests results) +:+
             " test(s) failed. View report: " +:+ report_url results))
  else ret tt.

(** The [try] block of [run] up to the point where the results are known;
    [None] in seed mode, which returns early. *)
Definition obtain_results (w : World) (inputs : ActionInputs)
  : M (option TestExecutionResults) :=
  set_client ;;;
  isValid <- call EvValidateApiKey (w_validateApiKey w) ;;
  (if isValid : bool then ret tt
   else throw (ThrownError
     "Invalid API key. Get your API key from app.qamax.co/settings/api")) ;;;
  resolvedProjectId <- resolve_project w inputs ;;
  if String.eqb (mode inputs) "seed" then
    seed w resolvedProjectId ;;; ret None
  else
    let request :=
      {| req_project_id := resolvedProjectId;
         req_test_suite := testSuite inputs;
         req_browser := inputs_browser inputs;
         req_headless := headless inputs;
         req_timeout_minutes := timeoutMinutes inputs;
         req_repository := w_repository w |} in
    triggerResponse <- call (EvTriggerTests request) (w_triggerTests w) ;;
    set_executionId (tr_execution_id triggerResponse) ;;;
    results <- execute w triggerResponse inputs ;;
    ret (Some results).

Definition try_block (w : World) (inputs : ActionInputs) : M unit :=
  results <- obtain_results w inputs ;;
  match results with
  | Some results => conclude w inputs results
  | None => ret tt
  end.

(** The [catch] clause of [run], lines 580-595. *)
Definition on_error (w : World) (e : Thrown) : M unit :=
  st <- get_state ;;
  (match executionId st with
   | Some id =>
       if negb (String.eqb id "") && client st
       then try_catch (call (EvCancelExecution id) (w_cancelExecution w))
                      (fun _ => ret tt)
       else ret tt
   | None => ret tt
   end) ;;;
  match e with
  | ThrownError msg => emit (EvSetFailed msg)
  | ThrownOther => emit (EvSetFailed "An unexpected error occurred")
  end.

(** [run] once the inputs are read (after line 379); [Entry.run] is the
    function from its first statement. *)
Definition run (w : World) (inputs : ActionInputs) : M unit :=
  try_catch (try_block w inputs) (on_error w).

End Program.

End Action.

(* ===================================================================== *)
(** ** Concrete platform functions and worlds for the examples *)
(* ===================================================================== *)

Module Examples.
Import Regex Js Action.

(** [path.posix.basename]: the last non-empty segment of a path. *)
Fixpoint basename_from (s cur last : string) : string :=
  match s with
  | EmptyString => if String.eqb cur "" then last else cur
  | String c s' =>
      if Ascii.eqb c "/"%char
      then basename_from s' "" (if String.eqb cur "" then last else cur)
      else basename_from s' (cur +:+ String c EmptyString) last
  end.

Definition posix_basename (s : string) : string := basename_from s "" "".

(** [ToNumber] is only consulted on durations that are not numbers; the
    examples have none. *)
Definition to_number (j : json) : jsnum := NaN.

Definition lower_char (c : ascii) : ascii :=
  let n := nat_of_ascii c in
  if ((65 <=? n) && (n <=? 90))%nat then ascii_of_nat (n + 32) else c.

Fixpoint ascii_lower (s : string) : string :=
  match s with
  | EmptyString => EmptyString
  | String c s' => String (lower_char c) (ascii_lower s')
  end.

(** A world in which every external call succeeds; the runner exits with
    [exitCode] and leaves [report] behind. *)
Definition world (response : TriggerTestsResponse) (exitCode : Z)
  (report : option (option json)) : World :=
  {| w_validateApiKey := Ok true;
     w_getProjects := Ok [];
     w_resolveProject := Ok (Some "42");
     w_seedTests := Ok {| tests_created := 1; seed_skipped := 0;
                          seed_message := "seeded" |};
     w_triggerTests := Ok response;
     w_reportResults := Ok tt;
     w_cancelExecution := Ok tt;
     w_waitForCompletion := Throw (ThrownError "Timeout waiting for completion");
     w_mkdtempSync := Ok "/tmp/qamax-abc";
     w_mkdirSync := Ok tt;
     w_writeFileSync := fun _ => Ok tt;
     w_resultsFile := report;
     w_rmSync := Ok tt;
     w_npmInstall := Ok tt;
     w_playwrightInstall := Ok tt;
     w_playwrightTest := Ok exitCode;
     w_repositoryTest := Ok exitCode;
     w_elapsedMs := 9000;
     w_repository := "octo/repo";
     w_writeJobSummary := Ok tt;
     w_pullRequest := false;
     w_githubToken := false;
     w_createComment := Ok tt |}.

Definition inputs0 : ActionInputs :=
  {| projectId := "42"; projectName := ""; testSuite := "all";
     inputs_browser := "chromium"; headless := true; timeoutMinutes := 30;
     failOnTestFailure := true; postPrCommentFlag := true; mode := "run" |}.

Definition script (id : Z) (name : string) : EmbeddedScript :=
  {| script_id := id; script_name := name; script_code := codes "test();" |}.

Definition local_response (l : list EmbeddedScript) : TriggerTestsResponse :=
  {| tr_execution_id := "exec-1"; run_locally := true; scripts := Some l;
     test_files := None; test_command := "" |}.

Definition repository_response (files : list string) : TriggerTestsResponse :=
  {| tr_execution_id := "exec-1"; run_locally := true; scripts := None;
     test_files := Some files; test_command := "npx playwright test" |}.

(** A spec of the JSON reporter with one test and one attempt. *)
Definition spec_json (ok : bool) (title : string) : json :=
  JObj [("title", JStr title); ("ok", JBool ok);
        ("tests", JArr [JObj [("results", JArr [JObj [("duration", JNum 1500)]])]])].

Definition suite_json (file : string) (specs : list json) : json :=
  JObj [("file", JStr file); ("specs", JArr specs)].

Definition report_json (suites : list json) : json :=
  JObj [("suites", JArr suites)].

(** Source texts for the sanitiser. *)
Definition annotated_twice : text := codes "a: Page: Page".

Definition typed_script : text :=
  codes "import type { Page } from '@playwright/test';
test('login', async ({ page }, p: Page, ctx : BrowserContext) => { await p.goto('/'); });".

(** One script whose file holds two tests: the report has two specs. *)
Definition two_specs_world : World :=
  world (local_response [script 7 "login"]) 0
    (Some (Some (report_json
       [suite_json "test-7.spec.js"
          [spec_json true "signs in"; spec_json true "signs out"]]))).

Definition local_run (w : World) (response : TriggerTestsResponse)
  : Res TestExecutionResults * State :=
  runTestsLocally posix_basename to_number w response inputs0 initial.

Definition two_specs_run : Res TestExecutionResults * State :=
  local_run two_specs_world (local_response [script 7 "login"]).

(** A repository run on an empty list of test files that exits with 0. *)
Definition empty_repository_run : Res TestExecutionResults * State :=
  run_repository_tests (world (repository_response []) 0 None)
    "exec-1" [] inputs0 initial.

Definition repository_run (exit : Z) : Res TestExecutionResults * State :=
  run_repository_tests (world (repository_response ["e2e/a.spec.ts"]) exit None)
    "exec-1" ["e2e/a.spec.ts"] inputs0 initial.

(** [w] with other answers for [npm install] and for the remote run. *)
Definition with_answers (w : World) (npmInstall : Res unit)
  (remote : Res TestExecutionResults) : World :=
  {| w_validateApiKey := w_validateApiKey w;
     w_getProjects := w_getProjects w;
     w_resolveProject := w_resolveProject w;
     w_seedTests := w_seedTests w;
     w_triggerTests := w_triggerTests w;
     w_reportResults := w_reportResults w;
     w_cancelExecution := w_cancelExecution w;
     w_waitForCompletion := remote;
     w_mkdtempSync := w_mkdtempSync w;
     w_mkdirSync := w_mkdirSync w;
     w_writeFileSync := w_writeFileSync w;
     w_resultsFile := w_resultsFile w;
     w_rmSync := w_rmSync w;
     w_npmInstall := npmInstall;
     w_playwrightInstall := w_playwrightInstall w;
     w_playwrightTest := w_playwrightTest w;
     w_repositoryTest := w_repositoryTest w;
     w_elapsedMs := w_elapsedMs w;
     w_repository := w_repository w;
     w_writeJobSummary := w_writeJobSummary w;
     w_pullRequest := w_pullRequest w;
     w_githubToken := w_githubToken w;
     w_createComment := w_createComment w |}.

(** Two scripts, no report file; the runner exits with [exit]. *)
Definition two_scripts : TriggerTestsResponse :=
  local_response [script 1 "login"; script 2 "checkout"].

Definition no_report_world (exit : Z) : World := world two_scripts exit None.

(** [npm install] exits with a non-zero code, so [exec] rejects. *)
Definition install_fails_world : World :=
  with_answers (no_report_world 0)
    (Throw (ThrownError "The process 'npm' failed with exit code 1"))
    (Throw (ThrownError "Timeout waiting for completion")).

(** The service runs the tests itself and answers with a result whose
    verdict is [passed] although no test passed. *)
Definition remote_response : TriggerTestsResponse :=
  {| tr_execution_id := "exec-1"; run_locally := false; scripts := None;
     test_files := None; test_command := "" |}.

Definition hollow_result : TestExecutionResults :=
  {| execution_id := "exec-1"; run_status := completed; result := passed;
     total_tests := 3; passed_tests := 0; failed_tests := 0;
     skipped_tests := 3; duration_seconds := Fin 12;
     browser := "chromium";
     report_url := "https://app.qamax.co/results/exec-1";
     tests := []; summary_markdown := None |}.

Definition remote_world : World :=
  with_answers (world remote_response 0 None) (Ok tt) (Ok hollow_result).

(** A repository-test-files response with one file. *)
Definition repository_world : World :=
  world (repository_response ["e2e/a.spec.ts"]) 0 None.

(** The orchestration on the example platform. *)
Definition run_action (w : World) (inputs : ActionInputs) : Res unit * State :=
  run posix_basename to_number ascii_lower w inputs initial.

(** The trigger call itself fails: no execution id is ever known. *)
Definition trigger_fails_world : World :=
  {| w_validateApiKey := Ok true;
     w_getProjects := Ok [];
     w_resolveProject := Ok (Some "42");
     w_seedTests := Throw ThrownOther;
     w_triggerTests := Throw (ThrownError "Request failed with status 500");
     w_reportResults := Ok tt;
     w_cancelExecution := Ok tt;
     w_waitForCompletion := Throw ThrownOther;
     w_mkdtempSync := Ok "/tmp/qamax-abc";
     w_mkdirSync := Ok tt;
     w_writeFileSync := fun _ => Ok tt;
     w_resultsFile := None;
     w_rmSync := Ok tt;
     w_npmInstall := Ok tt;
     w_playwrightInstall := Ok tt;
     w_playwrightTest := Ok 0;
     w_repositoryTest := Ok 0;
     w_elapsedMs := 0;
     w_repository := "octo/repo";
     w_writeJobSummary := Ok tt;
     w_pullRequest := false;
     w_githubToken := false;
     w_createComment := Ok tt |}.

(** Three scripts and a report with one spec per script, the second of
    which failed; the runner exits with 1. *)
Definition three_scripts : TriggerTestsResponse :=
  local_response [script 1 "login"; script 2 "checkout"; script 3 "logout"].

Definition three_specs : json :=
  report_json
    [suite_json "test-1.spec.js" [spec_json true "login"];
     suite_json "test-2.spec.js" [spec_json false "checkout"];
     suite_json "test-3.spec.js" [spec_json true "logout"]].

Definition three_specs_world : World :=
  world three_scripts 1 (Some (Some three_specs)).

(** One script whose file holds three tests, one of them failing. *)
Definition one_script : TriggerTestsResponse :=
  local_response [script 1 "account"].

Definition one_file_three_specs : json :=
  report_json
    [suite_json "test-1.spec.js"
       [spec_json true "login"; spec_json false "checkout";
        spec_json true "logout"]].

Definition one_file_world : World :=
  world one_script 1 (Some (Some one_file_three_specs)).

End Examples.

(* ===================================================================== *)
(** ** Reading traces *)
(* ===================================================================== *)

Module Trace.
Import Regex Js Action.

Definition is_report (ev : Event) : bool :=
  match ev with EvReportResults _ _ _ _ _ => true | _ => false end.

Definition is_cancel (ev : Event) : bool :=
  match ev with EvCancelExecution _ => true | _ => false end.

Definition is_setFailed (ev : Event) : bool :=
  match ev with EvSetFailed _ => true | _ => false end.

Definition is_rmSync (ev : Event) : bool :=
  match ev with EvRmSync _ => true | _ => false end.

(** The calls of [reportResults], [cancelExecution] and [core.setFailed]
    in a trace, in order. *)
Definition reports (t : list Event) : list Event := List.filter is_report t.
Definition cancels (t : list Event) : list Event := List.filter is_cancel t.
Definition failures (t : list Event) : list Event := List.filter is_setFailed t.
Definition removals (t : list Event) : list Event := List.filter is_rmSync t.

Definition no_cancel (ev : Event) : bool := negb (is_cancel ev).

(** Neither a cancel call nor a failure message. *)
Definition silent (ev : Event) : bool :=
  negb (is_cancel ev) && negb (is_setFailed ev).

Definition is_write (ev : Event) : bool :=
  match ev with EvWriteFile _ _ => true | _ => false end.

(** [m] only appends events, every event it appends satisfies [P], and
    it leaves the variables [executionId] and [client] of [run] alone,
    whatever its outcome. *)
Definition emits {A} (P : Event -> bool) (m : M A) : Prop :=
  forall st, exists evs,
    trace (snd (m st)) = trace st ++ evs /\ forallb P evs = true
    /\ executionId (snd (m st)) = executionId st
    /\ client (snd (m st)) = client st.

End Trace.

(* ===================================================================== *)
(** ** Vocabulary of the properties *)
(* ===================================================================== *)

Module Props.
Import Regex Js Action Trace.

(** The map that the loop of lines 210-224 has built when it ends. *)
Definition script_map_from (m : gmap string EmbeddedScript)
  (l : list EmbeddedScript) : gmap string EmbeddedScript :=
  foldl (fun m script => <[safeFileName script := script]> m) m l.

Definition script_map (l : list EmbeddedScript) : gmap string EmbeddedScript :=
  script_map_from ∅ l.

(** The exit code that [runTestsLocally] works with: the runner's, or 1
    when starting the runner failed. *)
Definition exitCode (w : World) : Z :=
  match w_playwrightTest w with
  | Ok c => c
  | Throw _ => 1
  end.

Definition durationSeconds (w : World) : jsnum :=
  div1000 (Fin (inject_Z (w_elapsedMs w))).

Definition embedded (resp : TriggerTestsResponse) : list EmbeddedScript :=
  default [] (scripts resp).

(** What the parser derived from the report file of world [w]. *)
Definition derived (basename : string -> string) (ToNumber : json -> jsnum)
  (w : World) (resp : TriggerTestsResponse) : Parsed :=
  parse_results basename ToNumber (script_map (embedded resp)) (w_resultsFile w).

(** The result object of a local run that returns. *)
Definition local_result (basename : string -> string)
  (ToNumber : json -> jsnum) (w : World) (resp : TriggerTestsResponse)
  (inputs : ActionInputs) : TestExecutionResults :=
  let total := Z.of_nat (length (embedded resp)) in
  normalize (tr_execution_id resp) inputs total (durationSeconds w)
    (infer_from_exit_code (embedded resp) (exitCode w) (durationSeconds w)
       total (derived basename ToNumber w resp)).

(** The result objects that the program itself builds, by origin: the
    embedded-script run, the same run when it took the exit-code fallback,
    and the repository-test-files run. *)
Inductive origin : Type := Embedded | Fallback | Repository.

Inductive produced (basename : string -> string) (ToNumber : json -> jsnum)
  : origin -> TestExecutionResults -> Prop :=
| produced_embedded w resp inputs st st' r :
    runTestsLocally basename ToNumber w resp inputs st = (Ok r, st') ->
    produced basename ToNumber Embedded r
| produced_fallback w resp inputs st st' r :
    runTestsLocally basename ToNumber w resp inputs st = (Ok r, st') ->
    testResults (derived basename ToNumber w resp) = [] ->
    produced basename ToNumber Fallback r
| produced_repository w id files inputs st st' r :
    run_repository_tests w id files inputs st = (Ok r, st') ->
    produced basename ToNumber Repository r.

(** Reports of the shape the JSON reporter writes: an object whose
    [suites] is an array of objects, each with a string [file] and an
    array [specs] of objects. [report_specs] lists the specs of such a
    report in document order, each with the [file] of its suite. *)
Definition is_object (j : json) : bool :=
  match j with JObj _ => true | _ => false end.

Definition suite_specs (suite : json) : option (list (string * json)) :=
  match suite with
  | JObj fields =>
      match obj_get "file" fields, obj_get "specs" fields with
      | Some (JStr file), Some (JArr specs) =>
          if forallb is_object specs
          then Some (map (fun spec => (file, spec)) specs) else None
      | _, _ => None
      end
  | _ => None
  end.

Fixpoint suites_specs (suites : list json) : option (list (string * json)) :=
  match suites with
  | [] => Some []
  | suite :: rest =>
      match suite_specs suite, suites_specs rest with
      | Some a, Some b => Some (a ++ b)
      | _, _ => None
      end
  end.

Definition report_specs (raw : json) : option (list (string * json)) :=
  match raw with
  | JObj fields =>
      match obj_get "suites" fields with
      | Some (JArr suites) => suites_specs suites
      | _ => None
      end
  | _ => None
  end.

(** The [ok] flag of a spec, as the conditional of line 271 reads it. *)
Definition spec_ok (spec : json) : bool := truthy (get_opt "ok" (Some spec)).

Definition count_ok (l : list (string * json)) : Z :=
  Z.of_nat (length (List.filter (fun fs => spec_ok (snd fs)) l)).

Definition count_not_ok (l : list (string * json)) : Z :=
  Z.of_nat (length (List.filter (fun fs => negb (spec_ok (snd fs))) l)).

(** The counters of the parser agree with the list it fills. *)
Definition balanced (acc : Parsed) : Prop :=
  passedTests acc + failedTests acc = Z.of_nat (length (testResults acc))
  /\ 0 <= passedTests acc /\ 0 <= failedTests acc.

(** An entry of the result list classifies the spec [fs] of a report: its
    status is read off the spec's own [ok] flag, and its id is that of the
    script stored under the base name of the suite's file. *)
Definition classifies (basename : string -> string)
  (m : gmap string EmbeddedScript) (fs : string * json)
  (t : IndividualTestResult) : Prop :=
  status t = (if spec_ok (snd fs) then passed else failed)
  /\ test_id t = id_of (m !! basename (fst fs)).

(** What the claim about report-based classification says of one spec and
    its entry: the status comes from the spec's [ok] flag alone, and when
    the suite's file is the file generated for a script of the run, the
    entry carries that script's id. *)
Definition reported_as (basename : string -> string)
  (l : list EmbeddedScript) (fs : string * json)
  (t : IndividualTestResult) : Prop :=
  status t = (if spec_ok (snd fs) then passed else failed)
  /\ forall s, In s l -> basename (fst fs) = safeFileName s ->
               test_id t = script_id s.

(** The entry of the exit-code fallback for one script. *)
Definition fallback_entry (verdict : TestResult) (share : jsnum)
  (message : jsval) (script : EmbeddedScript) : IndividualTestResult :=
  {| test_id := script_id script;
     test_name := JStr (script_name script);
     status := verdict;
     test_duration_seconds := share;
     error_message := message |}.


(** The message [run] hands to [core.setFailed] for a caught value. *)
Definition failure_message (e : Thrown) : string :=
  match e with
  | ThrownError msg => msg
  | ThrownOther => "An unexpected error occurred"
  end.

(** The execution id as the guard [executionId && client] of the [catch]
    clause sees it: known when assigned and not the empty string. *)
Definition known_execution (st : State) : option string :=
  match executionId st with
  | Some id => if negb (String.eqb id "") && client st then Some id else None
  | None => None
  end.

End Props.

(* ===================================================================== *)
(** ** Vocabulary of the observations on whole runs *)
(* ===================================================================== *)

Module Observations.
Import Regex Js Action Trace Props Examples.

(** [m] only appends events to the trace, and every event it appends
    satisfies [P], whatever its outcome. *)
Definition appends {A} (P : Event -> bool) (m : M A) : Prop :=
  forall st, exists evs,
    trace (snd (m st)) = trace st ++ evs /\ forallb P evs = true.

(** The events of a local execution: the sandbox, the subprocesses and the
    report back to the service. *)
Definition local_event (ev : Event) : bool :=
  match ev with
  | EvMkdtemp | EvMkdir _ | EvWriteFile _ _ | EvExec _ _ | EvRmSync _
  | EvReportResults _ _ _ _ _ => true
  | _ => false
  end.

(** The two calls that look a project up. *)
Definition is_lookup (ev : Event) : bool :=
  match ev with
  | EvGetProjects | EvResolveProject _ => true
  | _ => false
  end.

(** The events [run] emits itself, outside [resolve_project] and
    [execute]. *)
Definition orchestration_event (ev : Event) : bool :=
  match ev with
  | EvValidateApiKey | EvSeedTests _ | EvTriggerTests _
  | EvCancelExecution _ | EvSetOutput _ | EvWriteJobSummary
  | EvCreateComment | EvSetFailed _ => true
  | _ => false
  end.

(** The events of a run in seed mode. *)
Definition seed_event (ev : Event) : bool :=
  match ev with
  | EvValidateApiKey | EvGetProjects | EvResolveProject _ | EvSeedTests _
  | EvSetOutput _ | EvSetFailed _ => true
  | _ => false
  end.

(** The message of line 575. *)
Definition failed_text (r : TestExecutionResults) : string :=
  pretty (failed_tests r) +:+ " of " +:+ pretty (total_tests r) +:+
  " test(s) failed. View report: " +:+ report_url r.

(** The failure message of seed mode (line 471), if any. *)
Definition seed_failure (resp : SeedTestsResponse) : list Event :=
  if ((tests_created resp =? 0) && (seed_skipped resp =? 0))%Z
  then [EvSetFailed (seed_message resp)] else [].

(** The failure message of a completed run in run mode (lines 565-576),
    if any. *)
Definition exit_signal (inputs : ActionInputs) (r : TestExecutionResults)
  : list Event :=
  if executionFailed r && failOnTestFailure inputs
  then [EvSetFailed (failed_text r)] else [].

(** The message of lines 428-431. *)
Definition not_found_text (inputs : ActionInputs) (projects : list Project)
  : string :=
  "Project " +:+ dq +:+ projectName inputs +:+ dq +:+
  " not found. Available projects: " +:+
  str_or (String.concat ", " (map p_name projects)) "none" +:+
  ". Tip: use the exact project name from QualityMax, or link the repository to your project.".

(** [resolveProject] found no linked project: [null] or the empty
    string. *)
Definition unlinked (answer : option string) : bool :=
  match answer with
  | Some id => String.eqb id ""
  | None => true
  end.

(** [w] with another answer of [createComment], of [rmSync] and of the
    test runner. *)
Definition with_createComment (a : Res unit) (w : World) : World :=
  {| w_validateApiKey := w_validateApiKey w;
     w_getProjects := w_getProjects w;
     w_resolveProject := w_resolveProject w;
     w_seedTests := w_seedTests w;
     w_triggerTests := w_triggerTests w;
     w_reportResults := w_reportResults w;
     w_cancelExecution := w_cancelExecution w;
     w_waitForCompletion := w_waitForCompletion w;
     w_mkdtempSync := w_mkdtempSync w;
     w_mkdirSync := w_mkdirSync w;
     w_writeFileSync := w_writeFileSync w;
     w_resultsFile := w_resultsFile w;
     w_rmSync := w_rmSync w;
     w_npmInstall := w_npmInstall w;
     w_playwrightInstall := w_playwrightInstall w;
     w_playwrightTest := w_playwrightTest w;
     w_repositoryTest := w_repositoryTest w;
     w_elapsedMs := w_elapsedMs w;
     w_repository := w_repository w;
     w_writeJobSummary := w_writeJobSummary w;
     w_pullRequest := w_pullRequest w;
     w_githubToken := w_githubToken w;
     w_createComment := a |}.

Definition with_playwrightTest (a : Res Z) (w : World) : World :=
  {| w_validateApiKey := w_validateApiKey w;
     w_getProjects := w_getProjects w;
     w_resolveProject := w_resolveProject w;
     w_seedTests := w_seedTests w;
     w_triggerTests := w_triggerTests w;
     w_reportResults := w_reportResults w;
     w_cancelExecution := w_cancelExecution w;
     w_waitForCompletion := w_waitForCompletion w;
     w_mkdtempSync := w_mkdtempSync w;
     w_mkdirSync := w_mkdirSync w;
     w_writeFileSync := w_writeFileSync w;
     w_resultsFile := w_resultsFile w;
     w_rmSync := w_rmSync w;
     w_npmInstall := w_npmInstall w;
     w_playwrightInstall := w_playwrightInstall w;
     w_playwrightTest := a;
     w_repositoryTest := w_repositoryTest w;
     w_elapsedMs := w_elapsedMs w;
     w_repository := w_repository w;
     w_writeJobSummary := w_writeJobSummary w;
     w_pullRequest := w_pullRequest w;
     w_githubToken := w_githubToken w;
     w_createComment := w_createComment w |}.

(** The number of entries of a result list with a given status. *)
Definition has_status (v : TestResult) (t : IndividualTestResult) : bool :=
  match v, status t with
  | passed, passed | failed, failed | skipped, skipped | error, error => true
  | _, _ => false
  end.

Definition count_status (v : TestResult) (l : list IndividualTestResult) : Z :=
  Z.of_nat (length (List.filter (has_status v) l)).

(** The counters of the parser are the tallies of the list it fills. *)
Definition tallied (acc : Parsed) : Prop :=
  passedTests acc = count_status passed (testResults acc)
  /\ failedTests acc = count_status failed (testResults acc)
  /\ Forall (fun t => status t = passed \/ status t = failed) (testResults acc).

(** A suite on which the loop of line 268 throws before its first
    iteration: [null], or one whose [specs] cannot be iterated. *)
Definition broken_suite (suite : json) : bool :=
  match get "specs" (Some suite) with
  | None => true
  | Some specs =>
      match iterate (or_empty specs) with
      | None => true
      | Some _ => false
      end
  end.

(** [spec.title || fileName], the name of an entry whose file belongs to
    no script. *)
Definition title_or (title : jsval) (fileName : string) : json :=
  match title with
  | Some t => if truthy title then t else JStr fileName
  | None => JStr fileName
  end.

(** The file written for a script (lines 211-221). *)
Definition script_write (dir : string) (script : EmbeddedScript) : Event :=
  EvWriteFile ((dir +:+ "/tests") +:+ "/" +:+ safeFileName script)
    (strip_type_annotations (script_code script)).

(** The effects of a local run that returns, in program order. *)
Definition local_effects (dir : string) (resp : TriggerTestsResponse)
  (inputs : ActionInputs) (r : TestExecutionResults) : list Event :=
  [EvMkdtemp; EvMkdir (dir +:+ "/tests");
   EvWriteFile (dir +:+ "/playwright.config.js") (codes (configContent inputs))]
  ++ map (script_write dir) (embedded resp)
  ++ [EvWriteFile (dir +:+ "/package.json") (codes packageJson);
      EvExec "npm" ["install"; "--no-audit"; "--no-fund"];
      EvExec "npx" ["playwright"; "install"; "--with-deps";
                    inputs_browser inputs];
      EvExec "npx" ["playwright"; "test"; "--config=playwright.config.js"];
      EvRmSync dir;
      EvReportResults (tr_execution_id resp) (result r) (passed_tests r)
        (failed_tests r) (total_tests r)].

(** The trigger call. *)
Definition is_trigger (ev : Event) : bool :=
  match ev with EvTriggerTests _ => true | _ => false end.

Definition no_trigger (ev : Event) : bool := negb (is_trigger ev).

(** The execution id that the trigger call has answered in a run of world
    [w] with the trace [t]: none before the call is made, none when the
    call throws. *)
Definition answered_id (w : World) (t : list Event) : option string :=
  if existsb is_trigger t then
    match w_triggerTests w with
    | Ok resp => Some (tr_execution_id resp)
    | Throw _ => None
    end
  else None.

(** The execution id that is known after the calls of [t]: the one the
    trigger call answered, unless it is the empty string, which the guard
    of the [catch] clause takes for no id. *)
Definition known_id (w : World) (t : list Event) : option string :=
  match answered_id w t with
  | Some id => if negb (String.eqb id "") then Some id else None
  | None => None
  end.


(** Example worlds. *)

(** The key is rejected by the service. *)
Definition invalid_key_world : World :=
  {| w_validateApiKey := Ok false;
     w_getProjects := Ok [];
     w_resolveProject := Ok None;
     w_seedTests := Throw ThrownOther;
     w_triggerTests := Throw ThrownOther;
     w_reportResults := Ok tt;
     w_cancelExecution := Ok tt;
     w_waitForCompletion := Throw ThrownOther;
     w_mkdtempSync := Ok "/tmp/qamax-abc";
     w_mkdirSync := Ok tt;
     w_writeFileSync := fun _ => Ok tt;
     w_resultsFile := None;
     w_rmSync := Ok tt;
     w_npmInstall := Ok tt;
     w_playwrightInstall := Ok tt;
     w_playwrightTest := Ok 0;
     w_repositoryTest := Ok 0;
     w_elapsedMs := 0;
     w_repository := "octo/repo";
     w_writeJobSummary := Ok tt;
     w_pullRequest := false;
     w_githubToken := false;
     w_createComment := Ok tt |}.

(** Two projects, none named as asked, and no linked repository. *)
Definition two_projects_world : World :=
  {| w_validateApiKey := Ok true;
     w_getProjects := Ok [ {| p_id := "1"; p_name := "Shop" |};
                           {| p_id := "2"; p_name := "Blog" |} ];
     w_resolveProject := Ok None;
     w_seedTests := Throw ThrownOther;
     w_triggerTests := Throw ThrownOther;
     w_reportResults := Ok tt;
     w_cancelExecution := Ok tt;
     w_waitForCompletion := Throw ThrownOther;
     w_mkdtempSync := Ok "/tmp/qamax-abc";
     w_mkdirSync := Ok tt;
     w_writeFileSync := fun _ => Ok tt;
     w_resultsFile := None;
     w_rmSync := Ok tt;
     w_npmInstall := Ok tt;
     w_playwrightInstall := Ok tt;
     w_playwrightTest := Ok 0;
     w_repositoryTest := Ok 0;
     w_elapsedMs := 0;
     w_repository := "octo/repo";
     w_writeJobSummary := Ok tt;
     w_pullRequest := false;
     w_githubToken := false;
     w_createComment := Ok tt |}.

Definition by_name_inputs : ActionInputs :=
  {| projectId := ""; projectName := "Wiki"; testSuite := "all";
     inputs_browser := "chromium"; headless := true; timeoutMinutes := 30;
     failOnTestFailure := true; postPrCommentFlag := true; mode := "run" |}.

(** A report whose second suite is [null]: the parser throws there. *)
Definition broken_report : json :=
  report_json
    [suite_json "test-1.spec.js" [spec_json true "login"];
     JNull;
     suite_json "test-3.spec.js" [spec_json false "logout"]].

Definition broken_report_world : World :=
  world three_scripts 1 (Some (Some broken_report)).

(** The runner exits with 1 although every reported spec passed. *)
Definition passing_report_world : World :=
  with_playwrightTest (Ok 1) two_specs_world.

(** The runner cannot be started, no report is written and the sandbox
    cannot be removed. *)
Definition rough_world : World :=
  {| w_validateApiKey := Ok true;
     w_getProjects := Ok [];
     w_resolveProject := Ok (Some "42");
     w_seedTests := Throw ThrownOther;
     w_triggerTests := Ok two_scripts;
     w_reportResults := Ok tt;
     w_cancelExecution := Ok tt;
     w_waitForCompletion := Throw ThrownOther;
     w_mkdtempSync := Ok "/tmp/qamax-abc";
     w_mkdirSync := Ok tt;
     w_writeFileSync := fun _ => Ok tt;
     w_resultsFile := None;
     w_rmSync := Throw (ThrownError "EBUSY");
     w_npmInstall := Ok tt;
     w_playwrightInstall := Ok tt;
     w_playwrightTest := Throw (ThrownError "spawn npx ENOENT");
     w_repositoryTest := Ok 0;
     w_elapsedMs := 9000;
     w_repository := "octo/repo";
     w_writeJobSummary := Ok tt;
     w_pullRequest := false;
     w_githubToken := false;
     w_createComment := Ok tt |}.

(** The service runs the tests, the poll for their completion times out,
    and the cancel call fails too. *)
Definition poll_times_out_world : World :=
  {| w_validateApiKey := Ok true;
     w_getProjects := Ok [];
     w_resolveProject := Ok (Some "42");
     w_seedTests := Throw ThrownOther;
     w_triggerTests := Ok remote_response;
     w_reportResults := Ok tt;
     w_cancelExecution := Throw (ThrownError "Network Error");
     w_waitForCompletion :=
       Throw (ThrownError "Timeout waiting for completion");
     w_mkdtempSync := Ok "/tmp/qamax-abc";
     w_mkdirSync := Ok tt;
     w_writeFileSync := fun _ => Ok tt;
     w_resultsFile := None;
     w_rmSync := Ok tt;
     w_npmInstall := Ok tt;
     w_playwrightInstall := Ok tt;
     w_playwrightTest := Ok 0;
     w_repositoryTest := Ok 0;
     w_elapsedMs := 9000;
     w_repository := "octo/repo";
     w_writeJobSummary := Ok tt;
     w_pullRequest := false;
     w_githubToken := false;
     w_createComment := Ok tt |}.


Definition seed_inputs : ActionInputs :=
  {| projectId := "42"; projectName := ""; testSuite := "all";
     inputs_browser := "chromium"; headless := true; timeoutMinutes := 30;
     failOnTestFailure := true; postPrCommentFlag := true; mode := "seed" |}.

Definition lenient_inputs : ActionInputs :=
  {| projectId := "42"; projectName := ""; testSuite := "all";
     inputs_browser := "chromium"; headless := true; timeoutMinutes := 30;
     failOnTestFailure := false; postPrCommentFlag := true; mode := "run" |}.

End Observations.

(* ===================================================================== *)
(** ** The inputs of the action *)
(* ===================================================================== *)

(** [getInputs], lines 28-53. The built-ins it calls on strings are the
    ECMAScript ones, on UTF-16 code units. Numbers are kept as in
    [Js.jsnum]: [parseInt] answers [NaN] or an integer, which is the
    Number itself up to [2^53]. *)
Module Inputs.
Import Regex Js.

(** [String.prototype.trim]: the code units of WhiteSpace and
    LineTerminator are removed at both ends. *)
Fixpoint trimStart (s : text) : text :=
  match s with
  | c :: s' => if is_space c then trimStart s' else s
  | [] => []
  end.

Definition trimEnd (s : text) : text := rev (trimStart (rev s)).

Definition trim (s : text) : text := trimEnd (trimStart s).

(** [s.split(sep)] for a separator of one code unit; the answer is never
    the empty array. *)
Fixpoint split (sep : N) (s : text) : list text :=
  match s with
  | [] => [[]]
  | c :: s' =>
      if (c =? sep)%N then [] :: split sep s'
      else match split sep s' with
           | piece :: pieces => (c :: piece) :: pieces
           | [] => [[c]]
           end
  end.

Definition is_digit (c : N) : bool := ((48 <=? c) && (c <=? 57))%N.

(** The longest prefix of decimal digits. *)
Fixpoint digits (s : text) : text :=
  match s with
  | c :: s' => if is_digit c then c :: digits s' else []
  | [] => []
  end.

Definition mathInt (z : text) : Z :=
  fold_left (fun n c => 10 * n + (Z.of_N c - 48)) z 0.

(** [parseInt(s, 10)]: leading white space is skipped, one sign is read,
    then the longest run of digits; [NaN] when that run is empty. *)
Definition parseInt (s : text) : jsnum :=
  let str := trimStart s in
  let sign :=
    match str with
    | c :: _ => if (c =? 45)%N then -1 else 1
    | [] => 1
    end in
  let str :=
    match str with
    | c :: str' => if ((c =? 43) || (c =? 45))%N then str' else str
    | [] => str
    end in
  match digits str with
  | [] => NaN
  | ds => Fin (inject_Z (sign * mathInt ds))
  end.

(** [s || d] on strings *)
Definition or_default (s d : text) : text :=
  match s with
  | [] => d
  | _ => s
  end.

(** [s || undefined] *)
Definition or_undefined (s : text) : option text :=
  match s with
  | [] => None
  | _ => Some s
  end.

(** [s !== 'false'] *)
Definition not_false (s : text) : bool :=
  negb (bool_decide (s = codes "false")).

(** Lines 36-38:
    [input ? input.split(',').map((id) => parseInt(id.trim(), 10)) : undefined] *)
Definition testIds_of (input : text) : option (list jsnum) :=
  match input with
  | [] => None
  | _ => Some (map (fun id => parseInt (trim id)) (split 44 input))
  end.

(** Lines 49-51:
    [input ? input.split('\n').map((d) => d.trim()).filter((d) => d) : undefined] *)
Definition seedDescriptions_of (input : text) : option (list text) :=
  match input with
  | [] => None
  | _ =>
      Some (List.filter (fun d => match d with [] => false | _ => true end)
              (map trim (split 10 input)))
  end.

Record ActionInputs : Type := {
  apiKey : text;
  projectId : text;
  projectName : text;
  testSuite : text;
  testIds : option (list jsnum);
  baseUrl : option text;
  browser : text;
  headless : bool;
  timeoutMinutes : jsnum;
  failOnTestFailure : bool;
  postPrComment : bool;
  mode : text;
  autoDiscover : bool;
  maxSeedTests : jsnum;
  seedDescriptions : option (list text);
}.

(** [core.getInput(name, options)] of [@actions/core]. [env name] is the
    raw value of the input, the empty string when it is not set. The
    answer is the raw value trimmed. With [required: true] the call throws
    when the raw value is empty; the check is made before the trimming, so
    a blank value is answered as the empty string. *)
Definition getInput (env : string -> text) (name : string) : text :=
  trim (env name).

(** [None] stands for the exception
    [Input required and not supplied: <name>]. *)
Definition getInput_required (env : string -> text) (name : string)
  : option text :=
  match env name with
  | [] => None
  | _ => Some (trim (env name))
  end.

(** [getInputs]; [None] when reading the required [api-key] throws. *)
Definition getInputs (env : string -> text) : option ActionInputs :=
  let testIdsInput := getInput env "test-ids" in
  let seedDescInput := getInput env "seed-descriptions" in
  match getInput_required env "api-key" with
  | None => None
  | Some key =>
      Some
        {| apiKey := key;
           projectId := or_default (getInput env "project-id") [];
           projectName := or_default (getInput env "project-name") [];
           testSuite := or_default (getInput env "test-suite") (codes "all");
           testIds := testIds_of testIdsInput;
           baseUrl := or_undefined (getInput env "base-url");
           browser := or_default (getInput env "browser") (codes "chromium");
           headless := not_false (getInput env "headless");
           timeoutMinutes :=
             parseInt (or_default (getInput env "timeout-minutes")
                         (codes "30"));
           failOnTestFailure :=
             not_false (getInput env "fail-on-test-failure");
           postPrComment := not_false (getInput env "post-pr-comment");
           mode := or_default (getInput env "mode") (codes "run");
           autoDiscover := not_false (getInput env "auto-discover");
           maxSeedTests :=
             parseInt (or_default (getInput env "max-seed-tests")
                         (codes "3"));
           seedDescriptions := seedDescriptions_of seedDescInput |}
  end.

(** [pieces.join(sep)] for a separator of one code unit. *)
Fixpoint join (sep : N) (pieces : list text) : text :=
  match pieces with
  | [] => []
  | [piece] => piece
  | piece :: rest => piece ++ sep :: join sep rest
  end.

(** White space only; decimal digits only. *)
Definition spaces (s : text) : Prop := Forall (fun c => is_space c = true) s.

Definition all_digits (s : text) : Prop :=
  Forall (fun c => is_digit c = true) s.

(** No white space at either end. *)
Definition trimmed (s : text) : Prop :=
  trimStart s = s /\ trimStart (rev s) = rev s.

(** An id as a workflow author writes it: the decimal numeral, with white
    space around it. *)
Record written_id : Type := {
  before : text;
  value : Z;
  after : text;
}.

Definition render (it : written_id) : text :=
  before it ++ codes (pretty (value it)) ++ after it.

Definition well_written (it : written_id) : Prop :=
  spaces (before it) /\ spaces (after it)
  /\ Z.abs (value it) <= 2 ^ 53.

(** Example raw values of the inputs. *)
Definition example_input (name : string) : text :=
  if String.eqb name "api-key" then codes "qm_key"
  else if String.eqb name "test-ids" then codes " 12, 7 ,-3 "
  else if String.eqb name "seed-descriptions"
       then codes " login works " ++ [10%N; 32%N; 10%N] ++ codes "cart"
  else [].

Definition example_ids : list written_id :=
  [ {| before := [32%N]; value := 12; after := [] |};
    {| before := [32%N]; value := 7; after := [32%N] |};
    {| before := []; value := -3; after := [32%N] |} ].



End Inputs.

(* ===================================================================== *)
(** ** The entry point *)
(* ===================================================================== *)

(** [run], lines 373-596, from its first statement. The inputs are read
    inside the [try] block (line 379), so an exception of [getInputs] ends
    in the [catch] clause like any other; the variables [executionId] and
    [client] are still undefined then. After line 379 the function is
    [Action.run] on the inputs read.

    [Action] keeps the strings of the inputs as [string]s and the timeout
    as an integer. [as_inputs] gives the record that [getInputs] returned
    in that form; it has none when a string holds a code unit above 255 or
    when [timeout-minutes] did not parse to a number, and [run] has no
    model ([None]) for such inputs. *)
Module Entry.
Import Regex Js Action.

(** The inverse of [codes]. *)
Fixpoint as_string (s : text) : option string :=
  match s with
  | [] => Some EmptyString
  | c :: s' =>
      if (c <? 256)%N then
        match as_string s' with
        | Some r => Some (String (ascii_of_N c) r)
        | None => None
        end
      else None
  end.

Definition as_integer (n : jsnum) : option Z :=
  match n with
  | Fin q => if (Z.pos (Qden q) =? 1)%Z then Some (Qnum q) else None
  | _ => None
  end.

Definition as_inputs (i : Inputs.ActionInputs) : option ActionInputs :=
  match as_string (Inputs.projectId i), as_string (Inputs.projectName i),
        as_string (Inputs.testSuite i), as_string (Inputs.browser i),
        as_string (Inputs.mode i), as_integer (Inputs.timeoutMinutes i) with
  | Some id, Some name, Some suite, Some browser, Some mode, Some minutes =>
      Some {| projectId := id; projectName := name; testSuite := suite;
              inputs_browser := browser; headless := Inputs.headless i;
              timeoutMinutes := minutes;
              failOnTestFailure := Inputs.failOnTestFailure i;
              postPrCommentFlag := Inputs.postPrComment i; mode := mode |}
  | _, _, _, _, _, _ => None
  end.

(** The message of the exception of [core.getInput] for [api-key]. *)
Definition missing_key : Thrown :=
  ThrownError "Input required and not supplied: api-key".

Section Program.

Variable basename : string -> string.
Variable ToNumber : json -> jsnum.
Variable toLowerCase : string -> string.

Definition run (env : string -> text) (w : World) : option (M unit) :=
  match Inputs.getInputs env with
  | None => Some (try_catch (throw missing_key) (on_error w))
  | Some i =>
      match as_inputs i with
      | Some inputs => Some (Action.run basename ToNumber toLowerCase w inputs)
      | None => None
      end
  end.

End Program.

End Entry.

(* ===================================================================== *)
(** ** Lemmas *)
(* ===================================================================== *)

Section Lemmas.
Import Regex Js Action Trace Props.
Local Open Scope Z_scope.

Create HintDb emits discriminated.

Variable basename : string -> string.
Variable ToNumber : json -> jsnum.
Variable toLowerCase : string -> string.

(** *** The effect monad *)

Lemma emits_ret {A} P (a : A) : emits P (ret a).
Proof. intros st. exists []. simpl. rewrite app_nil_r. auto. Qed.

Lemma emits_throw {A} P e : emits P (@throw A e).
Proof. intros st. exists []. simpl. rewrite app_nil_r. auto. Qed.

Lemma emits_emit P ev : P ev = true -> emits P (emit ev).
Proof. intros H st. exists [ev]. simpl. rewrite H. auto. Qed.

Lemma emits_call {A} P ev (answer : Res A) :
  P ev = true -> emits P (call ev answer).
Proof. intros H st. exists [ev]. simpl. rewrite H. auto. Qed.

Lemma emits_set_sandbox P d : emits P (set_sandbox d).
Proof. intros st. exists []. simpl. rewrite app_nil_r. auto. Qed.

Lemma emits_bind {A B} P (m : M A) (k : A -> M B) :
  emits P m -> (forall a, emits P (k a)) -> emits P (bind m k).
Proof.
  intros Hm Hk st. unfold bind.
  destruct (Hm st) as (evs & Ht & Hp & Hid & Hcl).
  destruct (m st) as [[a|e] st1]; simpl in *.
  - destruct (Hk a st1) as (evs' & Ht' & Hp' & Hid' & Hcl').
    exists (evs ++ evs').
    rewrite Ht', Ht, <- app_assoc, forallb_app, Hp, Hp', Hid', Hcl'. auto.
  - exists evs. auto.
Qed.

Lemma emits_try_catch {A} P (m : M A) (h : Thrown -> M A) :
  emits P m -> (forall e, emits P (h e)) -> emits P (try_catch m h).
Proof.
  intros Hm Hh st. unfold try_catch.
  destruct (Hm st) as (evs & Ht & Hp & Hid & Hcl).
  destruct (m st) as [[a|e] st1]; simpl in *.
  - exists evs. auto.
  - destruct (Hh e st1) as (evs' & Ht' & Hp' & Hid' & Hcl').
    exists (evs ++ evs').
    rewrite Ht', Ht, <- app_assoc, forallb_app, Hp, Hp', Hid', Hcl'. auto.
Qed.

#[local] Hint Resolve emits_ret emits_throw emits_set_sandbox : emits.

(** One step of a syntax-directed proof of [emits]. *)
Ltac emits_step :=
  match goal with
  | |- emits _ (bind _ _) => apply emits_bind; [| intros ?]
  | |- emits _ (try_catch _ _) => apply emits_try_catch; [| intros ?]
  | |- emits _ (call _ _) => apply emits_call; reflexivity
  | |- emits _ (emit _) => apply emits_emit; reflexivity
  | |- emits _ (if ?b then _ else _) => destruct b
  | |- emits _ (match ?x with _ => _ end) => destruct x
  | |- emits _ _ => solve [auto with emits]
  end.

Lemma emits_write_scripts P w dir l m :
  (forall f c, P (EvWriteFile f c) = true) ->
  emits P (write_scripts w dir l m).
Proof.
  intros HP. revert m. induction l as [|sc l IH]; intros m; simpl.
  - apply emits_ret.
  - apply emits_bind; [apply emits_call, HP | intros _; apply IH].
Qed.

Lemma emits_runTestsLocally_silent w resp inputs :
  emits silent (runTestsLocally basename ToNumber w resp inputs).
Proof.
  unfold runTestsLocally.
  repeat (emits_step || (apply emits_write_scripts; reflexivity)).
Qed.

Lemma emits_run_repository_tests P w id files inputs :
  (forall c a, P (EvExec c a) = true) ->
  emits P (run_repository_tests w id files inputs).
Proof.
  intros HP. unfold run_repository_tests.
  apply emits_bind; [| intros ?; apply emits_ret].
  apply emits_try_catch; [apply emits_call, HP | intros ?; apply emits_ret].
Qed.

Lemma emits_execute_silent w resp inputs :
  emits silent (execute basename ToNumber w resp inputs).
Proof.
  unfold execute.
  repeat first
    [ apply emits_runTestsLocally_silent
    | apply emits_run_repository_tests; reflexivity
    | emits_step ].
Qed.

Lemma emits_resolve_project_silent w inputs :
  emits silent (resolve_project toLowerCase w inputs).
Proof. unfold resolve_project. repeat emits_step. Qed.

Lemma emits_setOutputs_silent r : emits silent (setOutputs r).
Proof. unfold setOutputs. repeat emits_step. Qed.

Lemma emits_postPrComment_silent w r : emits silent (postPrComment w r).
Proof. unfold postPrComment. repeat emits_step. Qed.

(** Events that are [silent] add neither cancel calls nor failure
    messages to a trace. *)
Lemma silent_filters evs :
  forallb silent evs = true ->
  List.filter is_cancel evs = [] /\ List.filter is_setFailed evs = [].
Proof.
  induction evs as [|ev evs IH]; simpl; [auto|].
  intros H. apply andb_true_iff in H as [Hev Hevs].
  destruct (IH Hevs) as [-> ->].
  unfold silent in Hev. apply andb_true_iff in Hev as [Hc Hf].
  apply negb_true_iff in Hc, Hf. rewrite Hc, Hf. auto.
Qed.

Lemma emits_silent_run {A} (m : M A) st res st' :
  emits silent m -> m st = (res, st') ->
  cancels (trace st') = cancels (trace st)
  /\ failures (trace st') = failures (trace st)
  /\ executionId st' = executionId st
  /\ client st' = client st.
Proof.
  intros Hm Hrun. destruct (Hm st) as (evs & Ht & Hs & Hid & Hcl).
  rewrite Hrun in Ht, Hid, Hcl. simpl in Ht, Hid, Hcl.
  destruct (silent_filters _ Hs) as [Hc Hf].
  unfold cancels, failures. rewrite Ht, !List.filter_app, Hc, Hf, !app_nil_r.
  auto.
Qed.

Lemma bind_inv {A B} (m : M A) (k : A -> M B) st res st' :
  bind m k st = (res, st') ->
  (exists a st1, m st = (Ok a, st1) /\ k a st1 = (res, st'))
  \/ (exists e, m st = (Throw e, st') /\ res = Throw e).
Proof.
  unfold bind. destruct (m st) as [[a|e] st1]; intros H.
  - left. eauto.
  - right. inversion H; subst. eauto.
Qed.

Lemma no_cancel_filter evs :
  forallb no_cancel evs = true -> List.filter is_cancel evs = [].
Proof.
  induction evs as [|ev evs IH]; simpl; [auto|].
  intros H. apply andb_true_iff in H as [Hev Hevs].
  unfold no_cancel in Hev. apply negb_true_iff in Hev.
  rewrite Hev. auto.
Qed.

Lemma emits_no_cancel_run {A} (m : M A) st res st' :
  emits no_cancel m -> m st = (res, st') ->
  cancels (trace st') = cancels (trace st)
  /\ executionId st' = executionId st
  /\ client st' = client st.
Proof.
  intros Hm Hrun. destruct (Hm st) as (evs & Ht & Hs & Hid & Hcl).
  rewrite Hrun in Ht, Hid, Hcl. simpl in Ht, Hid, Hcl.
  unfold cancels.
  rewrite Ht, List.filter_app, (no_cancel_filter _ Hs), app_nil_r. auto.
Qed.

(** *** The orchestration *)

(** Proves [emits P m] for the blocks of [run]. *)
Ltac emits_blocks :=
  repeat first
    [ apply emits_execute_silent
    | apply emits_resolve_project_silent
    | apply emits_setOutputs_silent
    | apply emits_postPrComment_silent
    | emits_step ].

(** Splits a run [bind m k st = (res, st')] recorded in [H] into the run
    of [m], of which it keeps what [emits silent m] says, and the run of
    the continuation, which stays in [H]. *)
Ltac walk H :=
  let F := fresh "F" in
  let H1 := fresh "H1" in
  apply bind_inv in H as [(? & ? & H1 & H)|(? & H1 & ?)];
  match type of H1 with
  | ?m _ = _ =>
      assert (F : emits silent m) by emits_blocks;
      apply (emits_silent_run _ _ _ _ F) in H1 as (? & ? & ? & ?);
      clear F
  end.

Lemma on_error_run w e st :
  on_error w e st
  = (Ok tt,
     {| trace := trace st
                 ++ match known_execution st with
                    | Some id => [EvCancelExecution id]
                    | None => []
                    end
                 ++ [EvSetFailed (failure_message e)];
        executionId := executionId st;
        client := client st;
        sandbox := sandbox st |}).
Proof.
  unfold on_error, known_execution, bind, get_state, try_catch, call, emit,
    ret.
  destruct st as [t [id|] cl sb]; simpl.
  - destruct (negb (id =? "")%string && cl); simpl;
      [destruct (w_cancelExecution w) as [[]|]; simpl|];
      destruct e; simpl; rewrite <- ?app_assoc; reflexivity.
  - destruct e; simpl; reflexivity.
Qed.

Lemma seed_run w id st res st' :
  seed w id st = (res, st') ->
  cancels (trace st') = cancels (trace st)
  /\ client st' = client st
  /\ (forall e, res = Throw e -> failures (trace st') = failures (trace st)).
Proof.
  intros H.
  assert (F : emits no_cancel (seed w id)) by (unfold seed; emits_blocks).
  destruct (emits_no_cancel_run _ _ _ _ F H) as (Hc & _ & Hcl).
  repeat split; auto. intros e ->.
  unfold seed in H. walk H; [|congruence].
  exfalso. unfold bind, emit, ret in H. simpl in H.
  destruct ((tests_created _ =? 0) && (seed_skipped _ =? 0));
    simpl in H; discriminate.
Qed.

Lemma obtain_results_run w inputs st0 res st1 :
  obtain_results basename ToNumber toLowerCase w inputs st0 = (res, st1) ->
  client st1 = true
  /\ cancels (trace st1) = cancels (trace st0)
  /\ (res <> Ok None -> failures (trace st1) = failures (trace st0))
  /\ (executionId st1 = executionId st0
      \/ exists resp, w_triggerTests w = Ok resp
                      /\ executionId st1 = Some (tr_execution_id resp)).
Proof.
  unfold obtain_results. intros H.
  unfold bind at 1, set_client in H. simpl in H.
  walk H; [|simpl in *; repeat split; try left; congruence].
  walk H; [|simpl in *; repeat split; try left; congruence].
  walk H; [|simpl in *; repeat split; try left; congruence].
  destruct (mode inputs =? "seed")%string.
  - apply bind_inv in H as [(u & s & Hseed & H)|(e & Hseed & ->)];
      pose proof (emits_no_cancel_run (seed w _) _ _ _
                    ltac:(unfold seed; emits_blocks) Hseed) as (_ & Hid & _);
      apply seed_run in Hseed as (Hc & Hcl & Hf); simpl in *.
    + unfold ret in H. inversion H; subst.
      repeat split; try left; congruence.
    + repeat split; try (left; congruence); try congruence. intros _.
      rewrite (Hf e eq_refl). congruence.
  - unfold bind at 1, call, emit in H. simpl in H.
    destruct (w_triggerTests w) as [resp|e] eqn:Htrigger.
    + unfold bind at 1, set_executionId in H. simpl in H.
      walk H; simpl in *.
      * unfold ret in H. inversion H; subst.
        unfold cancels, failures in *.
        rewrite List.filter_app in *. simpl in *. rewrite app_nil_r in *.
        repeat split; try congruence. right. exists resp. split; congruence.
      * subst. unfold cancels, failures in *.
        rewrite List.filter_app in *. simpl in *. rewrite app_nil_r in *.
        repeat split; try congruence. right. exists resp. split; congruence.
    + inversion H; subst. simpl in *.
      unfold cancels, failures in *. rewrite !List.filter_app. simpl.
      rewrite !app_nil_r.
      repeat split; try left; congruence.
Qed.

Lemma conclude_run w inputs r st res st' :
  conclude w inputs r st = (res, st') ->
  cancels (trace st') = cancels (trace st)
  /\ executionId st' = executionId st
  /\ client st' = client st
  /\ match res with
     | Throw _ => failures (trace st') = failures (trace st)
     | Ok _ =>
         executionFailed r && failOnTestFailure inputs = true ->
         exists msg,
           failures (trace st') = failures (trace st) ++ [EvSetFailed msg]
     end.
Proof.
  unfold conclude, writeJobSummary. intros H.
  walk H; [|subst; repeat split; congruence].
  walk H; [|subst; repeat split; congruence].
  walk H; [|subst; repeat split; congruence].
  destruct (executionFailed r && failOnTestFailure inputs);
    unfold emit, ret in H; inversion H; subst; simpl.
  - unfold cancels, failures. rewrite !List.filter_app. simpl.
    rewrite !app_nil_r.
    unfold cancels, failures in *.
    split; [congruence|]. split; [congruence|]. split; [congruence|].
    intros _. eexists. f_equal. congruence.
  - repeat split; congruence.
Qed.

Lemma try_block_throw w inputs st0 e st :
  try_block basename ToNumber toLowerCase w inputs st0 = (Throw e, st) ->
  client st = true
  /\ cancels (trace st) = cancels (trace st0)
  /\ failures (trace st) = failures (trace st0)
  /\ (executionId st = executionId st0
      \/ exists resp, w_triggerTests w = Ok resp
                      /\ executionId st = Some (tr_execution_id resp)).
Proof.
  unfold try_block. intros H.
  apply bind_inv in H as [(res & s & Ho & H)|(e' & Ho & He)];
    apply obtain_results_run in Ho as (Hcl & Hc & Hf & Hid).
  - destruct res as [r|]; [|discriminate].
    apply conclude_run in H as (Hc' & Hid' & Hcl' & Hf').
    specialize (Hf ltac:(discriminate)).
    rewrite Hid'. repeat split; congruence.
  - specialize (Hf ltac:(discriminate)). auto.
Qed.

(** *** The local run *)

Lemma write_scripts_map w dir l m st m' st' :
  write_scripts w dir l m st = (Ok m', st') -> m' = script_map_from m l.
Proof.
  revert m st. induction l as [|sc l IH]; intros m st; simpl.
  - unfold ret. intros H. inversion H. reflexivity.
  - intros H. apply bind_inv in H as [(a & st1 & _ & H)|(e & _ & H)].
    + apply IH in H. exact H.
    + discriminate.
Qed.

(** Case analysis on the answers of the world, one call at a time. *)
Ltac world_cases :=
  repeat match goal with
  | |- context [match ?x with Ok _ => _ | Throw _ => _ end] =>
      destruct x eqn:?; simpl
  | |- (Throw _, _) = (Ok _, _) -> _ => discriminate
  end.

(** A local run that returns, returns [local_result]. *)
Lemma runTestsLocally_result w resp inputs st st' r :
  runTestsLocally basename ToNumber w resp inputs st = (Ok r, st') ->
  r = local_result basename ToNumber w resp inputs.
Proof.
  unfold runTestsLocally, local_result, derived, exitCode, durationSeconds,
    embedded, script_map.
  unfold bind at 1. unfold call at 1. simpl.
  destruct (w_mkdtempSync w) as [tmpDir|]; [|discriminate]. simpl.
  unfold bind at 1. simpl. unfold bind at 1. unfold call at 1. simpl.
  destruct (w_mkdirSync w); [|discriminate]. simpl.
  unfold bind at 1. unfold call at 1. simpl.
  destruct (w_writeFileSync w _); [|discriminate]. simpl.
  unfold bind at 1.
  destruct (write_scripts _ _ _ _ _) as [[m|] st1] eqn:Hw; [|discriminate].
  apply write_scripts_map in Hw. subst m.
  unfold bind, call, try_catch, emit, set_sandbox, ret. simpl.
  world_cases; intros H; inversion H; reflexivity.
Qed.

Lemma write_scripts_state w dir l m st res st' :
  write_scripts w dir l m st = (res, st') ->
  exists evs,
    trace st' = trace st ++ evs /\ forallb is_write evs = true
    /\ executionId st' = executionId st /\ client st' = client st
    /\ sandbox st' = sandbox st.
Proof.
  revert m st. induction l as [|sc l IH]; intros m st; simpl.
  - unfold ret. intros H. inversion H; subst. exists [].
    rewrite app_nil_r. auto.
  - unfold bind at 1, call, emit. simpl.
    destruct (w_writeFileSync w _); simpl.
    + intros H. apply IH in H as (evs & Ht & Hw & Hid & Hcl & Hsb).
      simpl in *. eexists (_ :: evs).
      rewrite Ht, <- app_assoc. simpl. auto.
    + intros H. inversion H; subst. simpl. eexists [_]. auto.
Qed.

Lemma is_write_filters evs :
  forallb is_write evs = true ->
  List.filter is_report evs = [] /\ List.filter is_rmSync evs = [].
Proof.
  induction evs as [|ev evs IH]; simpl; [auto|].
  intros H. apply andb_true_iff in H as [Hev Hevs].
  destruct (IH Hevs) as [-> ->]. destruct ev; try discriminate. auto.
Qed.

(** The effects of a local run that returns, in order. *)
Lemma runTestsLocally_trace w resp inputs st st' r :
  runTestsLocally basename ToNumber w resp inputs st = (Ok r, st') ->
  exists dir writes,
    w_mkdtempSync w = Ok dir
    /\ forallb is_write writes = true
    /\ trace st'
       = trace st
         ++ [EvMkdtemp; EvMkdir (dir +:+ "/tests");
             EvWriteFile (dir +:+ "/playwright.config.js")
               (codes (configContent inputs))]
         ++ writes
         ++ [EvWriteFile (dir +:+ "/package.json") (codes packageJson);
             EvExec "npm" ["install"; "--no-audit"; "--no-fund"];
             EvExec "npx" ["playwright"; "install"; "--with-deps";
                           inputs_browser inputs];
             EvExec "npx" ["playwright"; "test";
                           "--config=playwright.config.js"];
             EvRmSync dir;
             EvReportResults (tr_execution_id resp) (result r)
               (passed_tests r) (failed_tests r) (total_tests r)]
    /\ sandbox st' = match w_rmSync w with
                     | Ok _ => None
                     | Throw _ => Some dir
                     end.
Proof.
  intros Hrun. pose proof (runTestsLocally_result _ _ _ _ _ _ Hrun) as Hr.
  revert Hrun. unfold runTestsLocally.
  unfold bind at 1. unfold call at 1. simpl.
  destruct (w_mkdtempSync w) as [dir|]; [|discriminate]. simpl.
  unfold bind at 1. simpl. unfold bind at 1. unfold call at 1. simpl.
  destruct (w_mkdirSync w); [|discriminate]. simpl.
  unfold bind at 1. unfold call at 1. simpl.
  destruct (w_writeFileSync w _); [|discriminate]. simpl.
  unfold bind at 1.
  destruct (write_scripts _ _ _ _ _) as [[m|] st1] eqn:Hw; [|discriminate].
  pose proof (write_scripts_map _ _ _ _ _ _ _ Hw) as Hm.
  apply write_scripts_state in Hw as (writes & Ht & Hwr & _ & _ & Hsb).
  simpl in Ht, Hsb.
  unfold bind, call, try_catch, emit, set_sandbox, ret. simpl.
  exists dir, writes. split; [reflexivity|]. split; [exact Hwr|].
  revert Hrun. world_cases; intros H; inversion H; subst; simpl;
    rewrite Ht, <- ?app_assoc; simpl; auto.
Qed.

(** A local run that returns has called [reportResults] exactly once and
    has tried to remove the sandbox exactly once. *)
Lemma runTestsLocally_once w resp inputs st st' r :
  runTestsLocally basename ToNumber w resp inputs st = (Ok r, st') ->
  reports (trace st')
  = reports (trace st)
    ++ [EvReportResults (tr_execution_id resp) (result r) (passed_tests r)
          (failed_tests r) (total_tests r)]
  /\ exists dir, removals (trace st') = removals (trace st) ++ [EvRmSync dir].
Proof.
  intros H.
  apply runTestsLocally_trace in H as (dir & writes & _ & Hw & -> & _).
  destruct (is_write_filters _ Hw) as [Hrep Hrm].
  unfold reports, removals. rewrite !List.filter_app, Hrep, Hrm. simpl.
  split; [reflexivity | exists dir; reflexivity].
Qed.

Lemma write_scripts_ok w dir l m st :
  (forall f, w_writeFileSync w f = Ok tt) ->
  exists st', write_scripts w dir l m st = (Ok (script_map_from m l), st').
Proof.
  intros Hw. revert m st. induction l as [|sc l IH]; intros m st; simpl.
  - eexists. reflexivity.
  - unfold bind at 1, call, emit. simpl. rewrite Hw. apply IH.
Qed.

(** When the toolchain installation fails, the local run throws at once:
    no removal of the sandbox is attempted and the directory stays. *)
Lemma install_failure_leaves_sandbox w resp inputs st dir e :
  w_mkdtempSync w = Ok dir ->
  w_mkdirSync w = Ok tt ->
  (forall f, w_writeFileSync w f = Ok tt) ->
  w_npmInstall w = Throw e ->
  exists st',
    runTestsLocally basename ToNumber w resp inputs st = (Throw e, st')
    /\ removals (trace st') = removals (trace st)
    /\ reports (trace st') = reports (trace st)
    /\ sandbox st' = Some dir.
Proof.
  intros Hdir Hmk Hwr Hnpm. unfold runTestsLocally.
  unfold bind at 1. unfold call at 1. rewrite Hdir. simpl.
  unfold bind at 1. simpl. unfold bind at 1. unfold call at 1.
  rewrite Hmk. simpl.
  unfold bind at 1. unfold call at 1. rewrite Hwr. simpl.
  unfold bind at 1.
  match goal with
  | |- context [write_scripts ?w ?d ?l ?m ?s] =>
      destruct (write_scripts_ok w d l m s Hwr) as (st1 & Hrun);
      rewrite Hrun;
      apply write_scripts_state in Hrun as (writes & Ht & Hw & _ & _ & Hsb)
  end.
  simpl in Ht, Hsb.
  unfold bind, call, emit. simpl. rewrite Hwr, Hnpm. simpl.
  eexists. split; [reflexivity|]. simpl.
  destruct (is_write_filters _ Hw) as [Hrep Hrm].
  unfold removals, reports.
  rewrite Ht, !List.filter_app, Hrep, Hrm. simpl. rewrite !app_nil_r.
  auto.
Qed.

(** When the sandbox can be set up, the toolchain installs and the report
    call succeeds, the local run returns, whatever the runner, the report
    file and the removal of the sandbox do. *)
Lemma runTestsLocally_returns w resp inputs st dir :
  w_mkdtempSync w = Ok dir ->
  w_mkdirSync w = Ok tt ->
  (forall f, w_writeFileSync w f = Ok tt) ->
  w_npmInstall w = Ok tt ->
  w_playwrightInstall w = Ok tt ->
  w_reportResults w = Ok tt ->
  exists st',
    runTestsLocally basename ToNumber w resp inputs st
    = (Ok (local_result basename ToNumber w resp inputs), st').
Proof.
  intros Hdir Hmk Hwr Hnpm Hpw Hrep. unfold runTestsLocally.
  unfold bind at 1. unfold call at 1. rewrite Hdir. simpl.
  unfold bind at 1. simpl. unfold bind at 1. unfold call at 1.
  rewrite Hmk. simpl.
  unfold bind at 1. unfold call at 1. rewrite Hwr. simpl.
  unfold bind at 1.
  match goal with
  | |- context [write_scripts ?w ?d ?l ?m ?s] =>
      destruct (write_scripts_ok w d l m s Hwr) as (st1 & Hrun);
      rewrite Hrun
  end.
  unfold bind, call, try_catch, emit, set_sandbox, ret. simpl.
  rewrite Hwr, Hnpm, Hpw, Hrep. simpl.
  unfold local_result, derived, exitCode, durationSeconds, embedded,
    script_map.
  destruct (w_playwrightTest w); destruct (w_rmSync w); simpl;
    eexists; reflexivity.
Qed.

(** *** The parser *)

Lemma balanced_no_results : balanced no_results.
Proof. unfold balanced; simpl. lia. Qed.

Lemma parse_spec_balanced m suite spec acc acc' :
  parse_spec basename ToNumber m suite spec acc = Some acc' ->
  balanced acc -> balanced acc'.
Proof.
  unfold parse_spec, balanced.
  destruct (get "file" (Some suite)) as [file|]; [|discriminate].
  destruct (if truthy file then file else Some (JStr "")) as [[| | |path| |]|];
    try discriminate.
  destruct (get "ok" (Some spec)) as [ok|]; [|discriminate].
  intros H (Hsum & Hp & Hf). inversion H; subst; clear H.
  destruct (truthy ok); simpl; rewrite length_app; simpl; lia.
Qed.

Lemma parse_specs_balanced m suite specs acc :
  balanced acc ->
  balanced (fst (parse_specs basename ToNumber m suite specs acc)).
Proof.
  revert acc. induction specs as [|spec specs IH]; intros acc Hacc; simpl.
  - exact Hacc.
  - destruct (parse_spec _ _ _ _ _ _) as [acc'|] eqn:E; simpl.
    + apply IH. eapply parse_spec_balanced; eauto.
    + exact Hacc.
Qed.

Lemma parse_suite_balanced m suite acc :
  balanced acc -> balanced (fst (parse_suite basename ToNumber m suite acc)).
Proof.
  intros Hacc. unfold parse_suite.
  destruct (get "specs" (Some suite)) as [specs|]; [|exact Hacc].
  destruct (iterate (or_empty specs)); [|exact Hacc].
  apply parse_specs_balanced, Hacc.
Qed.

Lemma parse_suites_balanced m suites acc :
  balanced acc ->
  balanced (fst (parse_suites basename ToNumber m suites acc)).
Proof.
  revert acc. induction suites as [|suite suites IH]; intros acc Hacc; simpl.
  - exact Hacc.
  - pose proof (parse_suite_balanced m suite acc Hacc) as H.
    destruct (parse_suite _ _ _ _ _) as [acc' [|]]; simpl in *.
    + apply IH, H.
    + exact H.
Qed.

Lemma parse_results_balanced m file :
  balanced (parse_results basename ToNumber m file).
Proof.
  unfold parse_results.
  destruct file as [[raw|]|]; try apply balanced_no_results.
  destruct (get "suites" (Some raw)) as [suites|];
    try apply balanced_no_results.
  destruct (iterate (or_empty suites)); try apply balanced_no_results.
  apply parse_suites_balanced, balanced_no_results.
Qed.

(** With no parsed result both counters are still zero. *)
Lemma balanced_empty acc :
  balanced acc -> testResults acc = [] ->
  passedTests acc = 0 /\ failedTests acc = 0.
Proof. unfold balanced. intros (Hsum & Hp & Hf) E. rewrite E in Hsum. simpl in Hsum. lia. Qed.

(** *** The normaliser *)

Lemma normalize_skipped id inputs total d acc :
  let r := normalize id inputs total d acc in
  0 <= skipped_tests r
  /\ passed_tests r + failed_tests r + skipped_tests r
     = Z.max (total_tests r) (passed_tests r + failed_tests r).
Proof.
  simpl. destruct (Z.ltb_spec (total - passedTests acc - failedTests acc) 0); lia.
Qed.

Lemma normalize_verdict id inputs total d acc :
  let r := normalize id inputs total d acc in
  (result r = passed <-> 0 < passed_tests r /\ failed_tests r = 0)
  /\ (run_status r = completed /\ result r = passed
      \/ run_status r = status_failed /\ result r = failed).
Proof.
  simpl.
  destruct (Z.ltb_spec 0 (passedTests acc)); destruct (Z.eqb_spec (failedTests acc) 0);
    simpl; (split; [split; [intros; try discriminate; lia | intros; try reflexivity; lia] | auto]).
Qed.

Lemma infer_from_exit_code_fallback l e d total acc :
  balanced acc -> testResults acc = [] ->
  infer_from_exit_code l e d total acc
  = {| passedTests := if e =? 0 then total else 0;
       failedTests := if e =? 0 then 0 else total;
       testResults :=
         map (fallback_entry (if e =? 0 then passed else failed)
                (div_length d (length l))
                (if negb (e =? 0) then Some (JStr "Test execution failed")
                 else None)) l |}.
Proof.
  intros Hb He. destruct (balanced_empty acc Hb He) as [Hp Hf].
  unfold infer_from_exit_code. rewrite He, Hp, Hf. simpl. reflexivity.
Qed.

Lemma absent_report_no_results m file :
  file = None \/ file = Some None ->
  testResults (parse_results basename ToNumber m file) = [].
Proof. intros [->| ->]; reflexivity. Qed.

Lemma local_result_fallback w resp inputs :
  testResults (derived basename ToNumber w resp) = [] ->
  let r := local_result basename ToNumber w resp inputs in
  let n := Z.of_nat (length (embedded resp)) in
  total_tests r = n
  /\ passed_tests r = (if exitCode w =? 0 then n else 0)
  /\ failed_tests r = (if exitCode w =? 0 then 0 else n)
  /\ duration_seconds r = durationSeconds w
  /\ tests r
     = map (fallback_entry (if exitCode w =? 0 then passed else failed)
              (div_length (durationSeconds w) (length (embedded resp)))
              (if negb (exitCode w =? 0)
               then Some (JStr "Test execution failed") else None))
         (embedded resp).
Proof.
  intros He. unfold local_result.
  rewrite infer_from_exit_code_fallback;
    [| apply parse_results_balanced | exact He].
  simpl. auto.
Qed.

(** *** Reports of the expected shape *)

Lemma list_ascii_app a b :
  list_ascii_of_string (a +:+ b)
  = list_ascii_of_string a ++ list_ascii_of_string b.
Proof. induction a as [|c a IH]; simpl; [reflexivity | now rewrite IH]. Qed.

Lemma string_app_inv_tail a b t : a +:+ t = b +:+ t -> a = b.
Proof.
  intros H. apply (f_equal list_ascii_of_string) in H.
  rewrite !list_ascii_app in H. apply app_inv_tail in H.
  apply (f_equal string_of_list_ascii) in H.
  now rewrite !string_of_list_ascii_of_string in H.
Qed.

Lemma safeFileName_inj a b :
  safeFileName a = safeFileName b -> script_id a = script_id b.
Proof.
  unfold safeFileName. intros H.
  apply (String.app_inj "test-") in H.
  apply string_app_inv_tail in H.
  apply (inj pretty) in H. exact H.
Qed.

(** The map built from the scripts sends the generated file name of each
    script back to a script with the same id, the originating one when
    ids are unique. *)
Lemma script_map_from_lookup l m s :
  In s l \/ (exists s', m !! safeFileName s = Some s'
                        /\ script_id s' = script_id s) ->
  exists s', script_map_from m l !! safeFileName s = Some s'
             /\ script_id s' = script_id s.
Proof.
  revert m. induction l as [|a l IH]; intros m H; simpl.
  - destruct H as [[]|H]. exact H.
  - apply IH. destruct H as [[->|H]|(s' & Hs' & Hid)].
    + right. exists s. rewrite lookup_insert_eq. auto.
    + left. exact H.
    + right. destruct (decide (safeFileName a = safeFileName s)) as [E|E].
      * exists a. rewrite E, lookup_insert_eq.
        split; [reflexivity | apply safeFileName_inj, E].
      * exists s'. rewrite lookup_insert_ne by exact E. auto.
Qed.

Lemma script_map_lookup l s :
  In s l ->
  exists s', script_map l !! safeFileName s = Some s'
             /\ script_id s' = script_id s.
Proof. intros H. apply script_map_from_lookup. left. exact H. Qed.

Lemma id_of_script_map l s :
  In s l -> id_of (script_map l !! safeFileName s) = script_id s.
Proof.
  intros H. destruct (script_map_lookup l s H) as (s' & -> & Hid).
  simpl. destruct (Z.eqb_spec (script_id s') 0); congruence.
Qed.

Lemma parse_spec_object m fields file sf acc :
  obj_get "file" fields = Some (JStr file) ->
  exists t,
    parse_spec basename ToNumber m (JObj fields) (JObj sf) acc
    = Some {| passedTests :=
                passedTests acc + (if spec_ok (JObj sf) then 1 else 0);
              failedTests :=
                failedTests acc + (if spec_ok (JObj sf) then 0 else 1);
              testResults := testResults acc ++ [t] |}
    /\ classifies basename m (file, JObj sf) t.
Proof.
  intros Hfile. unfold parse_spec, classifies, spec_ok, get_opt. simpl.
  rewrite Hfile.
  simpl. destruct (String.eqb file "") eqn:E; simpl;
    [apply String.eqb_eq in E; subst file|];
  destruct (truthy (obj_get "ok" sf)); simpl;
    eexists; (split; [rewrite ?Z.add_0_r; reflexivity | simpl; auto]).
Qed.

Lemma parse_specs_objects m fields file specs acc :
  obj_get "file" fields = Some (JStr file) ->
  forallb is_object specs = true ->
  let l := map (fun spec => (file, spec)) specs in
  exists ts,
    parse_specs basename ToNumber m (JObj fields) specs acc
    = ({| passedTests := passedTests acc + count_ok l;
          failedTests := failedTests acc + count_not_ok l;
          testResults := testResults acc ++ ts |}, true)
    /\ Forall2 (classifies basename m) l ts.
Proof.
  intros Hfile. revert acc.
  induction specs as [|spec specs IH]; intros acc Hobj; simpl in *.
  - exists []. unfold count_ok, count_not_ok. simpl.
    rewrite !Z.add_0_r, app_nil_r. destruct acc; auto.
  - apply andb_true_iff in Hobj as [Hspec Hobj].
    destruct spec as [| | | | |sf]; try discriminate.
    destruct (parse_spec_object m fields file sf acc Hfile) as (t & -> & Ht).
    destruct (IH {| passedTests :=
                      passedTests acc + (if spec_ok (JObj sf) then 1 else 0);
                    failedTests :=
                      failedTests acc + (if spec_ok (JObj sf) then 0 else 1);
                    testResults := testResults acc ++ [t] |} Hobj)
      as (ts & -> & Hts).
    exists (t :: ts). split; [| constructor; assumption].
    simpl. unfold count_ok, count_not_ok. simpl.
    destruct (spec_ok (JObj sf)); simpl; rewrite <- app_assoc; simpl;
      f_equal; f_equal; lia.
Qed.

Lemma count_ok_app a b : count_ok (a ++ b) = count_ok a + count_ok b.
Proof. unfold count_ok. rewrite List.filter_app, length_app. lia. Qed.

Lemma count_not_ok_app a b :
  count_not_ok (a ++ b) = count_not_ok a + count_not_ok b.
Proof. unfold count_not_ok. rewrite List.filter_app, length_app. lia. Qed.

Lemma count_ok_total l : count_ok l + count_not_ok l = Z.of_nat (length l).
Proof.
  unfold count_ok, count_not_ok.
  induction l as [|fs l IH]; simpl; [reflexivity|].
  destruct (spec_ok (snd fs)); simpl; lia.
Qed.

Lemma parse_suite_shaped m suite l acc :
  suite_specs suite = Some l ->
  exists ts,
    parse_suite basename ToNumber m suite acc
    = ({| passedTests := passedTests acc + count_ok l;
          failedTests := failedTests acc + count_not_ok l;
          testResults := testResults acc ++ ts |}, true)
    /\ Forall2 (classifies basename m) l ts.
Proof.
  unfold suite_specs, parse_suite.
  destruct suite as [| | | | |fields]; try discriminate.
  destruct (obj_get "file" fields) as [[| | |file| |]|] eqn:Hfile;
    try discriminate.
  simpl. destruct (obj_get "specs" fields) as [[| | | |specs|]|];
    try discriminate.
  destruct (forallb is_object specs) eqn:Hobj; [|discriminate].
  intros H. inversion H; subst l. simpl.
  apply parse_specs_objects; assumption.
Qed.

Lemma parse_suites_shaped m suites : forall l acc,
  suites_specs suites = Some l ->
  exists ts,
    parse_suites basename ToNumber m suites acc
    = ({| passedTests := passedTests acc + count_ok l;
          failedTests := failedTests acc + count_not_ok l;
          testResults := testResults acc ++ ts |}, true)
    /\ Forall2 (classifies basename m) l ts.
Proof.
  induction suites as [|suite suites IH]; intros l acc; simpl.
  - intros H. inversion H; subst l. exists [].
    unfold count_ok, count_not_ok. simpl.
    rewrite !Z.add_0_r, app_nil_r. destruct acc; auto.
  - destruct (suite_specs suite) as [a|] eqn:Ha; [|discriminate].
    destruct (suites_specs suites) as [b|] eqn:Hb; [|discriminate].
    intros H. inversion H; subst l.
    destruct (parse_suite_shaped m suite a acc Ha) as (ts1 & -> & H1).
    destruct (IH b {| passedTests := passedTests acc + count_ok a;
                      failedTests := failedTests acc + count_not_ok a;
                      testResults := testResults acc ++ ts1 |} eq_refl)
      as (ts2 & -> & H2).
    exists (ts1 ++ ts2). split; [| apply Forall2_app; assumption].
    simpl. rewrite count_ok_app, count_not_ok_app, <- app_assoc.
    f_equal; f_equal; lia.
Qed.

Lemma parse_results_shaped m raw l :
  report_specs raw = Some l ->
  exists ts,
    parse_results basename ToNumber m (Some (Some raw))
    = {| passedTests := count_ok l; failedTests := count_not_ok l;
         testResults := ts |}
    /\ Forall2 (classifies basename m) l ts.
Proof.
  unfold report_specs, parse_results.
  destruct raw as [| | | | |fields]; try discriminate. simpl.
  destruct (obj_get "suites" fields) as [[| | | |suites|]|];
    try discriminate.
  intros H. simpl.
  destruct (parse_suites_shaped m suites l no_results H) as (ts & -> & Hts).
  exists ts. simpl. auto.
Qed.

Lemma classifies_reported_as l fs t :
  classifies basename (script_map l) fs t -> reported_as basename l fs t.
Proof.
  intros [Hs Hid]. split; [exact Hs|].
  intros s Hin Hname. rewrite Hid, Hname. apply id_of_script_map, Hin.
Qed.

(** *** The regular-expression matcher *)

Lemma replace_from_no_match r repl prev s :
  no_match_from r prev s = true -> replace_from r repl 0 prev s = s.
Proof.
  revert prev. induction s as [|c s IH]; intros prev; simpl.
  - destruct (match_at r prev []); [discriminate | reflexivity].
  - destruct (match_at r prev (c :: s)); [discriminate |].
    intros H. f_equal. apply IH, H.
Qed.

Lemma replace_all_no_match r repl s :
  no_match r s = true -> replace_all r repl s = s.
Proof. apply replace_from_no_match. Qed.


Lemma rmatch_reached r : forall st k res,
  rmatch r st k = Some res ->
  exists st', k st' = Some res /\ reached r st st'.
Proof.
  unfold reached, after.
  induction r as [|P|r1 IH1 r2 IH2|r1 IH1 r2 IH2|r1 IH1|r1 IH1|];
    intros st k res H; simpl in H.
  - exists st. repeat split; auto; discriminate.
  - destruct (m_rest st) as [|c t] eqn:Hrest; [discriminate|].
    destruct (P c); [|discriminate].
    eexists. split; [exact H|]. simpl.
    repeat split; auto; lia.
  - apply IH1 in H as (st1 & H & [Hle1 Hsum1] & Hcap1 & Hcon1).
    apply IH2 in H as (st2 & H & [Hle2 Hsum2] & Hcap2 & Hcon2).
    exists st2. split; [exact H|]. simpl.
    split; [split; lia|]. split.
    + intros Hg. apply andb_true_iff in Hg as [Hg1 Hg2].
      rewrite Hcap2, Hcap1; auto.
    + intros Hc. apply orb_true_iff in Hc as [Hc|Hc];
        [specialize (Hcon1 Hc) | specialize (Hcon2 Hc)]; lia.
  - destruct (rmatch r1 st k) as [res1|] eqn:E.
    + inversion H; subst res1.
      apply IH1 in E as (st1 & E & Haft1 & Hcap1 & Hcon1).
      exists st1. split; [exact E|]. simpl.
      repeat split; try apply Haft1.
      * intros Hg. apply andb_true_iff in Hg as [Hg1 Hg2]. auto.
      * intros Hc. apply andb_true_iff in Hc as [Hc1 Hc2]. auto.
    + apply IH2 in H as (st2 & H & Haft2 & Hcap2 & Hcon2).
      exists st2. split; [exact H|]. simpl.
      repeat split; try apply Haft2.
      * intros Hg. apply andb_true_iff in Hg as [Hg1 Hg2]. auto.
      * intros Hc. apply andb_true_iff in Hc as [Hc1 Hc2]. auto.
  - assert (Hloop : forall n st0,
              star_loop (rmatch r1) k n st0 = Some res ->
              exists st',
                k st' = Some res
                /\ ((m_read st0 <= m_read st')%nat
                    /\ (m_read st' + length (m_rest st')
                        = m_read st0 + length (m_rest st0))%nat)
                /\ (no_group r1 = true -> m_cap st' = m_cap st0)).
    { induction n as [|n IHn]; intros st0 H0; simpl in H0.
      - exists st0. repeat split; auto.
      - match type of H0 with
        | match ?m with _ => _ end = _ => destruct m as [res1|] eqn:E
        end.
        + inversion H0; subst res1.
          apply IH1 in E as (st1 & E & [Hle1 Hsum1] & Hcap1 & _).
          destruct (m_read st0 <? m_read st1)%nat; [|discriminate].
          apply IHn in E as (st2 & E & [Hle2 Hsum2] & Hcap2).
          exists st2. split; [exact E|].
          split; [split; lia|].
          intros Hg. rewrite Hcap2, Hcap1; auto.
        + exists st0. repeat split; auto. }
    apply Hloop in H as (st' & H & Haft & Hcap).
    exists st'. simpl. repeat split; try apply Haft; auto; discriminate.
  - apply IH1 in H as (st1 & H & Haft1 & _ & Hcon1).
    eexists. split; [exact H|]. simpl.
    repeat split; try apply Haft1; auto; discriminate.
  - destruct (xorb _ _); [|discriminate].
    exists st. repeat split; auto; discriminate.
Qed.

Lemma rmatch_fails r st : rmatch r st (fun _ => None) = None.
Proof.
  destruct (rmatch r st (fun _ => None)) as [res|] eqn:E; [|reflexivity].
  apply rmatch_reached in E as (st' & E & _). discriminate.
Qed.

(** The result of a match depends on the continuation only through the
    states that can be reached. *)
Lemma rmatch_local r : forall st k k',
  (forall st', after st st' -> k st' = k' st') ->
  rmatch r st k = rmatch r st k'.
Proof.
  unfold after.
  induction r as [|P|r1 IH1 r2 IH2|r1 IH1 r2 IH2|r1 IH1|r1 IH1|];
    intros st k k' Hk; simpl.
  - apply Hk. lia.
  - destruct (m_rest st) as [|c t] eqn:Hrest; [reflexivity|].
    destruct (P c); [|reflexivity].
    apply Hk. simpl. lia.
  - apply IH1. intros st1 [Hle1 Hsum1].
    apply IH2. intros st2 [Hle2 Hsum2]. apply Hk. lia.
  - rewrite (IH1 st k k' Hk), (IH2 st k k' Hk). reflexivity.
  - generalize (length (m_rest st)) as n. intros n.
    assert (Hloop : forall n st0,
              (m_read st <= m_read st0)%nat ->
              (m_read st0 + length (m_rest st0)
               = m_read st + length (m_rest st))%nat ->
              star_loop (rmatch r1) k n st0 = star_loop (rmatch r1) k' n st0).
    { clear n. induction n as [|n IHn]; intros st0 Hle Hsum; simpl.
      - apply Hk. lia.
      - rewrite (IH1 st0 _
                   (fun st1 => if (m_read st0 <? m_read st1)%nat
                               then star_loop (rmatch r1) k' n st1 else None)).
        + rewrite (Hk st0) by lia. reflexivity.
        + intros st1 [Hle1 Hsum1].
          destruct (m_read st0 <? m_read st1)%nat; [|reflexivity].
          apply IHn; lia. }
    apply Hloop; lia.
  - apply IH1. intros st1 [Hle1 Hsum1]. apply Hk. simpl. lia.
  - destruct (xorb _ _); [|reflexivity]. apply Hk. lia.
Qed.

(** The star never stops for lack of rounds: any number of rounds from
    the length of the remaining text on gives the same result. *)
Lemma star_loop_fuel r k : forall n m st,
  (length (m_rest st) <= n)%nat -> (length (m_rest st) <= m)%nat ->
  star_loop (rmatch r) k n st = star_loop (rmatch r) k m st.
Proof.
  assert (Hstuck : forall n st,
            length (m_rest st) = 0%nat ->
            star_loop (rmatch r) k n st = k st).
  { intros [|n] st Hlen; simpl; [reflexivity|].
    rewrite (rmatch_local r st _ (fun _ => None)).
    - rewrite rmatch_fails. reflexivity.
    - intros st1 [Hle Hsum].
      destruct (Nat.ltb_spec (m_read st) (m_read st1)); [lia | reflexivity]. }
  induction n as [|n IHn]; intros m st Hn Hm.
  - rewrite (Hstuck m st) by lia. reflexivity.
  - destruct m as [|m].
    + rewrite (Hstuck (S n) st) by lia. reflexivity.
    + simpl.
      rewrite (rmatch_local r st _
                 (fun st1 => if (m_read st <? m_read st1)%nat
                             then star_loop (rmatch r) k m st1 else None)).
      * reflexivity.
      * intros st1 [Hle Hsum].
        destruct (Nat.ltb_spec (m_read st) (m_read st1)); [|reflexivity].
        apply IHn; lia.
Qed.

Lemma shrinking_import_type : shrinking re_import_type [].
Proof.
  intros prev s n cap H. unfold match_at in H.
  apply rmatch_reached in H as (st' & Hk & [_ Hsum] & _ & Hcon).
  inversion Hk; subst. specialize (Hcon eq_refl). simpl in *. lia.
Qed.

Lemma rmatch_seq_group g tail st k :
  rmatch (RSeq (RGroup g) tail) st k
  = rmatch g st
      (fun st1 =>
         rmatch tail
           (MState (m_prev st1) (m_rest st1) (m_read st1)
              (Some (take (m_read st1 - m_read st) (m_rest st)))) k).
Proof. reflexivity. Qed.

Lemma shrinking_param_type : shrinking re_param_type [RGroup1].
Proof.
  intros prev s n cap H. unfold match_at in H.
  change re_param_type
    with (RSeq (RGroup (RPlus (RChar is_word)))
            (RSeqs [ RStar (RChar is_space); chr ":"; RStar (RChar is_space);
                     RAlts [ lit "Page"; lit "BrowserContext"; lit "Browser";
                             lit "Locator"; lit "FrameLocator";
                             lit "APIRequestContext" ];
                     RWordB ])) in H.
  rewrite rmatch_seq_group in H.
  apply rmatch_reached in H as (st1 & H & [_ Hsum1] & _ & _).
  apply rmatch_reached in H as (st2 & Hk & [_ Hsum2] & Hcap & Hcon).
  inversion Hk; subst. specialize (Hcap eq_refl). specialize (Hcon eq_refl).
  rewrite Hcap. unfold expand. simpl in *.
  rewrite app_nil_r, length_take. lia.
Qed.

(** A replacement with shrinking matches never lengthens a text, and
    shortens it as soon as there is a match. *)
Lemma replace_from_length r repl :
  shrinking r repl ->
  forall s skip prev,
    (skip <= length s ->
     length (replace_from r repl skip prev s) + skip <= length s)%nat.
Proof.
  intros Hs. induction s as [|c s IH]; intros skip prev Hskip; simpl.
  - destruct skip; simpl in *; [|lia].
    destruct (match_at r prev []) as [[n cap]|] eqn:E; simpl; [|lia].
    apply Hs in E. simpl in E. lia.
  - destruct skip as [|k]; simpl in *.
    + destruct (match_at r prev (c :: s)) as [[[|n] cap]|] eqn:E.
      * apply Hs in E. lia.
      * apply Hs in E. simpl in E. rewrite length_app.
        specialize (IH n (Some c)). lia.
      * simpl. specialize (IH 0%nat (Some c)). lia.
    + specialize (IH k (Some c)). lia.
Qed.

Lemma replace_from_shrinks r repl :
  shrinking r repl ->
  forall s prev,
    no_match_from r prev s = false ->
    (length (replace_from r repl 0 prev s) < length s)%nat.
Proof.
  intros Hs. induction s as [|c s IH]; intros prev; simpl.
  - destruct (match_at r prev []) as [[n cap]|] eqn:E; [|discriminate].
    apply Hs in E. simpl in E. lia.
  - destruct (match_at r prev (c :: s)) as [[[|n] cap]|] eqn:E.
    + apply Hs in E. lia.
    + intros _. apply Hs in E. simpl in E. rewrite length_app.
      pose proof (replace_from_length r repl Hs s n (Some c)). lia.
    + intros H. apply IH in H. simpl. lia.
Qed.

Lemma replace_all_fixed_iff r repl s :
  shrinking r repl ->
  (replace_all r repl s = s <-> no_match r s = true).
Proof.
  intros Hs. split.
  - intros Heq. destruct (no_match r s) eqn:E; [reflexivity|].
    apply (replace_from_shrinks r repl Hs) in E.
    unfold replace_all in Heq. rewrite Heq in E. lia.
  - apply replace_all_no_match.
Qed.

Lemma replace_all_length r repl s :
  shrinking r repl -> (length (replace_all r repl s) <= length s)%nat.
Proof.
  intros Hs. pose proof (replace_from_length r repl Hs s 0%nat None). 
  unfold replace_all. lia.
Qed.

(** *** The sanitiser *)

End Lemmas.

(* ===================================================================== *)
(** ** Script sanitisation *)
(* ===================================================================== *)

Section Sanitizer.
Import Regex Js Action Trace Props Examples.

(** C7, as stated, fails: stripping an annotation can expose a new one.
    On the text [a: Page: Page] the first pass rewrites the match
    [a: Page] to [a] and leaves [a: Page]; the second pass rewrites that
    to [a]. *)
Lemma C7_not_idempotent :
  strip_type_annotations annotated_twice = codes "a: Page"
  /\ strip_type_annotations (strip_type_annotations annotated_twice)
     = codes "a"
  /\ strip_type_annotations (strip_type_annotations annotated_twice)
     <> strip_type_annotations annotated_twice.
Proof. vm_compute. repeat split; discriminate. Qed.

(** C7, amended: a text in which neither pattern has a match is returned
    unchanged; and sanitising twice equals sanitising once exactly for the
    source texts whose sanitised form has no match of either pattern
    left. *)
Theorem C7_idempotent_iff_stripped (code : text) :
  (no_match re_import_type code = true ->
   no_match re_param_type code = true ->
   strip_type_annotations code = code)
  /\ (strip_type_annotations (strip_type_annotations code)
      = strip_type_annotations code
      <-> no_match re_import_type (strip_type_annotations code) = true
          /\ no_match re_param_type (strip_type_annotations code) = true).
Proof.
  assert (Hfix : forall t,
            no_match re_import_type t = true ->
            no_match re_param_type t = true ->
            strip_type_annotations t = t).
  { intros t H1 H2. unfold strip_type_annotations.
    rewrite (replace_all_no_match _ _ _ H1).
    apply replace_all_no_match, H2. }
  split; [apply Hfix|].
  split; [|intros [H1 H2]; apply Hfix; assumption].
  generalize (strip_type_annotations code). intros t Heq.
  unfold strip_type_annotations in Heq.
  pose proof (replace_all_length re_import_type [] t shrinking_import_type)
    as Hlen1.
  pose proof (replace_all_length re_param_type [RGroup1]
                (replace_all re_import_type [] t) shrinking_param_type)
    as Hlen2.
  rewrite Heq in Hlen2.
  assert (H1 : no_match re_import_type t = true).
  { destruct (no_match re_import_type t) eqn:E; [reflexivity|].
    apply (replace_from_shrinks _ [] shrinking_import_type) in E.
    unfold replace_all in Hlen2. lia. }
  split; [exact H1|].
  rewrite (replace_all_no_match _ _ _ H1) in Heq.
  apply (replace_all_fixed_iff _ _ _ shrinking_param_type), Heq.
Qed.

Lemma C7_idempotent_iff_stripped_witness :
  strip_type_annotations typed_script <> typed_script
  /\ strip_type_annotations (strip_type_annotations typed_script)
     = strip_type_annotations typed_script.
Proof.
  split; [vm_compute; discriminate|].
  apply (C7_idempotent_iff_stripped typed_script).
  split; vm_compute; reflexivity.
Defined.

End Sanitizer.

(* ===================================================================== *)
(** ** Result normalisation *)
(* ===================================================================== *)

Section Normalizer.
Import Regex Js Action Trace Props Examples.
Local Open Scope Z_scope.

(** C1, as stated, fails: [total_tests] is the number of embedded scripts
    and is never reconciled with the number of reported specs. One script
    whose file holds two passing tests gives [passed_tests = 2],
    [skipped_tests = 0] (clamped) and [total_tests = 1]. *)
Lemma C1_sum_exceeds_total :
  exists r,
    fst two_specs_run = Ok r
    /\ passed_tests r = 2 /\ failed_tests r = 0 /\ skipped_tests r = 0
    /\ total_tests r = 1
    /\ passed_tests r + failed_tests r + skipped_tests r <> total_tests r.
Proof. eexists. vm_compute. repeat split; discriminate. Qed.

(** C1, amended: in every result object the program builds,
    [skipped_tests >= 0] and [passed + failed + skipped] is the larger of
    [total_tests] and [passed + failed]; so the sum is [total_tests]
    whenever [passed + failed <= total_tests], and always for the
    exit-code fallback and for the repository-test-files run. *)
Theorem C1_counts (basename : string -> string) (ToNumber : json -> jsnum)
  (o : origin) (r : TestExecutionResults) :
  produced basename ToNumber o r ->
  0 <= skipped_tests r
  /\ passed_tests r + failed_tests r + skipped_tests r
     = Z.max (total_tests r) (passed_tests r + failed_tests r)
  /\ (passed_tests r + failed_tests r <= total_tests r ->
      passed_tests r + failed_tests r + skipped_tests r = total_tests r)
  /\ (o <> Embedded ->
      passed_tests r + failed_tests r + skipped_tests r = total_tests r).
Proof.
  intros Hr.
  assert (Hmax : 0 <= skipped_tests r
    /\ passed_tests r + failed_tests r + skipped_tests r
       = Z.max (total_tests r) (passed_tests r + failed_tests r)
    /\ (o <> Embedded -> passed_tests r + failed_tests r <= total_tests r)).
  { destruct Hr as [w resp inputs st st' r H
                   |w resp inputs st st' r H He
                   |w id files inputs st st' r H].
    - apply runTestsLocally_result in H. subst r.
      destruct (normalize_skipped (tr_execution_id resp) inputs
                  (Z.of_nat (length (embedded resp))) (durationSeconds w)
                  (infer_from_exit_code (embedded resp) (exitCode w)
                     (durationSeconds w) (Z.of_nat (length (embedded resp)))
                     (derived basename ToNumber w resp))) as [H1 H2].
      unfold local_result. repeat split; auto. congruence.
    - apply runTestsLocally_result in H. subst r.
      destruct (local_result_fallback basename ToNumber w resp inputs He)
        as (Ht & Hp & Hf & _).
      destruct (normalize_skipped (tr_execution_id resp) inputs
                  (Z.of_nat (length (embedded resp))) (durationSeconds w)
                  (infer_from_exit_code (embedded resp) (exitCode w)
                     (durationSeconds w) (Z.of_nat (length (embedded resp)))
                     (derived basename ToNumber w resp))) as [H1 H2].
      unfold local_result in *. repeat split; auto.
      intros _. rewrite Ht, Hp, Hf. destruct (exitCode w =? 0); lia.
    - unfold run_repository_tests, bind, try_catch, call, emit, ret in H.
      simpl in H.
      destruct (w_repositoryTest w) as [c|]; simpl in H;
        inversion H; subst; simpl; [destruct (c =? 0); simpl|].
      all: repeat split; intros; lia. }
  destruct Hmax as (H0 & Hsum & Hle). repeat split; auto.
  - intros Hle'. lia.
  - intros Ho. specialize (Hle Ho). lia.
Qed.

Lemma C1_counts_witness :
  exists r,
    produced posix_basename to_number Repository r
    /\ 0 <= skipped_tests r
    /\ passed_tests r + failed_tests r + skipped_tests r = total_tests r.
Proof.
  assert (Hrun : exists r, repository_run 0 = (Ok r, snd (repository_run 0))).
  { eexists. vm_compute. reflexivity. }
  destruct Hrun as (r & Hrun).
  assert (Hp : produced posix_basename to_number Repository r).
  { eapply produced_repository. exact Hrun. }
  exists r.
  destruct (C1_counts posix_basename to_number Repository r Hp)
    as (H0 & _ & _ & Hsum).
  split; [exact Hp|]. split; [exact H0 | apply Hsum; discriminate].
Defined.

(** C2, as stated, fails on the repository-test-files run, whose verdict
    is taken from the exit code alone: with an empty list of test files
    and exit code 0 the verdict is [passed] although [passed_tests = 0]. *)
Lemma C2_passed_without_passing_test :
  exists r,
    fst empty_repository_run = Ok r
    /\ result r = passed /\ run_status r = completed
    /\ passed_tests r = 0 /\ total_tests r = 0
    /\ ~ (result r = passed <-> 0 < passed_tests r /\ failed_tests r = 0).
Proof.
  eexists. vm_compute. repeat split; try discriminate.
  intros [H _]. specialize (H eq_refl). destruct H as [H _]. discriminate H.
Qed.

(** C2, amended: in every result object the program builds the verdict is
    [passed] or [failed] and the status is [completed] when the verdict is
    [passed] and [failed] otherwise; the verdict is [passed] iff
    [passed_tests > 0] and [failed_tests = 0] for every result of the
    embedded-script run (fallback included, [total_tests = 0] included)
    and for every result of the repository-test-files run with at least
    one test file. *)
Theorem C2_verdict (basename : string -> string) (ToNumber : json -> jsnum)
  (o : origin) (r : TestExecutionResults) :
  produced basename ToNumber o r ->
  (run_status r = completed /\ result r = passed
   \/ run_status r = status_failed /\ result r = failed)
  /\ (o <> Repository \/ 0 < total_tests r ->
      (result r = passed <-> 0 < passed_tests r /\ failed_tests r = 0)).
Proof.
  intros Hr.
  destruct Hr as [w resp inputs st st' r H
                 |w resp inputs st st' r H He
                 |w id files inputs st st' r H].
  - apply runTestsLocally_result in H. subst r.
    destruct (normalize_verdict (tr_execution_id resp) inputs
                (Z.of_nat (length (embedded resp))) (durationSeconds w)
                (infer_from_exit_code (embedded resp) (exitCode w)
                   (durationSeconds w) (Z.of_nat (length (embedded resp)))
                   (derived basename ToNumber w resp))) as [H1 H2].
    unfold local_result. split; auto.
  - apply runTestsLocally_result in H. subst r.
    destruct (normalize_verdict (tr_execution_id resp) inputs
                (Z.of_nat (length (embedded resp))) (durationSeconds w)
                (infer_from_exit_code (embedded resp) (exitCode w)
                   (durationSeconds w) (Z.of_nat (length (embedded resp)))
                   (derived basename ToNumber w resp))) as [H1 H2].
    unfold local_result. split; auto.
  - unfold run_repository_tests, bind, try_catch, call, emit, ret in H.
    simpl in H.
    destruct (w_repositoryTest w) as [c|]; simpl in H;
      inversion H; subst; simpl; [destruct (c =? 0); simpl|].
    all: split; [auto|]; intros [Ho|Ht]; [congruence|].
    all: split; [intros Hv; first [discriminate | split; [lia | reflexivity]]
                |intros [Hp Hf]; first [reflexivity | lia]].
Qed.

Lemma C2_verdict_witness :
  exists r,
    produced posix_basename to_number Repository r
    /\ 0 < total_tests r
    /\ result r = failed /\ run_status r = status_failed
    /\ passed_tests r = 0.
Proof.
  assert (Hrun : exists r, repository_run 2 = (Ok r, snd (repository_run 2))
                           /\ 0 < total_tests r /\ passed_tests r = 0).
  { eexists. vm_compute. repeat split; reflexivity. }
  destruct Hrun as (r & Hrun & Htotal & Hpassed).
  assert (Hp : produced posix_basename to_number Repository r).
  { eapply produced_repository. exact Hrun. }
  exists r.
  destruct (C2_verdict posix_basename to_number Repository r Hp)
    as [[[Hs Hv]|[Hs Hv]] Hiff].
  - exfalso. apply (Hiff (or_intror Htotal)) in Hv. lia.
  - repeat split; assumption.
Defined.

(** C4: when the parser derived no individual result (report absent,
    unreadable or unparsable, or without any spec), a local run that
    returns has classified all [N] embedded scripts from the exit code:
    with exit code 0 all [N] are [passed], [failed_tests = 0]; otherwise
    all [N] are [failed] with the message [Test execution failed]; each
    entry has the duration [duration_seconds / N]. *)
Theorem C4_exit_code_fallback (basename : string -> string)
  (ToNumber : json -> jsnum) (w : World) (resp : TriggerTestsResponse)
  (inputs : ActionInputs) (st st' : State) (r : TestExecutionResults) :
  runTestsLocally basename ToNumber w resp inputs st = (Ok r, st') ->
  w_resultsFile w = None \/ w_resultsFile w = Some None
  \/ testResults (derived basename ToNumber w resp) = [] ->
  let N := length (embedded resp) in
  let share := div_length (duration_seconds r) N in
  total_tests r = Z.of_nat N
  /\ (exitCode w = 0 ->
      passed_tests r = Z.of_nat N /\ failed_tests r = 0
      /\ tests r = map (fallback_entry passed share None) (embedded resp))
  /\ (exitCode w <> 0 ->
      failed_tests r = Z.of_nat N /\ passed_tests r = 0
      /\ tests r = map (fallback_entry failed share
                          (Some (JStr "Test execution failed")))
                      (embedded resp)).
Proof.
  intros Hrun Hnone.
  assert (He : testResults (derived basename ToNumber w resp) = []).
  { destruct Hnone as [H|[H|H]]; [| |exact H];
      unfold derived; apply absent_report_no_results; auto. }
  apply runTestsLocally_result in Hrun. subst r.
  destruct (local_result_fallback basename ToNumber w resp inputs He)
    as (Ht & Hp & Hf & Hd & Hl).
  cbv zeta. rewrite Ht, Hp, Hf, Hd, Hl. split; [reflexivity|].
  split; intros Hc.
  - rewrite Hc. simpl. auto.
  - apply Z.eqb_neq in Hc. rewrite Hc. simpl. auto.
Qed.

Lemma C4_exit_code_fallback_witness :
  total_tests (local_result posix_basename to_number (no_report_world 0)
                 two_scripts inputs0) = 2
  /\ passed_tests (local_result posix_basename to_number (no_report_world 0)
                     two_scripts inputs0) = 2
  /\ failed_tests (local_result posix_basename to_number (no_report_world 0)
                     two_scripts inputs0) = 0
  /\ tests (local_result posix_basename to_number (no_report_world 0)
              two_scripts inputs0)
     = map (fallback_entry passed (Fin (9000 / 1000 / 2)) None)
         (embedded two_scripts).
Proof.
  destruct (C4_exit_code_fallback posix_basename to_number
              (no_report_world 0) two_scripts inputs0 initial
              (snd (local_run (no_report_world 0) two_scripts))
              (local_result posix_basename to_number (no_report_world 0)
                 two_scripts inputs0))
    as (Ht & Hzero & _).
  - vm_compute. reflexivity.
  - left. reflexivity.
  - destruct (Hzero eq_refl) as (Hp & Hf & Hl).
    repeat split; assumption.
Defined.

(** C6, as stated, fails in its example: [total_tests] is the number of
    embedded scripts, not the number of reported specs. One script whose
    file holds three tests, two passing and one failing, gives
    [passed_tests = 2], [failed_tests = 1] and [total_tests = 1]. *)
Lemma C6_three_specs_one_script :
  exists l r,
    report_specs one_file_three_specs = Some l
    /\ length l = 3%nat /\ count_ok l = 2 /\ count_not_ok l = 1
    /\ fst (local_run one_file_world one_script) = Ok r
    /\ passed_tests r = 2 /\ failed_tests r = 1 /\ skipped_tests r = 0
    /\ total_tests r = 1 /\ total_tests r <> 3.
Proof. do 2 eexists. vm_compute. repeat split; discriminate. Qed.

(** C6, amended: when the report parses, has the reporter's shape and
    holds at least one spec, a local run that returns has one entry per
    spec, in order; each entry takes its status from the spec's own [ok]
    flag and, when the suite's file is the file generated for an embedded
    script, that script's id; [passed_tests] and [failed_tests] count the
    specs with and without [ok], [total_tests] is the number of embedded
    scripts and [skipped_tests] is [max 0 (total_tests - specs)]. In
    particular 3 specs with 2 [ok] give [passed_tests = 2] and
    [failed_tests = 1], and with 3 embedded scripts [total_tests = 3] and
    [skipped_tests = 0]. *)
Theorem C6_report_classification (basename : string -> string)
  (ToNumber : json -> jsnum) (w : World) (resp : TriggerTestsResponse)
  (inputs : ActionInputs) (st st' : State) (r : TestExecutionResults)
  (raw : json) (l : list (string * json)) :
  runTestsLocally basename ToNumber w resp inputs st = (Ok r, st') ->
  w_resultsFile w = Some (Some raw) ->
  report_specs raw = Some l ->
  l <> [] ->
  Forall2 (reported_as basename (embedded resp)) l (tests r)
  /\ passed_tests r = count_ok l
  /\ failed_tests r = count_not_ok l
  /\ total_tests r = Z.of_nat (length (embedded resp))
  /\ skipped_tests r = Z.max 0 (total_tests r - Z.of_nat (length l))
  /\ (length l = 3%nat -> count_ok l = 2 ->
      passed_tests r = 2 /\ failed_tests r = 1
      /\ (length (embedded resp) = 3%nat ->
          total_tests r = 3 /\ skipped_tests r = 0)).
Proof.
  intros Hrun Hfile Hshape Hne.
  apply runTestsLocally_result in Hrun. subst r.
  unfold local_result, derived. rewrite Hfile.
  destruct (parse_results_shaped basename ToNumber
              (script_map (embedded resp)) raw l Hshape) as (ts & -> & Hts).
  assert (Hlen : length ts = length l)
    by (symmetry; eapply Forall2_length; eauto).
  unfold infer_from_exit_code. simpl testResults.
  destruct (length ts =? 0)%nat eqn:E.
  { apply Nat.eqb_eq in E. rewrite Hlen in E.
    destruct l; [congruence | discriminate]. }
  pose proof (count_ok_total l) as Htot.
  simpl.
  assert (Hskip :
    (if Z.of_nat (length (embedded resp)) - count_ok l - count_not_ok l <? 0
     then 0
     else Z.of_nat (length (embedded resp)) - count_ok l - count_not_ok l)
    = Z.max 0 (Z.of_nat (length (embedded resp)) - Z.of_nat (length l))).
  { destruct (Z.ltb_spec
                (Z.of_nat (length (embedded resp)) - count_ok l
                 - count_not_ok l) 0); lia. }
  rewrite Hskip.
  split.
  { eapply Forall2_impl; [exact Hts|].
    intros fs t. apply classifies_reported_as. }
  repeat split; try reflexivity; try lia.
Qed.

Lemma C6_report_classification_witness :
  exists l r,
    report_specs three_specs = Some l
    /\ fst (local_run three_specs_world three_scripts) = Ok r
    /\ passed_tests r = 2 /\ failed_tests r = 1
    /\ total_tests r = 3 /\ skipped_tests r = 0.
Proof.
  eexists.
  exists (local_result posix_basename to_number three_specs_world
            three_scripts inputs0).
  split; [vm_compute; reflexivity|].
  split; [vm_compute; reflexivity|].
  edestruct (C6_report_classification posix_basename to_number
               three_specs_world three_scripts inputs0 initial
               (snd (local_run three_specs_world three_scripts))
               (local_result posix_basename to_number three_specs_world
                  three_scripts inputs0)
               three_specs)
    as (_ & _ & _ & _ & _ & H).
  - vm_compute. reflexivity.
  - reflexivity.
  - vm_compute. reflexivity.
  - discriminate.
  - destruct (H eq_refl eq_refl) as (Hp & Hf & H3).
    destruct (H3 eq_refl) as (Ht & Hs).
    repeat split; assumption.
Defined.

End Normalizer.

(* ===================================================================== *)
(** ** Orchestration: the exit signal *)
(* ===================================================================== *)

Section Orchestration.
Import Regex Js Action Trace Props Examples.
Local Open Scope Z_scope.

(** C10: with [fail-on-test-failure] enabled, once the results are known
    and have [passed_tests = 0] and [total_tests > 0], the action is
    marked failed, whatever their [result] and [status] fields say: the
    run ends with exactly one failure message. *)
Theorem C10_no_passing_test_fails (basename : string -> string)
  (ToNumber : json -> jsnum) (toLowerCase : string -> string)
  (w : World) (inputs : ActionInputs) (r : TestExecutionResults)
  (st : State) :
  obtain_results basename ToNumber toLowerCase w inputs initial
  = (Ok (Some r), st) ->
  failOnTestFailure inputs = true ->
  passed_tests r = 0 ->
  0 < total_tests r ->
  exists msg,
    failures (trace (snd (run basename ToNumber toLowerCase w inputs initial)))
    = [EvSetFailed msg].
Proof.
  intros Ho Hflag Hp Ht.
  assert (Hfailed : executionFailed r && failOnTestFailure inputs = true).
  { unfold executionFailed. rewrite Hflag, Hp.
    apply Z.ltb_lt in Ht. rewrite Ht. simpl.
    rewrite !orb_true_r. reflexivity. }
  unfold run, try_catch, try_block, bind. rewrite Ho.
  apply obtain_results_run in Ho as (_ & _ & Hf & _).
  specialize (Hf ltac:(discriminate)). simpl in Hf.
  destruct (conclude w inputs r st) as [[u|e] st2] eqn:Hc;
    apply conclude_run in Hc as (_ & _ & _ & Hc).
  - destruct (Hc Hfailed) as (msg & Hmsg). exists msg. simpl.
    rewrite Hmsg, Hf. reflexivity.
  - rewrite on_error_run. simpl. exists (failure_message e).
    unfold failures in *. rewrite !List.filter_app, Hc, Hf.
    destruct (known_execution st2); reflexivity.
Qed.

Lemma C10_no_passing_test_fails_witness :
  result hollow_result = passed /\ run_status hollow_result = completed
  /\ exists msg,
       failures (trace (snd (run_action remote_world inputs0)))
       = [EvSetFailed msg].
Proof.
  split; [reflexivity|]. split; [reflexivity|].
  refine (C10_no_passing_test_fails posix_basename to_number ascii_lower
            remote_world inputs0 hollow_result
            (snd (obtain_results posix_basename to_number ascii_lower
                    remote_world inputs0 initial)) _ _ _ _).
  - vm_compute. reflexivity.
  - reflexivity.
  - reflexivity.
  - reflexivity.
Defined.

End Orchestration.

(* ===================================================================== *)
(** ** The sandbox and the report back to the service *)
(* ===================================================================== *)

Section Sandbox.
Import Regex Js Action Trace Props Examples.
Local Open Scope Z_scope.

(** C3 does not hold of the code: the removal of the sandbox is the last
    but one statement of [runTestsLocally], outside any [finally]. When
    [npm install] fails, [exec] rejects, the function is left at once and
    [fs.rmSync] is never reached: the local run throws, no removal is in
    the trace and the directory is still on disk, also after [run] has
    handled the error. *)
Theorem C3_sandbox_left_behind :
  (forall (basename : string -> string) (ToNumber : json -> jsnum)
          (w : World) (resp : TriggerTestsResponse) (inputs : ActionInputs)
          (st : State) (dir : string) (e : Thrown),
      w_mkdtempSync w = Ok dir ->
      w_mkdirSync w = Ok tt ->
      (forall f, w_writeFileSync w f = Ok tt) ->
      w_npmInstall w = Throw e ->
      exists st',
        runTestsLocally basename ToNumber w resp inputs st = (Throw e, st')
        /\ removals (trace st') = removals (trace st)
        /\ sandbox st' = Some dir)
  /\ fst (local_run install_fails_world two_scripts)
     = Throw (ThrownError "The process 'npm' failed with exit code 1")
  /\ removals (trace (snd (local_run install_fails_world two_scripts))) = []
  /\ sandbox (snd (local_run install_fails_world two_scripts))
     = Some "/tmp/qamax-abc"
  /\ removals (trace (snd (run_action install_fails_world inputs0))) = []
  /\ sandbox (snd (run_action install_fails_world inputs0))
     = Some "/tmp/qamax-abc".
Proof.
  split; [|vm_compute; repeat split; reflexivity].
  intros basename ToNumber w resp inputs st dir e Hdir Hmk Hwr Hnpm.
  destruct (install_failure_leaves_sandbox basename ToNumber w resp inputs
              st dir e Hdir Hmk Hwr Hnpm) as (st' & Hrun & Hrm & _ & Hsb).
  exists st'. auto.
Qed.

(** C5 does not hold of the code: the repository-test-files run is a
    local run that always completes, and it never calls [reportResults];
    only the embedded-script run does (lemma [runTestsLocally_once]). So
    does the whole action on a repository-test-files response: it ends
    without a failure message and without any report call. *)
Theorem C5_repository_run_never_reports :
  (forall (w : World) (id : string) (files : list string)
          (inputs : ActionInputs) (st : State),
      exists r st',
        run_repository_tests w id files inputs st = (Ok r, st')
        /\ reports (trace st') = reports (trace st))
  /\ fst (run_action repository_world inputs0) = Ok tt
  /\ failures (trace (snd (run_action repository_world inputs0))) = []
  /\ reports (trace (snd (run_action repository_world inputs0))) = [].
Proof.
  split; [|vm_compute; repeat split; reflexivity].
  intros w id files inputs st.
  unfold run_repository_tests, bind, try_catch, call, emit, ret. simpl.
  destruct (w_repositoryTest w) as [c|]; simpl; do 2 eexists;
    (split; [reflexivity|]); simpl;
    unfold reports; rewrite List.filter_app; simpl; apply app_nil_r.
Qed.


End Sandbox.

(* ===================================================================== *)
(** ** Lemmas on whole runs *)
(* ===================================================================== *)

Import Regex Js Action Trace Props Observations.

(** *** Appending to the trace *)

Lemma emits_appends {A} P (m : M A) : emits P m -> appends P m.
Proof. intros H st. destruct (H st) as (evs & Ht & Hp & _). eauto. Qed.

Lemma appends_ret {A} P (a : A) : appends P (ret a).
Proof. intros st. exists []. simpl. rewrite app_nil_r. auto. Qed.

Lemma appends_throw {A} P e : appends P (@throw A e).
Proof. intros st. exists []. simpl. rewrite app_nil_r. auto. Qed.

Lemma appends_set_client P : appends P set_client.
Proof. intros st. exists []. simpl. rewrite app_nil_r. auto. Qed.

Lemma appends_set_executionId P id : appends P (set_executionId id).
Proof. intros st. exists []. simpl. rewrite app_nil_r. auto. Qed.

Lemma appends_call {A} P ev (answer : Res A) :
  P ev = true -> appends P (call ev answer).
Proof. intros H st. exists [ev]. simpl. rewrite H. auto. Qed.

Lemma appends_emit P ev : P ev = true -> appends P (emit ev).
Proof. intros H st. exists [ev]. simpl. rewrite H. auto. Qed.

(** The continuation of a run only matters on the values the run can
    return. *)
Lemma appends_bind_on {A B} P (m : M A) (k : A -> M B) :
  appends P m ->
  (forall a st st', m st = (Ok a, st') -> appends P (k a)) ->
  appends P (bind m k).
Proof.
  intros Hm Hk st. unfold bind.
  destruct (Hm st) as (evs & Ht & Hp).
  destruct (m st) as [[a|e] st1] eqn:E; simpl in *.
  - destruct (Hk a st st1 E st1) as (evs' & Ht' & Hp').
    exists (evs ++ evs').
    rewrite Ht', Ht, <- app_assoc, forallb_app, Hp, Hp'. auto.
  - exists evs. auto.
Qed.

Lemma appends_bind {A B} P (m : M A) (k : A -> M B) :
  appends P m -> (forall a, appends P (k a)) -> appends P (bind m k).
Proof. intros Hm Hk. apply appends_bind_on; auto. Qed.

Lemma appends_try_catch {A} P (m : M A) (h : Thrown -> M A) :
  appends P m -> (forall e, appends P (h e)) -> appends P (try_catch m h).
Proof.
  intros Hm Hh st. unfold try_catch.
  destruct (Hm st) as (evs & Ht & Hp).
  destruct (m st) as [[a|e] st1]; simpl in *.
  - exists evs. auto.
  - destruct (Hh e st1) as (evs' & Ht' & Hp').
    exists (evs ++ evs').
    rewrite Ht', Ht, <- app_assoc, forallb_app, Hp, Hp'. auto.
Qed.

Lemma call_returns {A} ev (answer : Res A) a st st' :
  call ev answer st = (Ok a, st') -> answer = Ok a.
Proof. unfold call, emit. simpl. intros H. inversion H. reflexivity. Qed.

Lemma appends_filter {A} P Q (m : M A) st :
  appends P m ->
  (forall ev, P ev = true -> Q ev = false) ->
  List.filter Q (trace (snd (m st))) = List.filter Q (trace st).
Proof.
  intros Hm HPQ. destruct (Hm st) as (evs & -> & Hp).
  rewrite List.filter_app.
  assert (Hnil : List.filter Q evs = []).
  { clear Hm. induction evs as [|ev evs IH]; simpl in *; [reflexivity|].
    apply andb_true_iff in Hp as [Hev Hevs].
    rewrite (HPQ ev Hev). auto. }
  rewrite Hnil. apply app_nil_r.
Qed.

(** One step of a syntax-directed proof of [emits], for the blocks of the
    program that leave the variables of [run] alone. *)
Ltac emits_step :=
  match goal with
  | |- emits _ (bind _ _) => apply emits_bind; [| intros ?]
  | |- emits _ (try_catch _ _) => apply emits_try_catch; [| intros ?]
  | |- emits _ (call _ _) => apply emits_call; reflexivity
  | |- emits _ (emit _) => apply emits_emit; reflexivity
  | |- emits _ (ret _) => apply emits_ret
  | |- emits _ (throw _) => apply emits_throw
  | |- emits _ (set_sandbox _) => apply emits_set_sandbox
  | |- emits _ (write_scripts _ _ _ _) => apply emits_write_scripts; reflexivity
  | |- emits _ (if ?b then _ else _) => destruct b
  | |- emits _ (match ?x with _ => _ end) => destruct x
  end.

Ltac emits_program :=
  repeat first
    [ emits_step
    | progress unfold runTestsLocally, run_repository_tests, execute,
        resolve_project, setOutputs, postPrComment, writeJobSummary, seed,
        conclude ].

Ltac appends_step :=
  match goal with
  | |- appends _ (bind _ _) => apply appends_bind; [| intros ?]
  | |- appends _ (try_catch _ _) => apply appends_try_catch; [| intros ?]
  | |- appends _ (call _ _) => apply appends_call; reflexivity
  | |- appends _ (emit _) => apply appends_emit; reflexivity
  | |- appends _ (ret _) => apply appends_ret
  | |- appends _ (throw _) => apply appends_throw
  | |- appends _ set_client => apply appends_set_client
  | |- appends _ (set_executionId _) => apply appends_set_executionId
  | |- appends _ (if ?b then _ else _) => destruct b
  | |- appends _ (match ?x with _ => _ end) => destruct x
  end.

Section RunLemmas.
Import Regex Js Action Trace Props Observations.
Local Open Scope Z_scope.

Variable basename : string -> string.
Variable ToNumber : json -> jsnum.
Variable toLowerCase : string -> string.

(** *** The catch clause and the blocks of [run] *)

Lemma appends_on_error P w e :
  (forall ev, orchestration_event ev = true -> P ev = true) ->
  appends P (on_error w e).
Proof.
  intros HP st. rewrite on_error_run. simpl.
  eexists. split; [reflexivity|].
  rewrite forallb_app. simpl. rewrite (HP (EvSetFailed _) eq_refl).
  destruct (known_execution st); simpl;
    rewrite ?(HP (EvCancelExecution _) eq_refl); reflexivity.
Qed.

Lemma appends_conclude P w inputs r :
  (forall ev, orchestration_event ev = true -> P ev = true) ->
  appends P (conclude w inputs r).
Proof.
  intros HP. unfold conclude, setOutputs, writeJobSummary, postPrComment.
  repeat first
    [ apply appends_call; apply HP; reflexivity
    | apply appends_emit; apply HP; reflexivity
    | appends_step ].
Qed.

Lemma appends_seed P w id :
  (forall ev, orchestration_event ev = true -> P ev = true) ->
  appends P (seed w id).
Proof.
  intros HP. unfold seed.
  repeat first
    [ apply appends_call; apply HP; reflexivity
    | apply appends_emit; apply HP; reflexivity
    | appends_step ].
Qed.

(** Every event of a run satisfies [P] as soon as the events of the
    orchestration itself, of the project resolution and of the execution
    that the trigger response selects do. *)
Lemma appends_run P w inputs :
  (forall ev, orchestration_event ev = true -> P ev = true) ->
  appends P (resolve_project toLowerCase w inputs) ->
  (forall resp, w_triggerTests w = Ok resp ->
                appends P (execute basename ToNumber w resp inputs)) ->
  appends P (run basename ToNumber toLowerCase w inputs).
Proof.
  intros HP Hres Hexec. unfold run.
  apply appends_try_catch; [|intros e; apply appends_on_error, HP].
  unfold try_block.
  apply appends_bind;
    [|intros [r|]; [apply appends_conclude, HP | apply appends_ret]].
  unfold obtain_results.
  apply appends_bind; [apply appends_set_client | intros _].
  apply appends_bind; [apply appends_call, HP; reflexivity | intros valid].
  apply appends_bind; [destruct valid; appends_step | intros _].
  apply appends_bind; [exact Hres | intros id].
  destruct (mode inputs =? "seed")%string.
  - apply appends_bind; [apply appends_seed, HP | intros _; apply appends_ret].
  - apply appends_bind_on; [apply appends_call, HP; reflexivity|].
    intros resp st st' Hcall. apply call_returns in Hcall.
    apply appends_bind; [apply appends_set_executionId | intros _].
    apply appends_bind; [apply Hexec, Hcall | intros r; apply appends_ret].
Qed.

(** Splits a run [bind m k st = (res, st')] recorded in [H] into the run
    of [m], of which it keeps what [emits silent m] says, and the run of
    the continuation, which stays in [H]. *)
Ltac walk H :=
  let F := fresh "F" in
  let H1 := fresh "H1" in
  apply bind_inv in H as [(? & ? & H1 & H)|(? & H1 & ?)];
  match type of H1 with
  | ?m _ = _ =>
      assert (F : emits silent m) by emits_program;
      apply (emits_silent_run _ _ _ _ F) in H1 as (? & ? & ? & ?);
      clear F
  end.

Lemma conclude_returns w inputs r st u st' :
  conclude w inputs r st = (Ok u, st') ->
  failures (trace st') = failures (trace st) ++ exit_signal inputs r.
Proof.
  unfold conclude, exit_signal, failed_text. intros H.
  walk H; [|discriminate].
  walk H; [|discriminate].
  walk H; [|discriminate].
  destruct (executionFailed r && failOnTestFailure inputs);
    unfold emit, ret in H; inversion H; subst; simpl.
  - unfold failures in *. rewrite List.filter_app. simpl. congruence.
  - rewrite app_nil_r. congruence.
Qed.

Lemma conclude_ok w inputs r st :
  w_writeJobSummary w = Ok tt ->
  exists st', conclude w inputs r st = (Ok tt, st').
Proof.
  intros Hsum.
  unfold conclude, setOutputs, writeJobSummary, postPrComment, bind, call,
    emit, try_catch, ret. simpl. rewrite Hsum. simpl.
  destruct (postPrCommentFlag inputs); simpl;
    [destruct (w_pullRequest w); simpl;
       [destruct (w_githubToken w); simpl;
          [destruct (w_createComment w) as [[]|]; simpl|]|]|];
    destruct (executionFailed r && failOnTestFailure inputs); simpl;
    eexists; reflexivity.
Qed.

Lemma seed_returns w id st u st' :
  seed w id st = (Ok u, st') ->
  exists resp,
    w_seedTests w = Ok resp
    /\ failures (trace st') = failures (trace st) ++ seed_failure resp.
Proof.
  unfold seed, seed_failure, bind, call, emit, ret. simpl.
  destruct (w_seedTests w) as [resp|]; simpl; [|discriminate].
  intros H. exists resp. split; [reflexivity|].
  destruct ((tests_created resp =? 0) && (seed_skipped resp =? 0));
    inversion H; subst; simpl; unfold failures;
    rewrite !List.filter_app; simpl; rewrite ?app_nil_r; reflexivity.
Qed.

(** The [try] block returns without results only in seed mode, after the
    seed call. *)
Lemma obtain_results_none w inputs st0 st1 :
  obtain_results basename ToNumber toLowerCase w inputs st0 = (Ok None, st1) ->
  mode inputs = "seed"
  /\ exists resp,
       w_seedTests w = Ok resp
       /\ failures (trace st1) = failures (trace st0) ++ seed_failure resp.
Proof.
  unfold obtain_results. intros H.
  unfold bind at 1, set_client in H. simpl in H.
  walk H; [|discriminate].
  walk H; [|discriminate].
  walk H; [|discriminate].
  destruct (String.eqb_spec (mode inputs) "seed") as [Hmode|Hmode].
  - split; [exact Hmode|].
    apply bind_inv in H as [(u & s & Hseed & H)|(e & _ & H)]; [|discriminate].
    apply seed_returns in Hseed as (resp & Hresp & Hf).
    unfold ret in H. inversion H; subst.
    exists resp. split; [exact Hresp|]. simpl in *. congruence.
  - exfalso.
    apply bind_inv in H as [(resp & s & _ & H)|(e & _ & H)]; [|discriminate].
    apply bind_inv in H as [(u & s' & _ & H)|(e & _ & H)]; [|discriminate].
    apply bind_inv in H as [(r & s'' & _ & H)|(e & _ & H)]; [|discriminate].
    unfold ret in H. discriminate.
Qed.

Lemma try_block_returns w inputs st0 u st :
  try_block basename ToNumber toLowerCase w inputs st0 = (Ok u, st) ->
  cancels (trace st) = cancels (trace st0)
  /\ (failures (trace st) = failures (trace st0)
      \/ exists msg,
           failures (trace st) = failures (trace st0) ++ [EvSetFailed msg]).
Proof.
  unfold try_block. intros H.
  apply bind_inv in H as [(res & s & Ho & H)|(e & _ & H)]; [|discriminate].
  pose proof (obtain_results_run _ _ _ _ _ _ _ _ Ho) as (_ & Hc & Hf & _).
  destruct res as [r|].
  - specialize (Hf ltac:(discriminate)).
    pose proof (conclude_run _ _ _ _ _ _ H) as (Hc' & _).
    apply conclude_returns in H. split; [congruence|].
    rewrite H, Hf. unfold exit_signal.
    destruct (executionFailed r && failOnTestFailure inputs);
      [right; eauto | left; apply app_nil_r].
  - apply obtain_results_none in Ho as (_ & resp & _ & Hs).
    unfold ret in H. inversion H; subst. split; [exact Hc|].
    rewrite Hs. unfold seed_failure.
    destruct ((tests_created resp =? 0) && (seed_skipped resp =? 0));
      [right; eauto | left; apply app_nil_r].
Qed.

Lemma obtain_results_seed_none w inputs st res st' :
  mode inputs = "seed" ->
  obtain_results basename ToNumber toLowerCase w inputs st = (Ok res, st') ->
  res = None.
Proof.
  intros Hmode. unfold obtain_results. rewrite Hmode. simpl String.eqb.
  intros H.
  repeat (apply bind_inv in H as [(? & ? & _ & H)|(? & _ & H)];
          [|discriminate]).
  unfold ret in H. inversion H. reflexivity.
Qed.

(** In seed mode the [try] block never reaches the trigger call: it ends
    after the seed call or throws before, the execution id stays
    unassigned and only seed-mode events are appended. *)
Lemma try_block_seed w inputs st :
  mode inputs = "seed" ->
  exists evs,
    trace (snd (try_block basename ToNumber toLowerCase w inputs st))
    = trace st ++ evs
    /\ forallb seed_event evs = true
    /\ executionId (snd (try_block basename ToNumber toLowerCase w inputs st))
       = executionId st.
Proof.
  intros Hmode.
  assert (Hobtain : exists evs,
    trace (snd (obtain_results basename ToNumber toLowerCase w inputs st))
    = trace st ++ evs
    /\ forallb seed_event evs = true
    /\ executionId
         (snd (obtain_results basename ToNumber toLowerCase w inputs st))
       = executionId st).
  { unfold obtain_results. rewrite Hmode. simpl String.eqb.
    unfold bind at 1, set_client. simpl.
    match goal with
    | |- exists evs, trace (snd (?m ?s)) = _ /\ _ =>
        assert (F : emits seed_event m) by emits_program;
        destruct (F s) as (evs & Ht & Hp & Hid & _)
    end.
    exists evs. simpl in *. auto. }
  destruct Hobtain as (evs & Ht & Hp & Hid).
  exists evs. unfold try_block, bind.
  destruct (obtain_results basename ToNumber toLowerCase w inputs st)
    as [[res|e] s1] eqn:Ho; simpl in *; [|auto].
  apply obtain_results_seed_none in Ho; [|exact Hmode]. subst res.
  simpl. auto.
Qed.

Lemma bind_ext {A B} (m m' : M A) (k k' : A -> M B) st :
  m st = m' st -> (forall a s, k a s = k' a s) ->
  bind m k st = bind m' k' st.
Proof.
  intros Hm Hk. unfold bind. rewrite Hm.
  destruct (m' st) as [[a|e] s]; [apply Hk | reflexivity].
Qed.

Lemma write_scripts_answer a w dir l : forall m st,
  write_scripts (with_createComment a w) dir l m st
  = write_scripts w dir l m st.
Proof.
  induction l as [|sc l IH]; intros m st; simpl; [reflexivity|].
  apply bind_ext; [reflexivity | intros _ s; apply IH].
Qed.

Lemma obtain_results_answer a w inputs st :
  obtain_results basename ToNumber toLowerCase (with_createComment a w)
    inputs st
  = obtain_results basename ToNumber toLowerCase w inputs st.
Proof.
  unfold obtain_results.
  repeat (apply bind_ext; [reflexivity | intros ? ?]).
  destruct (mode inputs =? "seed")%string; [reflexivity|].
  repeat (apply bind_ext; [reflexivity | intros ? ?]).
  apply bind_ext; [| reflexivity].
  unfold execute.
  destruct (run_locally _); [|reflexivity].
  destruct (scripts _) as [[|sc l]|]; try reflexivity.
  unfold runTestsLocally.
  repeat (apply bind_ext; [reflexivity | intros ? ?]).
  apply bind_ext; [apply write_scripts_answer | reflexivity].
Qed.

Lemma postPrComment_answer a w r st :
  postPrComment (with_createComment a w) r st = postPrComment w r st.
Proof.
  unfold postPrComment, try_catch, call, emit, ret. simpl.
  destruct (w_pullRequest w); simpl; [|reflexivity].
  destruct (w_githubToken w); simpl; [|reflexivity].
  destruct a as [[]|]; destruct (w_createComment w) as [[]|]; reflexivity.
Qed.

Lemma conclude_answer a w inputs r st :
  conclude (with_createComment a w) inputs r st = conclude w inputs r st.
Proof.
  unfold conclude, bind.
  destruct (setOutputs r st) as [[u|e] s1]; [|reflexivity].
  change (writeJobSummary (with_createComment a w) r s1)
    with (writeJobSummary w r s1).
  destruct (writeJobSummary w r s1) as [[u'|e] s2]; [|reflexivity].
  destruct (postPrCommentFlag inputs); [|reflexivity].
  rewrite postPrComment_answer. reflexivity.
Qed.

(** *** The first call of a run *)



End RunLemmas.

(* ===================================================================== *)
(** ** Lemmas on the local run *)
(* ===================================================================== *)

Section LocalRunLemmas.
Import Regex Js Action Trace Props Observations.
Local Open Scope Z_scope.

Variable basename : string -> string.
Variable ToNumber : json -> jsnum.

(** *** The files of the scripts *)

Lemma write_scripts_effects w dir l : forall m st m' st',
  write_scripts w (dir +:+ "/tests") l m st = (Ok m', st') ->
  trace st' = trace st ++ map (script_write dir) l
  /\ sandbox st' = sandbox st.
Proof.
  induction l as [|sc l IH]; intros m st m' st'; simpl.
  - unfold ret. intros H. inversion H; subst. rewrite app_nil_r. auto.
  - unfold bind at 1, call, emit. simpl.
    destruct (w_writeFileSync w _); simpl; [|discriminate].
    intros H. apply IH in H as [Ht Hs]. simpl in *.
    rewrite Ht, <- app_assoc. auto.
Qed.

Lemma runTestsLocally_effects w resp inputs st st' r :
  runTestsLocally basename ToNumber w resp inputs st = (Ok r, st') ->
  exists dir,
    w_mkdtempSync w = Ok dir
    /\ trace st' = trace st ++ local_effects dir resp inputs r
    /\ sandbox st' = match w_rmSync w with
                     | Ok _ => None
                     | Throw _ => Some dir
                     end.
Proof.
  intros Hrun. pose proof (runTestsLocally_result _ _ _ _ _ _ _ _ Hrun) as Hr.
  revert Hrun. unfold runTestsLocally, local_effects, embedded.
  unfold bind at 1. unfold call at 1. simpl.
  destruct (w_mkdtempSync w) as [dir|]; [|discriminate]. simpl.
  unfold bind at 1. simpl. unfold bind at 1. unfold call at 1. simpl.
  destruct (w_mkdirSync w); [|discriminate]. simpl.
  unfold bind at 1. unfold call at 1. simpl.
  destruct (w_writeFileSync w _); [|discriminate]. simpl.
  unfold bind at 1.
  destruct (write_scripts _ _ _ _ _) as [[m|] st1] eqn:Hw; [|discriminate].
  apply write_scripts_effects in Hw as (Ht & Hsb). simpl in Ht, Hsb.
  unfold bind, call, try_catch, emit, set_sandbox, ret. simpl.
  exists dir. split; [reflexivity|].
  revert Hrun.
  repeat match goal with
  | |- context [match ?x with Ok _ => _ | Throw _ => _ end] =>
      destruct x eqn:?; simpl
  | |- (Throw _, _) = (Ok _, _) -> _ => discriminate
  end; intros H; inversion H; subst; simpl;
    rewrite Ht, <- ?app_assoc; simpl; auto.
Qed.

(** *** The tallies of the parser *)

Lemma count_status_app v a b :
  count_status v (a ++ b) = count_status v a + count_status v b.
Proof. unfold count_status. rewrite List.filter_app, length_app. lia. Qed.

Lemma tallied_no_results : tallied no_results.
Proof. repeat split; constructor. Qed.

Lemma parse_spec_tallied m suite spec acc acc' :
  parse_spec basename ToNumber m suite spec acc = Some acc' ->
  tallied acc -> tallied acc'.
Proof.
  unfold parse_spec, tallied.
  destruct (get "file" (Some suite)) as [file|]; [|discriminate].
  destruct (if truthy file then file else Some (JStr "")) as [[| | |path| |]|];
    try discriminate.
  destruct (get "ok" (Some spec)) as [ok|]; [|discriminate].
  intros H (Hp & Hf & Hall). inversion H; subst; clear H.
  destruct (truthy ok); simpl; rewrite !count_status_app, Hp, Hf;
    unfold count_status; simpl;
    (split; [lia | split; [lia | apply Forall_app; split; [exact Hall|]]]);
    constructor; auto.
Qed.

Lemma parse_specs_tallied m suite specs acc :
  tallied acc ->
  tallied (fst (parse_specs basename ToNumber m suite specs acc)).
Proof.
  revert acc. induction specs as [|spec specs IH]; intros acc Hacc; simpl.
  - exact Hacc.
  - destruct (parse_spec _ _ _ _ _ _) as [acc'|] eqn:E; simpl.
    + apply IH. eapply parse_spec_tallied; eauto.
    + exact Hacc.
Qed.

Lemma parse_suite_tallied m suite acc :
  tallied acc -> tallied (fst (parse_suite basename ToNumber m suite acc)).
Proof.
  intros Hacc. unfold parse_suite.
  destruct (get "specs" (Some suite)) as [specs|]; [|exact Hacc].
  destruct (iterate (or_empty specs)); [|exact Hacc].
  apply parse_specs_tallied, Hacc.
Qed.

Lemma parse_suites_tallied m suites acc :
  tallied acc ->
  tallied (fst (parse_suites basename ToNumber m suites acc)).
Proof.
  revert acc. induction suites as [|suite suites IH]; intros acc Hacc; simpl.
  - exact Hacc.
  - pose proof (parse_suite_tallied m suite acc Hacc) as H.
    destruct (parse_suite _ _ _ _ _) as [acc' [|]]; simpl in *.
    + apply IH, H.
    + exact H.
Qed.

Lemma parse_results_tallied m file :
  tallied (parse_results basename ToNumber m file).
Proof.
  unfold parse_results.
  destruct file as [[raw|]|]; try apply tallied_no_results.
  destruct (get "suites" (Some raw)) as [suites|];
    try apply tallied_no_results.
  destruct (iterate (or_empty suites)); try apply tallied_no_results.
  apply parse_suites_tallied, tallied_no_results.
Qed.

Lemma count_status_same {A} (f : A -> IndividualTestResult) v l :
  (forall a, status (f a) = v) ->
  count_status v (map f l) = Z.of_nat (length l).
Proof.
  intros H. unfold count_status. f_equal.
  induction l as [|a l IH]; simpl; [reflexivity|].
  unfold has_status at 1. rewrite H.
  destruct v; simpl; f_equal; exact IH.
Qed.

Lemma count_status_other {A} (f : A -> IndividualTestResult) v v' l :
  v <> v' -> (forall a, status (f a) = v) ->
  count_status v' (map f l) = 0.
Proof.
  intros Hne H. unfold count_status.
  induction l as [|a l IH]; simpl; [reflexivity|].
  unfold has_status at 1. rewrite H.
  destruct v, v'; simpl; try exact IH; congruence.
Qed.

Lemma infer_from_exit_code_tallied l e d acc :
  tallied acc -> balanced acc ->
  tallied (infer_from_exit_code l e d (Z.of_nat (length l)) acc).
Proof.
  intros Ht Hb. unfold infer_from_exit_code.
  destruct (length (testResults acc) =? 0)%nat eqn:E; [|exact Ht].
  apply Nat.eqb_eq in E.
  destruct (testResults acc) as [|t ts] eqn:Hnil; [|discriminate].
  destruct (balanced_empty acc Hb Hnil) as [Hp Hf].
  unfold tallied. simpl. rewrite Hf.
  destruct (e =? 0); simpl.
  - rewrite (count_status_same _ passed) by reflexivity.
    rewrite (count_status_other _ passed failed) by (discriminate || reflexivity).
    repeat split. apply List.Forall_forall. intros t Hin.
    apply in_map_iff in Hin as (s & <- & _). auto.
  - rewrite (count_status_same _ failed) by reflexivity.
    rewrite (count_status_other _ failed passed) by (discriminate || reflexivity).
    rewrite Hp.
    repeat split. apply List.Forall_forall. intros t Hin.
    apply in_map_iff in Hin as (s & <- & _). auto.
Qed.

(** *** A report that breaks midway *)

Lemma parse_suites_app m l1 : forall l2 acc acc1,
  parse_suites basename ToNumber m l1 acc = (acc1, true) ->
  parse_suites basename ToNumber m (l1 ++ l2) acc
  = parse_suites basename ToNumber m l2 acc1.
Proof.
  induction l1 as [|suite l1 IH]; intros l2 acc acc1; simpl.
  - intros H. inversion H. reflexivity.
  - destruct (parse_suite _ _ _ _ _) as [acc' [|]]; [|discriminate].
    apply IH.
Qed.

Lemma parse_suite_broken m suite acc :
  broken_suite suite = true ->
  parse_suite basename ToNumber m suite acc = (acc, false).
Proof.
  unfold broken_suite, parse_suite.
  destruct (get "specs" (Some suite)) as [specs|]; [|reflexivity].
  destruct (iterate (or_empty specs)); [discriminate | reflexivity].
Qed.

Lemma parse_results_broken m raw good bad rest l :
  get "suites" (Some raw) = Some (Some (JArr (good ++ bad :: rest))) ->
  suites_specs good = Some l ->
  broken_suite bad = true ->
  exists ts,
    parse_results basename ToNumber m (Some (Some raw))
    = {| passedTests := count_ok l; failedTests := count_not_ok l;
         testResults := ts |}
    /\ Forall2 (classifies basename m) l ts.
Proof.
  intros Hsuites Hgood Hbad. unfold parse_results. rewrite Hsuites. simpl.
  destruct (parse_suites_shaped basename ToNumber m good l no_results Hgood)
    as (ts & Hparse & Hts).
  rewrite (parse_suites_app m good (bad :: rest) _ _ Hparse). simpl.
  rewrite (parse_suite_broken m bad _ Hbad). simpl.
  exists ts. auto.
Qed.

(** *** The map from file names to scripts *)

Lemma script_map_from_other l k : forall m,
  (forall s, In s l -> safeFileName s <> k) ->
  script_map_from m l !! k = m !! k.
Proof.
  induction l as [|a l IH]; intros m H; simpl; [reflexivity|].
  unfold script_map_from in *. simpl. rewrite IH.
  - apply lookup_insert_ne. apply H. left. reflexivity.
  - intros s Hs. apply H. right. exact Hs.
Qed.


End LocalRunLemmas.

(* ===================================================================== *)
(** ** Lemmas on the inputs *)
(* ===================================================================== *)

Section InputLemmas.
Import Regex Js Inputs.
Local Open Scope Z_scope.

(** *** White space *)

Lemma trimStart_spaces l s : spaces l -> trimStart (l ++ s) = trimStart s.
Proof. induction 1 as [|c l Hc _ IH]; simpl; [reflexivity|]. rewrite Hc. exact IH. Qed.

Lemma trimStart_idem s : trimStart (trimStart s) = trimStart s.
Proof.
  induction s as [|c s IH]; simpl; [reflexivity|].
  destruct (is_space c) eqn:E; [exact IH|]. simpl. rewrite E. reflexivity.
Qed.

Lemma trimStart_fixed_app d r :
  trimStart d = d -> d <> [] -> trimStart (d ++ r) = d ++ r.
Proof.
  destruct d as [|c d]; [congruence|]. simpl. intros H _.
  destruct (is_space c) eqn:E; [|reflexivity].
  exfalso. assert (Hlen : length (trimStart d) = S (length d)) by (rewrite H; reflexivity).
  assert (Hle : forall s, (length (trimStart s) <= length s)%nat).
  { clear. induction s as [|c s IH]; simpl; [lia|].
    destruct (is_space c); simpl; lia. }
  specialize (Hle d). lia.
Qed.

Lemma trimStart_snoc a c :
  is_space c = false -> trimStart (a ++ [c]) = trimStart a ++ [c].
Proof.
  intros Hc. induction a as [|x a IH]; simpl.
  - rewrite Hc. reflexivity.
  - destruct (is_space x); [exact IH | reflexivity].
Qed.

Lemma trimStart_In c s : In c (trimStart s) -> In c s.
Proof.
  induction s as [|x s IH]; simpl; [auto|].
  destruct (is_space x); [auto | simpl; auto].
Qed.

Lemma trim_In c s : In c (trim s) -> In c s.
Proof.
  unfold trim, trimEnd. intros H.
  apply in_rev, trimStart_In, in_rev in H. apply trimStart_In, H.
Qed.

Lemma trimmed_trim s : trimmed (trim s).
Proof.
  unfold trimmed, trim, trimEnd. rewrite rev_involutive, trimStart_idem.
  split; [|reflexivity].
  pose proof (trimStart_idem s) as Hy. revert Hy.
  generalize (trimStart s). intros y Hy.
  destruct y as [|c y]; [reflexivity|].
  assert (Hc : is_space c = false).
  { simpl in Hy. destruct (is_space c) eqn:E; [|reflexivity].
    exfalso.
    assert (Hle : forall s, (length (trimStart s) <= length s)%nat).
    { clear. induction s as [|x s IH]; simpl; [lia|].
      destruct (is_space x); simpl; lia. }
    pose proof (Hle y) as H1. rewrite Hy in H1. simpl in H1. lia. }
  simpl rev. rewrite (trimStart_snoc _ _ Hc), rev_app_distr. simpl.
  rewrite Hc. reflexivity.
Qed.

Lemma trim_trimmed d : trimmed d -> trim d = d.
Proof.
  intros [H1 H2]. unfold trim, trimEnd. rewrite H1, H2.
  apply rev_involutive.
Qed.

Lemma trim_padded l d r : trimmed d -> spaces l -> spaces r -> trim (l ++ d ++ r) = d.
Proof.
  intros [H1 H2] Hl Hr. unfold trim, trimEnd.
  rewrite (trimStart_spaces l _ Hl).
  destruct d as [|c d].
  - simpl. rewrite <- (app_nil_r r), (trimStart_spaces r [] Hr). reflexivity.
  - rewrite (trimStart_fixed_app (c :: d) r H1) by discriminate.
    rewrite rev_app_distr, trimStart_spaces, H2.
    + apply rev_involutive.
    + apply Forall_rev, Hr.
Qed.

Lemma trim_spaces s : spaces s -> trim s = [].
Proof.
  intros H. unfold trim, trimEnd.
  rewrite <- (app_nil_r s), (trimStart_spaces s [] H). reflexivity.
Qed.

(** *** Splitting and joining *)

Lemma split_nonempty sep s : split sep s <> [].
Proof.
  destruct s as [|c s]; simpl; [discriminate|].
  destruct (c =? sep)%N; [discriminate|].
  destruct (split sep s); discriminate.
Qed.

Lemma split_length sep s :
  length (split sep s) = S (length (List.filter (N.eqb sep) s)).
Proof.
  induction s as [|c s IH]; simpl; [reflexivity|].
  rewrite (N.eqb_sym sep c).
  destruct (c =? sep)%N; simpl.
  - rewrite IH. reflexivity.
  - destruct (split sep s) as [|p ps] eqn:E; [|exact IH].
    exfalso. exact (split_nonempty sep s E).
Qed.

Lemma split_no_sep sep p : ~ In sep p -> split sep p = [p].
Proof.
  induction p as [|c p IH]; simpl; [reflexivity|]. intros H.
  destruct (N.eqb_spec c sep) as [->|_]; [exfalso; auto|].
  rewrite IH by auto. reflexivity.
Qed.

Lemma split_app_sep sep p rest :
  ~ In sep p -> split sep (p ++ sep :: rest) = p :: split sep rest.
Proof.
  induction p as [|c p IH]; simpl; intros H.
  - rewrite N.eqb_refl. reflexivity.
  - destruct (N.eqb_spec c sep) as [->|_]; [exfalso; auto|].
    rewrite IH by auto. reflexivity.
Qed.

Lemma split_join sep pieces :
  pieces <> [] ->
  List.Forall (fun p => ~ In sep p) pieces ->
  split sep (join sep pieces) = pieces.
Proof.
  induction pieces as [|p pieces IH]; [congruence|]. intros _ Hall.
  inversion Hall as [|? ? Hp Hrest]; subst.
  destruct pieces as [|q pieces].
  - simpl. apply split_no_sep, Hp.
  - change (join sep (p :: q :: pieces)) with (p ++ sep :: join sep (q :: pieces)).
    rewrite (split_app_sep _ _ _ Hp), IH; [reflexivity | discriminate | exact Hrest].
Qed.

Lemma split_pieces sep s : List.Forall (fun p => ~ In sep p) (split sep s).
Proof.
  induction s as [|c s IH]; simpl.
  - constructor; [intros []|constructor].
  - destruct (N.eqb_spec c sep) as [->|Hne].
    + constructor; [intros []|exact IH].
    + destruct (split sep s) as [|p ps]; [constructor; [|constructor]|].
      * intros [H|[]]. congruence.
      * inversion IH; subst. constructor; [|assumption].
        intros [H|H]; [congruence | auto].
Qed.

Lemma join_nonempty sep p pieces : p <> [] -> join sep (p :: pieces) <> [].
Proof.
  intros Hp. destruct pieces as [|q pieces]; simpl; [exact Hp|].
  destruct p; [congruence | discriminate].
Qed.

(** *** Decimal numerals *)

Lemma codes_app s1 s2 : codes (s1 +:+ s2) = codes s1 ++ codes s2.
Proof.
  unfold codes. induction s1 as [|a s1 IH]; simpl; [reflexivity|].
  f_equal. exact IH.
Qed.

Lemma pretty_N_char_code d :
  (d < 10)%N -> N_of_ascii (pretty_N_char d) = (48 + d)%N.
Proof.
  intros H.
  assert (d = 0 \/ d = 1 \/ d = 2 \/ d = 3 \/ d = 4 \/ d = 5 \/ d = 6
          \/ d = 7 \/ d = 8 \/ d = 9)%N as Hd by lia.
  repeat (destruct Hd as [->|Hd]; [reflexivity|]). subst. reflexivity.
Qed.

Lemma digit_not_space c : is_digit c = true -> is_space c = false.
Proof.
  unfold is_digit. intros H.
  apply andb_true_iff in H as [H1 H2].
  apply N.leb_le in H1, H2.
  assert (c = 48 \/ c = 49 \/ c = 50 \/ c = 51 \/ c = 52 \/ c = 53
          \/ c = 54 \/ c = 55 \/ c = 56 \/ c = 57)%N as Hc by lia.
  repeat (destruct Hc as [->|Hc]; [reflexivity|]). subst. reflexivity.
Qed.

Lemma pretty_N_go_digits x : forall s,
  exists p,
    codes (pretty_N_go x s) = p ++ codes s
    /\ all_digits p
    /\ (forall a, fold_left (fun n c => 10 * n + (Z.of_N c - 48)) p a
                  = a * 10 ^ Z.of_nat (length p) + Z.of_N x)
    /\ ((0 < x)%N -> p <> []).
Proof.
  induction (N.lt_wf_0 x) as [x _ IH]. intros s.
  destruct (N.eq_dec x 0%N) as [->|Hx].
  - exists []. rewrite pretty_N_go_0. repeat split; try constructor.
    + intros a. simpl. lia.
    + lia.
  - rewrite pretty_N_go_step by lia.
    destruct (IH (x `div` 10)%N (N.div_lt x 10 ltac:(lia) eq_refl)
                (String (pretty_N_char (x `mod` 10)) s))
      as (p & Hp & Hd & Hv & _).
    assert (Hmod : (x `mod` 10 < 10)%N) by (apply N.mod_lt; lia).
    exists (p ++ [(48 + x `mod` 10)%N]). split; [|split; [|split]].
    + rewrite Hp. unfold codes at 1. simpl.
      rewrite (pretty_N_char_code _ Hmod), <- app_assoc. reflexivity.
    + apply Forall_app. split; [exact Hd|]. constructor; [|constructor].
      unfold is_digit. apply andb_true_iff.
      clear - Hmod. revert Hmod. generalize (x `mod` 10)%N. intros d Hmod.
      split; apply N.leb_le; lia.
    + intros a. rewrite fold_left_app, Hv. simpl.
      rewrite length_app. simpl.
      replace (Z.of_nat (length p + 1)) with (Z.of_nat (length p) + 1) by lia.
      rewrite Z.pow_add_r by lia.
      pose proof (N.div_mod x 10 ltac:(lia)) as Hdm. lia.
    + intros _. destruct p; discriminate.
Qed.

(** The numeral of [z]: a dash when it is negative, then a non-empty run
    of digits whose value is its magnitude. *)
Lemma pretty_Z_digits (z : Z) :
  exists p,
    codes (pretty z) = (if z <? 0 then [45%N] else []) ++ p
    /\ all_digits p /\ p <> [] /\ mathInt p = Z.abs z.
Proof.
  assert (Hpos : forall x : positive,
            exists p, codes (pretty x) = p /\ all_digits p /\ p <> []
                      /\ mathInt p = Zpos x).
  { intros x. unfold pretty, pretty_positive, pretty, pretty_N.
    destruct (decide (N.pos x = 0%N)) as [H|_]; [discriminate|].
    destruct (pretty_N_go_digits (N.pos x) "") as (p & Hp & Hd & Hv & Hne).
    exists p. rewrite Hp. unfold codes at 1. simpl. rewrite app_nil_r.
    repeat split; [exact Hd | apply Hne; lia |].
    unfold mathInt. rewrite Hv. simpl. reflexivity. }
  destruct z as [|x|x].
  - exists [48%N]. repeat split; try discriminate.
    constructor; [reflexivity | constructor].
  - destruct (Hpos x) as (p & Hp & Hd & Hne & Hv).
    exists p. simpl. auto.
  - destruct (Hpos x) as (p & Hp & Hd & Hne & Hv).
    exists p. change (pretty (Z.neg x)) with ("-" +:+ pretty x).
    rewrite codes_app, Hp. simpl. auto.
Qed.

Lemma digits_all p : all_digits p -> digits p = p.
Proof.
  induction 1 as [|c p Hc _ IH]; simpl; [reflexivity|].
  rewrite Hc, IH. reflexivity.
Qed.

Lemma parseInt_pretty (z : Z) :
  parseInt (codes (pretty z)) = Fin (inject_Z z).
Proof.
  destruct (pretty_Z_digits z) as (p & -> & Hd & Hne & Hv).
  destruct p as [|c p]; [congruence|].
  assert (Hc : is_digit c = true) by (inversion Hd; assumption).
  pose proof (digit_not_space c Hc) as Hs.
  assert (Hsign : ((c =? 43) || (c =? 45))%N = false /\ (c =? 45)%N = false).
  { unfold is_digit in Hc. apply andb_true_iff in Hc as [H1 H2].
    apply N.leb_le in H1, H2.
    destruct (N.eqb_spec c 43), (N.eqb_spec c 45); simpl; auto; lia. }
  destruct Hsign as [Hsign Hdash].
  assert (Hdp : digits (c :: p) = c :: p) by (apply digits_all, Hd).
  unfold parseInt. destruct (z <? 0) eqn:E.
  - change ([45%N] ++ c :: p) with (45%N :: c :: p). cbn [trimStart].
    change (is_space 45) with false. cbv beta iota zeta.
    change (45 =? 45)%N with true. change (45 =? 43)%N with false.
    cbn [orb]. rewrite Hdp, Hv.
    apply Z.ltb_lt in E. do 2 f_equal. lia.
  - change ([] ++ c :: p) with (c :: p). cbn [trimStart].
    rewrite Hs. cbv beta iota zeta. rewrite Hsign, Hdash, Hdp, Hv.
    apply Z.ltb_ge in E. do 2 f_equal. lia.
Qed.

Lemma pretty_trimmed (z : Z) : trimmed (codes (pretty z)).
Proof.
  destruct (pretty_Z_digits z) as (p & -> & Hd & Hne & _).
  assert (Hlast : exists q c, rev p = c :: q /\ is_digit c = true).
  { destruct (rev p) as [|c q] eqn:E.
    - apply (f_equal (@rev N)) in E. rewrite rev_involutive in E.
      simpl in E. congruence.
    - exists q, c. split; [reflexivity|].
      assert (Hin : In c (rev p)) by (rewrite E; left; reflexivity).
      apply in_rev in Hin. unfold all_digits in Hd.
      rewrite List.Forall_forall in Hd. auto. }
  destruct Hlast as (q & c & Hrev & Hc).
  split.
  - destruct (z <? 0); simpl; [reflexivity|].
    destruct p as [|d p]; [congruence|]. simpl.
    rewrite digit_not_space by (inversion Hd; assumption). reflexivity.
  - rewrite rev_app_distr, Hrev. simpl.
    rewrite (digit_not_space c Hc). reflexivity.
Qed.

Lemma pretty_In (z : Z) c :
  In c (codes (pretty z)) -> c = 45%N \/ is_digit c = true.
Proof.
  destruct (pretty_Z_digits z) as (p & -> & Hd & _).
  intros H. apply in_app_or in H as [H|H].
  - destruct (z <? 0); simpl in H; [|contradiction].
    destruct H as [<-|[]]. left. reflexivity.
  - right. unfold all_digits in Hd. rewrite List.Forall_forall in Hd. auto.
Qed.

Lemma pretty_nonempty (z : Z) : codes (pretty z) <> [].
Proof.
  destruct (pretty_Z_digits z) as (p & -> & _ & Hne & _).
  destruct (z <? 0); simpl; [discriminate | exact Hne].
Qed.

(** *** The written ids *)

Lemma render_parse it :
  well_written it -> parseInt (trim (render it)) = Fin (inject_Z (value it)).
Proof.
  intros (Hb & Ha & _). unfold render.
  rewrite (trim_padded _ _ _ (pretty_trimmed (value it)) Hb Ha).
  apply parseInt_pretty.
Qed.

Lemma render_no_comma it : well_written it -> ~ In 44%N (render it).
Proof.
  intros (Hb & Ha & _) H. unfold render in H. unfold spaces in Hb, Ha.
  rewrite List.Forall_forall in Hb, Ha.
  apply in_app_or in H as [H|H]; [apply Hb in H; discriminate|].
  apply in_app_or in H as [H|H]; [|apply Ha in H; discriminate].
  apply pretty_In in H as [H|H]; discriminate.
Qed.

Lemma render_nonempty it : render it <> [].
Proof.
  unfold render. intros H.
  apply app_eq_nil in H as [_ H]. apply app_eq_nil in H as [H _].
  exact (pretty_nonempty _ H).
Qed.

End InputLemmas.

(* ===================================================================== *)
(** ** Whole runs: what the action calls, and when it fails *)
(* ===================================================================== *)

Section Runs.
Import Regex Js Action Trace Props Examples Observations.
Local Open Scope Z_scope.

(** X1: unless the trigger response asks for a local run, the action
    creates no sandbox, writes no file, starts no subprocess and reports
    no results back: no event of a local execution is in the trace. *)
Theorem X1_remote_run_stays_remote (basename : string -> string)
  (ToNumber : json -> jsnum) (toLowerCase : string -> string)
  (w : World) (inputs : ActionInputs) (st : State) :
  (forall resp, w_triggerTests w = Ok resp -> run_locally resp = false) ->
  List.filter local_event
    (trace (snd (run basename ToNumber toLowerCase w inputs st)))
  = List.filter local_event (trace st).
Proof.
  intros Hremote.
  apply (appends_filter (fun ev => negb (local_event ev))).
  - apply appends_run.
    + intros [] H; try reflexivity; discriminate.
    + apply emits_appends. emits_program.
    + intros resp Hresp. unfold execute. rewrite (Hremote resp Hresp).
      destruct (scripts resp) as [[|]|]; destruct (test_files resp);
        apply appends_call; reflexivity.
  - intros ev H. apply negb_true_iff in H. exact H.
Qed.

Lemma X1_remote_run_stays_remote_witness :
  List.filter local_event (trace (snd (run_action remote_world inputs0))) = [].
Proof.
  apply (X1_remote_run_stays_remote posix_basename to_number ascii_lower
           remote_world inputs0 initial).
  intros resp H. vm_compute in H. inversion H. reflexivity.
Defined.

(** X2: when a project id is provided, the action never looks a project
    up: neither [getProjects] nor [resolveProject] is called, whatever
    else happens in the run. *)
Theorem X2_project_id_skips_lookup (basename : string -> string)
  (ToNumber : json -> jsnum) (toLowerCase : string -> string)
  (w : World) (inputs : ActionInputs) (st : State) :
  projectId inputs <> "" ->
  List.filter is_lookup
    (trace (snd (run basename ToNumber toLowerCase w inputs st)))
  = List.filter is_lookup (trace st).
Proof.
  intros Hid.
  apply (appends_filter (fun ev => negb (is_lookup ev))).
  - apply appends_run.
    + intros [] H; try reflexivity; discriminate.
    + unfold resolve_project.
      destruct (String.eqb_spec (projectId inputs) ""); [contradiction|].
      apply appends_ret.
    + intros resp _. apply emits_appends. emits_program.
  - intros ev H. apply negb_true_iff in H. exact H.
Qed.

Lemma X2_project_id_skips_lookup_witness :
  List.filter is_lookup (trace (snd (run_action remote_world inputs0))) = [].
Proof.
  apply (X2_project_id_skips_lookup posix_basename to_number ascii_lower
           remote_world inputs0 initial).
  discriminate.
Defined.

(** X3: [run] never rejects. It hands at most one message to
    [core.setFailed], and it calls [cancelExecution] at most once, only
    together with a failure message. *)
Theorem X3_run_settles (basename : string -> string)
  (ToNumber : json -> jsnum) (toLowerCase : string -> string)
  (w : World) (inputs : ActionInputs) :
  fst (run basename ToNumber toLowerCase w inputs initial) = Ok tt
  /\ (failures (trace (snd (run basename ToNumber toLowerCase w inputs initial)))
      = []
      \/ exists msg,
           failures (trace (snd (run basename ToNumber toLowerCase w inputs
                                   initial)))
           = [EvSetFailed msg])
  /\ (cancels (trace (snd (run basename ToNumber toLowerCase w inputs initial)))
      = []
      \/ exists id msg,
           cancels (trace (snd (run basename ToNumber toLowerCase w inputs
                                  initial)))
           = [EvCancelExecution id]
           /\ failures (trace (snd (run basename ToNumber toLowerCase w inputs
                                      initial)))
              = [EvSetFailed msg]).
Proof.
  unfold run, try_catch.
  destruct (try_block basename ToNumber toLowerCase w inputs initial)
    as [[[]|e] st] eqn:Htry.
  - apply try_block_returns in Htry as (Hc & Hf). simpl in *.
    split; [reflexivity|]. split; [|left; exact Hc].
    destruct Hf as [Hf|(msg & Hf)]; [left | right; exists msg]; exact Hf.
  - rewrite on_error_run. simpl.
    apply try_block_throw in Htry as (_ & Hc & Hf & _). simpl in Hc, Hf.
    assert (Hfail : failures
                      (trace st
                       ++ match known_execution st with
                          | Some id => [EvCancelExecution id]
                          | None => []
                          end ++ [EvSetFailed (failure_message e)])
                    = [EvSetFailed (failure_message e)]).
    { unfold failures in *. rewrite !List.filter_app, Hf.
      destruct (known_execution st); reflexivity. }
    split; [reflexivity|]. split; [right; eauto|].
    unfold cancels in *. rewrite !List.filter_app, Hc.
    destruct (known_execution st) as [id|] eqn:Hk; simpl.
    + right. exists id, (failure_message e). split; [reflexivity|].
      exact Hfail.
    + left. reflexivity.
Qed.

(** X4: when the results are known and the job summary is written, the
    exit signal is decided by lines 565-576 alone: the action is marked
    failed, with the message of line 575, exactly when the execution
    failed and [fail-on-test-failure] is enabled; nothing is cancelled. In
    particular with [fail-on-test-failure] disabled a completed run is
    never marked failed. *)
Theorem X4_exit_signal (basename : string -> string)
  (ToNumber : json -> jsnum) (toLowerCase : string -> string)
  (w : World) (inputs : ActionInputs) (r : TestExecutionResults)
  (st : State) :
  obtain_results basename ToNumber toLowerCase w inputs initial
  = (Ok (Some r), st) ->
  w_writeJobSummary w = Ok tt ->
  failures (trace (snd (run basename ToNumber toLowerCase w inputs initial)))
  = exit_signal inputs r
  /\ cancels (trace (snd (run basename ToNumber toLowerCase w inputs initial)))
     = []
  /\ (failOnTestFailure inputs = false ->
      failures (trace (snd (run basename ToNumber toLowerCase w inputs
                              initial)))
      = []).
Proof.
  intros Ho Hsum.
  destruct (conclude_ok w inputs r st Hsum) as (st' & Hc).
  assert (Hrun : run basename ToNumber toLowerCase w inputs initial
                 = (Ok tt, st')).
  { unfold run, try_catch, try_block, bind. rewrite Ho, Hc. reflexivity. }
  rewrite Hrun. simpl.
  pose proof (obtain_results_run _ _ _ _ _ _ _ _ Ho) as (_ & Hcan & Hf & _).
  specialize (Hf ltac:(discriminate)). simpl in Hcan, Hf.
  pose proof (conclude_run _ _ _ _ _ _ Hc) as (Hcan' & _).
  apply conclude_returns in Hc. rewrite Hc, Hf. simpl.
  split; [reflexivity|]. split; [congruence|].
  intros Hflag. unfold exit_signal. rewrite Hflag, andb_false_r. reflexivity.
Qed.

Lemma X4_exit_signal_witness :
  failures (trace (snd (run_action remote_world lenient_inputs))) = [].
Proof.
  destruct (X4_exit_signal posix_basename to_number ascii_lower
              remote_world lenient_inputs hollow_result
              (snd (obtain_results posix_basename to_number ascii_lower
                      remote_world lenient_inputs initial)))
    as (_ & _ & H).
  - vm_compute. reflexivity.
  - reflexivity.
  - apply H. reflexivity.
Defined.

(** X5: in seed mode the action only validates the key, resolves the
    project, seeds and sets outputs (or fails): it never triggers an
    execution, never executes or polls, never comments and never cancels;
    no execution id is ever assigned. *)
Theorem X5_seed_mode_never_triggers (basename : string -> string)
  (ToNumber : json -> jsnum) (toLowerCase : string -> string)
  (w : World) (inputs : ActionInputs) :
  mode inputs = "seed" ->
  forallb seed_event
    (trace (snd (run basename ToNumber toLowerCase w inputs initial))) = true
  /\ executionId (snd (run basename ToNumber toLowerCase w inputs initial))
     = None.
Proof.
  intros Hmode. unfold run, try_catch.
  destruct (try_block_seed basename ToNumber toLowerCase w inputs initial
              Hmode) as (evs & Ht & Hp & Hid).
  destruct (try_block basename ToNumber toLowerCase w inputs initial)
    as [[u|e] st]; simpl in *.
  - rewrite Ht, Hp. auto.
  - rewrite on_error_run. simpl. unfold known_execution. rewrite Hid. simpl.
    rewrite Ht, forallb_app, Hp. auto.
Qed.

Lemma X5_seed_mode_never_triggers_witness :
  forallb seed_event (trace (snd (run_action remote_world seed_inputs))) = true
  /\ executionId (snd (run_action remote_world seed_inputs)) = None.
Proof.
  apply (X5_seed_mode_never_triggers posix_basename to_number ascii_lower
           remote_world seed_inputs).
  reflexivity.
Defined.

(** X6: when the service does not accept the API key (it answers [false]
    or the call fails), the run stops there: the key validation is the
    only call made, and the action is marked failed once, with the fixed
    invalid-key message or with the message of the error. *)
Theorem X6_invalid_key_stops (basename : string -> string)
  (ToNumber : json -> jsnum) (toLowerCase : string -> string)
  (w : World) (inputs : ActionInputs) :
  w_validateApiKey w <> Ok true ->
  trace (snd (run basename ToNumber toLowerCase w inputs initial))
  = [EvValidateApiKey;
     EvSetFailed
       match w_validateApiKey w with
       | Ok _ =>
           "Invalid API key. Get your API key from app.qamax.co/settings/api"
       | Throw e => failure_message e
       end].
Proof.
  intros Hkey.
  assert (Htry : exists e,
    try_block basename ToNumber toLowerCase w inputs initial
    = (Throw e, {| trace := [EvValidateApiKey]; executionId := None;
                   client := true; sandbox := None |})
    /\ failure_message e
       = match w_validateApiKey w with
         | Ok _ =>
             "Invalid API key. Get your API key from app.qamax.co/settings/api"
         | Throw e => failure_message e
         end).
  { unfold try_block, obtain_results, bind, set_client, call, emit, throw,
      ret. simpl.
    destruct (w_validateApiKey w) as [[|]|e]; simpl;
      [contradiction | |]; eexists; split; reflexivity. }
  destruct Htry as (e & Htry & Hmsg).
  unfold run, try_catch. rewrite Htry, on_error_run. simpl.
  rewrite Hmsg. reflexivity.
Qed.

Lemma X6_invalid_key_stops_witness :
  trace (snd (run_action invalid_key_world inputs0))
  = [EvValidateApiKey;
     EvSetFailed
       "Invalid API key. Get your API key from app.qamax.co/settings/api"].
Proof.
  apply (X6_invalid_key_stops posix_basename to_number ascii_lower
           invalid_key_world inputs0).
  discriminate.
Defined.

(** X7: resolution by name that finds nothing. With no project id, a
    project name that equals no project's name (compared in lower case)
    and a repository that is not linked, the run makes exactly three
    calls (key validation, [getProjects], [resolveProject] for the
    repository) and is marked failed once, with a message that lists the
    names of the available projects, or [none]. Nothing is triggered. *)
Theorem X7_project_not_found (basename : string -> string)
  (ToNumber : json -> jsnum) (toLowerCase : string -> string)
  (w : World) (inputs : ActionInputs) (projects : list Project)
  (answer : option string) :
  w_validateApiKey w = Ok true ->
  projectId inputs = "" ->
  projectName inputs <> "" ->
  w_getProjects w = Ok projects ->
  find (fun p => String.eqb (toLowerCase (p_name p))
                   (toLowerCase (projectName inputs))) projects = None ->
  w_resolveProject w = Ok answer ->
  unlinked answer = true ->
  trace (snd (run basename ToNumber toLowerCase w inputs initial))
  = [EvValidateApiKey; EvGetProjects; EvResolveProject (w_repository w);
     EvSetFailed (not_found_text inputs projects)].
Proof.
  intros Hkey Hid Hname Hprojects Hfind Hanswer Hunlinked.
  assert (Htry :
    try_block basename ToNumber toLowerCase w inputs initial
    = (Throw (ThrownError (not_found_text inputs projects)),
       {| trace := [EvValidateApiKey; EvGetProjects;
                    EvResolveProject (w_repository w)];
          executionId := None; client := true; sandbox := None |})).
  { unfold try_block, obtain_results, resolve_project, not_found_text, bind,
      set_client, call, emit, throw, ret. simpl.
    rewrite Hkey, Hid. simpl.
    destruct (String.eqb_spec (projectName inputs) ""); [contradiction|].
    simpl. rewrite Hprojects. simpl. rewrite Hfind. simpl.
    rewrite Hanswer. simpl.
    destruct answer as [id|]; simpl in *; [rewrite Hunlinked|]; reflexivity. }
  unfold run, try_catch. rewrite Htry, on_error_run. reflexivity.
Qed.

Lemma X7_project_not_found_witness :
  trace (snd (run_action two_projects_world by_name_inputs))
  = [EvValidateApiKey; EvGetProjects; EvResolveProject "octo/repo";
     EvSetFailed (not_found_text by_name_inputs
                    [ {| p_id := "1"; p_name := "Shop" |};
                      {| p_id := "2"; p_name := "Blog" |} ])].
Proof.
  apply (X7_project_not_found posix_basename to_number ascii_lower
           two_projects_world by_name_inputs
           [ {| p_id := "1"; p_name := "Shop" |};
             {| p_id := "2"; p_name := "Blog" |} ] None);
    try reflexivity.
  discriminate.
Defined.

(** X8: a failure to post the pull-request comment never changes a run:
    whatever [createComment] answers, the outcome, the trace and the
    final state are the same. *)
Theorem X8_comment_failure_is_swallowed (basename : string -> string)
  (ToNumber : json -> jsnum) (toLowerCase : string -> string)
  (w : World) (inputs : ActionInputs) (a : Res unit) (st : State) :
  run basename ToNumber toLowerCase (with_createComment a w) inputs st
  = run basename ToNumber toLowerCase w inputs st.
Proof.
  unfold run, try_catch, try_block, bind.
  rewrite obtain_results_answer.
  destruct (obtain_results basename ToNumber toLowerCase w inputs st)
    as [[[r|]|e] s1]; try reflexivity.
  rewrite conclude_answer. reflexivity.
Qed.



End Runs.

(* ===================================================================== *)
(** ** The local run *)
(* ===================================================================== *)

Section LocalRun.
Import Regex Js Action Trace Props Examples Observations.
Local Open Scope Z_scope.



(** X10: in the result of a local run the two counters are the tallies of
    the result list: [passed_tests] is the number of entries with status
    [passed], [failed_tests] the number of entries with status [failed],
    and no entry has another status. *)
Theorem X10_counters_tally_the_list (basename : string -> string)
  (ToNumber : json -> jsnum) (w : World) (resp : TriggerTestsResponse)
  (inputs : ActionInputs) (st st' : State) (r : TestExecutionResults) :
  runTestsLocally basename ToNumber w resp inputs st = (Ok r, st') ->
  passed_tests r = count_status passed (tests r)
  /\ failed_tests r = count_status failed (tests r)
  /\ Forall (fun t => status t = passed \/ status t = failed) (tests r).
Proof.
  intros Hrun. apply runTestsLocally_result in Hrun. subst r.
  unfold local_result. cbv zeta. unfold normalize. simpl.
  apply infer_from_exit_code_tallied.
  - apply parse_results_tallied.
  - apply parse_results_balanced.
Qed.

Lemma X10_counters_tally_the_list_witness :
  passed_tests (local_result posix_basename to_number three_specs_world
                  three_scripts inputs0)
  = count_status passed
      (tests (local_result posix_basename to_number three_specs_world
                three_scripts inputs0))
  /\ failed_tests (local_result posix_basename to_number three_specs_world
                     three_scripts inputs0)
     = count_status failed
         (tests (local_result posix_basename to_number three_specs_world
                   three_scripts inputs0))
  /\ Forall (fun t => status t = passed \/ status t = failed)
       (tests (local_result posix_basename to_number three_specs_world
                 three_scripts inputs0)).
Proof.
  apply (X10_counters_tally_the_list posix_basename to_number
           three_specs_world three_scripts inputs0 initial
           (snd (local_run three_specs_world three_scripts))).
  vm_compute. reflexivity.
Defined.

(** X11: when the parser throws at a suite of the report (the suite is
    [null], or its [specs] cannot be iterated), the specs of the suites
    before it stay counted and the suites after it are never read: if
    those earlier suites hold at least one spec, the run returns their
    counts and their entries, whatever the exit code was. *)
Theorem X11_broken_report_keeps_prefix (basename : string -> string)
  (ToNumber : json -> jsnum) (w : World) (resp : TriggerTestsResponse)
  (inputs : ActionInputs) (st st' : State) (r : TestExecutionResults)
  (raw : json) (good : list json) (bad : json) (rest : list json)
  (l : list (string * json)) :
  runTestsLocally basename ToNumber w resp inputs st = (Ok r, st') ->
  w_resultsFile w = Some (Some raw) ->
  get "suites" (Some raw) = Some (Some (JArr (good ++ bad :: rest))) ->
  suites_specs good = Some l ->
  l <> [] ->
  broken_suite bad = true ->
  passed_tests r = count_ok l
  /\ failed_tests r = count_not_ok l
  /\ Forall2 (classifies basename (script_map (embedded resp))) l (tests r).
Proof.
  intros Hrun Hfile Hsuites Hgood Hne Hbad.
  apply runTestsLocally_result in Hrun. subst r.
  unfold local_result, derived. cbv zeta. rewrite Hfile.
  destruct (parse_results_broken basename ToNumber
              (script_map (embedded resp)) raw good bad rest l
              Hsuites Hgood Hbad) as (ts & -> & Hts).
  unfold infer_from_exit_code, normalize. simpl.
  destruct ts as [|t ts].
  - inversion Hts; subst. congruence.
  - simpl. auto.
Qed.

Lemma X11_broken_report_keeps_prefix_witness :
  passed_tests (local_result posix_basename to_number broken_report_world
                  three_scripts inputs0)
  = count_ok [("test-1.spec.js"%string, spec_json true "login")]
  /\ failed_tests (local_result posix_basename to_number broken_report_world
                     three_scripts inputs0)
     = count_not_ok [("test-1.spec.js"%string, spec_json true "login")]
  /\ Forall2 (classifies posix_basename (script_map (embedded three_scripts)))
       [("test-1.spec.js"%string, spec_json true "login")]
       (tests (local_result posix_basename to_number broken_report_world
                 three_scripts inputs0)).
Proof.
  apply (X11_broken_report_keeps_prefix posix_basename to_number
           broken_report_world three_scripts inputs0 initial
           (snd (local_run broken_report_world three_scripts))
           (local_result posix_basename to_number broken_report_world
              three_scripts inputs0)
           broken_report
           [suite_json "test-1.spec.js" [spec_json true "login"]]
           JNull
           [suite_json "test-3.spec.js" [spec_json false "logout"]]).
  - vm_compute. reflexivity.
  - reflexivity.
  - reflexivity.
  - reflexivity.
  - discriminate.
  - reflexivity.
Defined.

(** X12: a spec whose suite file is the file of no embedded script is
    still counted; its entry carries the id 0 and is named by the title of
    the spec, or by the base name of the file when the title is missing or
    falsy. *)
Theorem X12_unknown_file_gets_id_zero (basename : string -> string)
  (ToNumber : json -> jsnum) (l : list EmbeddedScript)
  (fields sf : list (string * json)) (file : string) (acc : Parsed) :
  obj_get "file" fields = Some (JStr file) ->
  (forall s, In s l -> safeFileName s <> basename file) ->
  exists t,
    parse_spec basename ToNumber (script_map l) (JObj fields) (JObj sf) acc
    = Some {| passedTests :=
                passedTests acc + (if spec_ok (JObj sf) then 1 else 0);
              failedTests :=
                failedTests acc + (if spec_ok (JObj sf) then 0 else 1);
              testResults := testResults acc ++ [t] |}
    /\ test_id t = 0
    /\ test_name t
       = title_or (get_opt "title" (Some (JObj sf))) (basename file).
Proof.
  intros Hfile Hother.
  assert (Hnone : script_map l !! basename file = None).
  { unfold script_map. rewrite script_map_from_other by exact Hother.
    apply lookup_empty. }
  revert Hnone. generalize (script_map l). intros m Hnone.
  unfold parse_spec, spec_ok, get_opt. simpl. rewrite Hfile. simpl.
  destruct (String.eqb file "") eqn:E; simpl;
    [apply String.eqb_eq in E; subst file|];
    rewrite Hnone;
    destruct (truthy (obj_get "ok" sf)); eexists;
      (split; [f_equal; f_equal; lia | split; reflexivity]).
Qed.

Lemma X12_unknown_file_gets_id_zero_witness :
  exists t,
    parse_spec posix_basename to_number (script_map (embedded three_scripts))
      (JObj [("file", JStr "e2e/other.spec.js")])
      (JObj [("title", JStr "extra"); ("ok", JBool true)]) no_results
    = Some {| passedTests :=
                passedTests no_results
                + (if spec_ok (JObj [("title", JStr "extra"); ("ok", JBool true)])
                   then 1 else 0);
              failedTests :=
                failedTests no_results
                + (if spec_ok (JObj [("title", JStr "extra"); ("ok", JBool true)])
                   then 0 else 1);
              testResults := testResults no_results ++ [t] |}
    /\ test_id t = 0
    /\ test_name t
       = title_or (get_opt "title"
                     (Some (JObj [("title", JStr "extra"); ("ok", JBool true)])))
           (posix_basename "e2e/other.spec.js").
Proof.
  apply (X12_unknown_file_gets_id_zero posix_basename to_number
           (embedded three_scripts)
           [("file", JStr "e2e/other.spec.js")]
           [("title", JStr "extra"); ("ok", JBool true)]
           "e2e/other.spec.js" no_results).
  - reflexivity.
  - intros s [<-|[<-|[<-|[]]]]; vm_compute; discriminate.
Defined.



(** X14: once the report yielded at least one entry, the exit code of the
    runner has no influence on the result: two worlds that differ only in
    what starting the runner answers give the same result object. *)
Theorem X14_exit_code_ignored_after_parse (basename : string -> string)
  (ToNumber : json -> jsnum) (w : World) (a : Res Z)
  (resp : TriggerTestsResponse) (inputs : ActionInputs)
  (st1 st1' st2 st2' : State) (r1 r2 : TestExecutionResults) :
  runTestsLocally basename ToNumber w resp inputs st1 = (Ok r1, st1') ->
  runTestsLocally basename ToNumber (with_playwrightTest a w) resp inputs st2
  = (Ok r2, st2') ->
  testResults (derived basename ToNumber w resp) <> [] ->
  r1 = r2.
Proof.
  intros H1 H2 Hne.
  apply runTestsLocally_result in H1, H2. subst r1 r2.
  unfold local_result. cbv zeta.
  change (derived basename ToNumber (with_playwrightTest a w) resp)
    with (derived basename ToNumber w resp).
  change (durationSeconds (with_playwrightTest a w)) with (durationSeconds w).
  unfold infer_from_exit_code.
  destruct (testResults (derived basename ToNumber w resp)) as [|t ts];
    [congruence|]. reflexivity.
Qed.

Lemma X14_exit_code_ignored_after_parse_witness :
  local_result posix_basename to_number two_specs_world
    (local_response [script 7 "login"]) inputs0
  = local_result posix_basename to_number passing_report_world
      (local_response [script 7 "login"]) inputs0.
Proof.
  apply (X14_exit_code_ignored_after_parse posix_basename to_number
           two_specs_world (Ok 1) (local_response [script 7 "login"]) inputs0
           initial (snd two_specs_run)
           initial
           (snd (local_run passing_report_world
                   (local_response [script 7 "login"])))).
  - vm_compute. reflexivity.
  - vm_compute. reflexivity.
  - vm_compute. discriminate.
Defined.

(** X15: the only failures that end a local run are those of setting up
    the sandbox, of the two installs and of the report call. When these
    succeed the run returns a result, even if the runner cannot be
    started, the report file is missing or unreadable and the sandbox
    cannot be removed; the sandbox is gone afterwards exactly when its
    removal succeeded. *)
Theorem X15_local_run_returns (basename : string -> string)
  (ToNumber : json -> jsnum) (w : World) (resp : TriggerTestsResponse)
  (inputs : ActionInputs) (st : State) (dir : string) :
  w_mkdtempSync w = Ok dir ->
  w_mkdirSync w = Ok tt ->
  (forall f, w_writeFileSync w f = Ok tt) ->
  w_npmInstall w = Ok tt ->
  w_playwrightInstall w = Ok tt ->
  w_reportResults w = Ok tt ->
  exists r st',
    runTestsLocally basename ToNumber w resp inputs st = (Ok r, st')
    /\ (sandbox st' = None <-> exists u, w_rmSync w = Ok u).
Proof.
  intros Hdir Hmk Hwr Hnpm Hpw Hrep.
  destruct (runTestsLocally_returns basename ToNumber w resp inputs st dir
              Hdir Hmk Hwr Hnpm Hpw Hrep) as (st' & Hrun).
  eexists. exists st'. split; [exact Hrun|].
  destruct (runTestsLocally_effects _ _ _ _ _ _ _ _ Hrun)
    as (dir' & _ & _ & Hsb).
  rewrite Hsb. destruct (w_rmSync w) as [u|e].
  - split; [eauto | reflexivity].
  - split; [discriminate | intros [u Hu]; discriminate].
Qed.

Lemma X15_local_run_returns_witness :
  exists r st',
    runTestsLocally posix_basename to_number rough_world two_scripts inputs0
      initial = (Ok r, st')
    /\ (sandbox st' = None <-> exists u, w_rmSync rough_world = Ok u).
Proof.
  apply (X15_local_run_returns posix_basename to_number rough_world
           two_scripts inputs0 initial "/tmp/qamax-abc");
    intros; reflexivity.
Defined.

End LocalRun.

(* ===================================================================== *)
(** ** The sanitiser never lengthens *)
(* ===================================================================== *)

Section SanitizerLength.
Import Regex Js Action.

(** X16: sanitising a script never makes it longer, and it returns the
    text unchanged exactly when neither the [import type] pattern nor the
    annotated-parameter pattern has a match in it. *)
Theorem X16_sanitizer_only_shrinks (code : text) :
  (length (strip_type_annotations code) <= length code)%nat
  /\ (strip_type_annotations code = code
      <-> no_match re_import_type code = true
          /\ no_match re_param_type code = true).
Proof.
  unfold strip_type_annotations.
  pose proof (replace_all_length re_import_type [] code shrinking_import_type)
    as Hlen1.
  pose proof (replace_all_length re_param_type [RGroup1]
                (replace_all re_import_type [] code) shrinking_param_type)
    as Hlen2.
  split; [lia|]. split.
  - intros Heq.
    assert (H1 : no_match re_import_type code = true).
    { destruct (no_match re_import_type code) eqn:E; [reflexivity|].
      apply (replace_from_shrinks _ [] shrinking_import_type) in E.
      rewrite Heq in Hlen2. unfold replace_all in Hlen2. lia. }
    split; [exact H1|].
    rewrite (replace_all_no_match _ _ _ H1) in Heq.
    apply (replace_all_fixed_iff _ _ _ shrinking_param_type), Heq.
  - intros [H1 H2]. rewrite (replace_all_no_match _ _ _ H1).
    apply replace_all_no_match, H2.
Qed.

End SanitizerLength.

(* ===================================================================== *)
(** ** Cancellation *)
(* ===================================================================== *)

Section Cancellation.
Import Regex Js Action Trace Props Examples Observations.
Local Open Scope Z_scope.

Variable basename : string -> string.
Variable ToNumber : json -> jsnum.
Variable toLowerCase : string -> string.

Lemma no_trigger_none evs :
  forallb no_trigger evs = true -> existsb is_trigger evs = false.
Proof.
  induction evs as [|ev evs IH]; simpl; [reflexivity|].
  intros H. apply andb_true_iff in H as [Hev Hevs].
  unfold no_trigger in Hev. apply negb_true_iff in Hev.
  rewrite Hev, (IH Hevs). reflexivity.
Qed.

Lemma emits_no_trigger_run {A} (m : M A) st res st' :
  emits no_trigger m -> m st = (res, st') ->
  existsb is_trigger (trace st') = existsb is_trigger (trace st)
  /\ executionId st' = executionId st
  /\ client st' = client st.
Proof.
  intros Hm Hrun. destruct (Hm st) as (evs & Ht & Hs & Hid & Hcl).
  rewrite Hrun in Ht, Hid, Hcl. simpl in Ht, Hid, Hcl.
  rewrite Ht, existsb_app, (no_trigger_none _ Hs), orb_false_r. auto.
Qed.

(** Splits a run [bind m k st = (res, st')] recorded in [H] into the run
    of [m], which makes no trigger call, and the run of the continuation,
    which stays in [H]. *)
Ltac pass H :=
  let F := fresh "F" in
  let H1 := fresh "H1" in
  apply bind_inv in H as [(? & ? & H1 & H)|(? & H1 & ?)];
  match type of H1 with
  | ?m _ = _ =>
      assert (F : emits no_trigger m) by emits_program;
      apply (emits_no_trigger_run _ _ _ _ F) in H1 as (? & ? & ?);
      clear F
  end.

Lemma answered_id_none w t :
  existsb is_trigger t = false -> answered_id w t = None.
Proof. unfold answered_id. intros ->. reflexivity. Qed.

(** The variable [executionId] holds what the trigger call answered. *)
Lemma obtain_results_answered w inputs st0 res st1 :
  obtain_results basename ToNumber toLowerCase w inputs st0 = (res, st1) ->
  existsb is_trigger (trace st0) = false ->
  executionId st0 = None ->
  executionId st1 = answered_id w (trace st1).
Proof.
  unfold obtain_results. intros H Ht Hid.
  unfold bind at 1, set_client in H. simpl in H.
  pass H; [|simpl in *; rewrite answered_id_none; congruence].
  pass H; [|simpl in *; rewrite answered_id_none; congruence].
  pass H; [|simpl in *; rewrite answered_id_none; congruence].
  destruct (mode inputs =? "seed")%string.
  - pass H; simpl in *; [|rewrite answered_id_none; congruence].
    unfold ret in H. inversion H; subst.
    rewrite answered_id_none; congruence.
  - unfold bind at 1, call, emit in H. simpl in H.
    destruct (w_triggerTests w) as [resp|e] eqn:Htrigger.
    + unfold bind at 1, set_executionId in H. simpl in H.
      assert (Hyes : forall st,
                existsb is_trigger (trace st) = true ->
                executionId st = Some (tr_execution_id resp) ->
                executionId st = answered_id w (trace st)).
      { intros st Hst Hsome. unfold answered_id.
        rewrite Hst, Htrigger. exact Hsome. }
      pass H; simpl in *;
        [unfold ret in H; inversion H; subst|];
        (apply Hyes; [|assumption]);
        match goal with
        | Hx : existsb is_trigger (trace ?s) = _
          |- existsb is_trigger (trace ?s) = true =>
            rewrite Hx, existsb_app; simpl; apply orb_true_r
        end.
    + inversion H; subst. simpl in *. unfold answered_id.
      rewrite existsb_app, Htrigger. simpl. rewrite orb_true_r. congruence.
Qed.

Lemma try_block_answered w inputs st0 res st :
  try_block basename ToNumber toLowerCase w inputs st0 = (res, st) ->
  existsb is_trigger (trace st0) = false ->
  executionId st0 = None ->
  executionId st = answered_id w (trace st).
Proof.
  unfold try_block. intros H Ht Hid.
  apply bind_inv in H as [(r & s & Ho & H)|(e' & Ho & He)];
    pose proof (obtain_results_answered _ _ _ _ _ Ho Ht Hid) as Hs;
    [|exact Hs].
  destruct r as [r|].
  - assert (F : emits no_trigger (conclude w inputs r)) by emits_program.
    apply (emits_no_trigger_run _ _ _ _ F) in H as (Htr & Hid' & _).
    unfold answered_id in *. rewrite Htr, Hid'. exact Hs.
  - unfold ret in H. inversion H; subst. exact Hs.
Qed.

(** C8: when the [try] block of [run] throws [e], [run] itself still
    returns, and what it does after the [try] block is, in this order: one
    [cancelExecution] call for the execution id, if an id is known, and
    then one [core.setFailed] call with the message of [e]; the [try]
    block itself makes neither call. The id is known as soon as the
    trigger call has answered it (and it is not the empty string, which
    the guard of the [catch] clause takes for no id); before the trigger
    call is made, or when that call itself throws, no id is known and no
    cancel call is made. Nothing depends on the answer of the cancel
    call. *)
Theorem C8_cancel_on_error (w : World) (inputs : ActionInputs) (e : Thrown)
  (st : State) :
  try_block basename ToNumber toLowerCase w inputs initial = (Throw e, st) ->
  fst (run basename ToNumber toLowerCase w inputs initial) = Ok tt
  /\ trace (snd (run basename ToNumber toLowerCase w inputs initial))
     = trace st
       ++ match known_id w (trace st) with
          | Some id => [EvCancelExecution id]
          | None => []
          end
       ++ [EvSetFailed (failure_message e)]
  /\ cancels (trace st) = []
  /\ failures (trace st) = [].
Proof.
  intros H. unfold run, try_catch. rewrite H.
  rewrite on_error_run. simpl.
  pose proof (try_block_answered _ _ _ _ _ H eq_refl eq_refl) as Hid.
  apply try_block_throw in H as (Hcl & Hc & Hf & _). simpl in Hc, Hf.
  split; [reflexivity|]. split; [|auto].
  unfold known_execution, known_id. rewrite Hid, Hcl.
  destruct (answered_id w (trace st)) as [id|]; [|reflexivity].
  rewrite andb_true_r. reflexivity.
Qed.

End Cancellation.

Section CancellationExample.
Import Regex Js Action Trace Props Examples Observations.

Lemma C8_cancel_on_error_witness :
  (fst (run_action install_fails_world inputs0) = Ok tt
   /\ trace (snd (run_action install_fails_world inputs0))
      = trace (snd (try_block posix_basename to_number ascii_lower
                      install_fails_world inputs0 initial))
        ++ [EvCancelExecution "exec-1";
            EvSetFailed "The process 'npm' failed with exit code 1"])
  /\ (fst (run_action poll_times_out_world inputs0) = Ok tt
      /\ trace (snd (run_action poll_times_out_world inputs0))
         = trace (snd (try_block posix_basename to_number ascii_lower
                         poll_times_out_world inputs0 initial))
           ++ [EvCancelExecution "exec-1";
               EvSetFailed "Timeout waiting for completion"])
  /\ (fst (run_action trigger_fails_world inputs0) = Ok tt
      /\ trace (snd (run_action trigger_fails_world inputs0))
         = trace (snd (try_block posix_basename to_number ascii_lower
                         trigger_fails_world inputs0 initial))
           ++ [EvSetFailed "Request failed with status 500"]).
Proof.
  split; [|split].
  - destruct (C8_cancel_on_error posix_basename to_number ascii_lower
                install_fails_world inputs0
                (ThrownError "The process 'npm' failed with exit code 1")
                (snd (try_block posix_basename to_number ascii_lower
                        install_fails_world inputs0 initial)))
      as (Hret & Htrace & _).
    + vm_compute. reflexivity.
    + split; [exact Hret | exact Htrace].
  - destruct (C8_cancel_on_error posix_basename to_number ascii_lower
                poll_times_out_world inputs0
                (ThrownError "Timeout waiting for completion")
                (snd (try_block posix_basename to_number ascii_lower
                        poll_times_out_world inputs0 initial)))
      as (Hret & Htrace & _).
    + vm_compute. reflexivity.
    + split; [exact Hret | exact Htrace].
  - destruct (C8_cancel_on_error posix_basename to_number ascii_lower
                trigger_fails_world inputs0
                (ThrownError "Request failed with status 500")
                (snd (try_block posix_basename to_number ascii_lower
                        trigger_fails_world inputs0 initial)))
      as (Hret & Htrace & _).
    + vm_compute. reflexivity.
    + split; [exact Hret | exact Htrace].
Defined.

End CancellationExample.

(* ===================================================================== *)
(** ** Lemmas on the raw values of the inputs *)
(* ===================================================================== *)

Section RawInputLemmas.
Import Regex Js Inputs.
Local Open Scope Z_scope.

Lemma trimStart_split s : exists ws, spaces ws /\ s = ws ++ trimStart s.
Proof.
  induction s as [|c s (ws & Hws & IH)]; simpl.
  - exists []. split; [constructor | reflexivity].
  - destruct (is_space c) eqn:E.
    + exists (c :: ws). split; [constructor; assumption|].
      simpl. f_equal. exact IH.
    + exists []. split; [constructor | reflexivity].
Qed.

Lemma trimEnd_split s : exists ws, spaces ws /\ s = trimEnd s ++ ws.
Proof.
  unfold trimEnd. destruct (trimStart_split (rev s)) as (ws & Hws & Hs).
  exists (rev ws). split; [apply Forall_rev, Hws|].
  rewrite <- rev_app_distr, <- Hs, rev_involutive. reflexivity.
Qed.

Lemma trim_split s :
  exists l r, spaces l /\ spaces r /\ s = l ++ trim s ++ r.
Proof.
  destruct (trimStart_split s) as (l & Hl & Hs).
  destruct (trimEnd_split (trimStart s)) as (r & Hr & Ht).
  exists l, r. unfold trim. rewrite <- Ht. auto.
Qed.

Lemma spaces_no_sep sep ws : is_space sep = false -> spaces ws -> ~ In sep ws.
Proof.
  intros Hsep Hws Hin. unfold spaces in Hws.
  rewrite List.Forall_forall in Hws. apply Hws in Hin. congruence.
Qed.

Lemma trimStart_app_spaces p ws :
  spaces ws ->
  trimStart (p ++ ws) = trimStart p ++ ws
  \/ (trimStart p = [] /\ trimStart (p ++ ws) = []).
Proof.
  intros Hws. induction p as [|c p IH]; simpl.
  - right. split; [reflexivity|].
    rewrite <- (app_nil_r ws). apply (trimStart_spaces ws [] Hws).
  - destruct (is_space c); [exact IH | left; reflexivity].
Qed.

Lemma trim_app_spaces p ws : spaces ws -> trim (p ++ ws) = trim p.
Proof.
  intros Hws. unfold trim.
  destruct (trimStart_app_spaces p ws Hws) as [->|[-> ->]]; [|reflexivity].
  unfold trimEnd. rewrite rev_app_distr, trimStart_spaces; [reflexivity|].
  apply Forall_rev, Hws.
Qed.

Lemma trim_spaces_app ws p : spaces ws -> trim (ws ++ p) = trim p.
Proof. intros Hws. unfold trim. rewrite trimStart_spaces by exact Hws. reflexivity. Qed.

Lemma split_app_tail sep ws : forall t,
  ~ In sep ws ->
  exists ps p, split sep t = ps ++ [p] /\ split sep (t ++ ws) = ps ++ [p ++ ws].
Proof.
  intros t Hws. induction t as [|c t (ps & p & Ht & Htw)]; simpl.
  - exists [], []. rewrite (split_no_sep sep ws Hws). auto.
  - destruct (c =? sep)%N.
    + exists ([] :: ps), p. rewrite Ht, Htw. auto.
    + rewrite Ht, Htw. destruct ps as [|q ps]; simpl.
      * exists [], (c :: p). auto.
      * exists ((c :: q) :: ps), p. auto.
Qed.

Lemma split_app_head sep ws t :
  ~ In sep ws ->
  exists p ps, split sep t = p :: ps /\ split sep (ws ++ t) = (ws ++ p) :: ps.
Proof.
  intros Hws. induction ws as [|c ws IH]; simpl.
  - destruct (split sep t) as [|p ps] eqn:E.
    + exfalso. exact (split_nonempty sep t E).
    + exists p, ps. auto.
  - destruct IH as (p & ps & Ht & Hwt); [intros H; apply Hws; right; exact H|].
    destruct (N.eqb_spec c sep) as [->|_]; [exfalso; apply Hws; left; reflexivity|].
    rewrite Hwt. exists p, ps. auto.
Qed.

(** Trimming the whole text does not change the trimmed pieces. *)
Lemma split_trim sep s :
  is_space sep = false ->
  map trim (split sep (trim s)) = map trim (split sep s).
Proof.
  intros Hsep. destruct (trim_split s) as (l & r & Hl & Hr & Hs).
  rewrite Hs at 2.
  destruct (split_app_tail sep r (trim s) (spaces_no_sep _ _ Hsep Hr))
    as (ps & p & Ht & Htr).
  destruct (split_app_head sep l (trim s ++ r) (spaces_no_sep _ _ Hsep Hl))
    as (q & qs & Hq & Hlq).
  rewrite Hlq, Ht. rewrite Htr in Hq.
  destruct ps as [|p0 ps]; simpl in Hq; inversion Hq; subst; simpl.
  - rewrite trim_spaces_app, trim_app_spaces by assumption. reflexivity.
  - rewrite trim_spaces_app by assumption. f_equal.
    rewrite !map_app. simpl. rewrite trim_app_spaces by assumption.
    reflexivity.
Qed.

Lemma split_join_render items :
  items <> [] ->
  List.Forall well_written items ->
  map trim (split 44 (join 44 (map render items)))
  = map (fun it => codes (pretty (value it))) items.
Proof.
  intros Hne Hall. rewrite split_join.
  - rewrite map_map. apply map_ext_in. intros it Hin.
    rewrite List.Forall_forall in Hall. destruct (Hall it Hin) as (Hb & Ha & _).
    unfold render. apply trim_padded; [apply pretty_trimmed | |]; assumption.
  - destruct items; [congruence | discriminate].
  - rewrite List.Forall_forall in *. intros p Hp.
    apply in_map_iff in Hp as (it & <- & Hin).
    apply render_no_comma. auto.
Qed.

(** *** The inputs as the orchestration has them *)

Lemma as_string_codes s : Entry.as_string (codes s) = Some s.
Proof.
  unfold codes. induction s as [|a s IH]; simpl; [reflexivity|].
  assert (Hlt : (N_of_ascii a <? 256)%N = true).
  { apply N.ltb_lt. apply N_ascii_bounded. }
  rewrite Hlt, IH, ascii_N_embedding. reflexivity.
Qed.

End RawInputLemmas.

(* ===================================================================== *)
(** ** The inputs *)
(* ===================================================================== *)

Section InputsOfTheAction.
Import Regex Js Inputs.
Local Open Scope Z_scope.

(** X17: a list of test ids written as decimal numerals between commas,
    each possibly negative and with white space around it, is read back
    as exactly these numbers, in the same order. *)
Theorem X17_test_ids_round_trip (env : string -> text)
  (items : list written_id) :
  items <> [] ->
  List.Forall well_written items ->
  env "api-key" <> [] ->
  env "test-ids" = join 44 (map render items) ->
  exists inputs,
    getInputs env = Some inputs
    /\ testIds inputs = Some (map (fun it => Fin (inject_Z (value it))) items).
Proof.
  intros Hne Hall Hkey Hids. unfold getInputs, getInput_required.
  destruct (env "api-key") as [|k key]; [congruence|].
  eexists. split; [reflexivity|]. simpl. unfold getInput. rewrite Hids.
  pose proof (split_trim 44 (join 44 (map render items)) eq_refl) as Hsplit.
  rewrite (split_join_render items Hne Hall) in Hsplit.
  unfold testIds_of.
  destruct (trim (join 44 (map render items))) as [|c s] eqn:E.
  { exfalso. simpl in Hsplit. destruct items as [|it items]; [congruence|].
    simpl in Hsplit. inversion Hsplit as [[Hit Hrest]].
    rewrite trim_spaces in Hit by constructor.
    symmetry in Hit. exact (pretty_nonempty _ Hit). }
  f_equal.
  rewrite <- (map_map trim parseInt), Hsplit, map_map.
  apply map_ext. intros it. apply parseInt_pretty.
Qed.

Lemma X17_test_ids_round_trip_witness :
  exists inputs,
    getInputs example_input = Some inputs
    /\ testIds inputs = Some [Fin (inject_Z 12); Fin (inject_Z 7);
                              Fin (inject_Z (-3))].
Proof.
  apply (X17_test_ids_round_trip example_input example_ids).
  - discriminate.
  - repeat constructor; simpl; lia.
  - discriminate.
  - vm_compute. reflexivity.
Defined.

(** X18: when [test-ids] is set, the list of ids has one entry per piece
    between commas, so it is never empty and its length is the number of
    commas plus one; a piece that is empty or holds white space only is
    kept as [NaN]. *)
Theorem X18_one_id_per_piece (env : string -> text)
  (inputs : ActionInputs) :
  getInputs env = Some inputs ->
  getInput env "test-ids" <> [] ->
  exists ids,
    testIds inputs = Some ids
    /\ length ids
       = S (length (List.filter (N.eqb 44) (getInput env "test-ids")))
    /\ List.Forall2
         (fun piece id => spaces piece -> id = NaN)
         (split 44 (getInput env "test-ids")) ids.
Proof.
  unfold getInputs, getInput_required. intros Hget Hne.
  destruct (env "api-key") as [|k key]; [discriminate|].
  inversion Hget; subst; clear Hget. simpl.
  unfold testIds_of.
  destruct (getInput env "test-ids") as [|c s] eqn:E; [congruence|].
  eexists. split; [reflexivity|]. split.
  - rewrite length_map. apply split_length.
  - generalize (split 44 (c :: s)). intros l.
    induction l as [|p l IH]; simpl; constructor; [|exact IH].
    intros Hp. rewrite (trim_spaces p Hp). reflexivity.
Qed.

Lemma X18_one_id_per_piece_witness :
  exists inputs ids,
    getInputs example_input = Some inputs
    /\ testIds inputs = Some ids
    /\ length ids = 3%nat.
Proof.
  destruct (getInputs example_input) as [inputs|] eqn:E;
    [|vm_compute in E; discriminate].
  destruct (X18_one_id_per_piece example_input inputs E)
    as (ids & Hids & Hlen & _).
  - vm_compute. discriminate.
  - exists inputs, ids. auto.
Defined.

(** X19: when [seed-descriptions] is set, every description in the list is
    non-empty, has no white space at either end and holds no line break;
    and the list is stable: written out one per line and read again, it
    comes back unchanged. *)
Theorem X19_seed_descriptions_are_clean (env : string -> text)
  (inputs : ActionInputs) :
  getInputs env = Some inputs ->
  getInput env "seed-descriptions" <> [] ->
  exists l,
    seedDescriptions inputs = Some l
    /\ List.Forall (fun d => d <> [] /\ trimmed d /\ ~ In 10%N d) l
    /\ (l <> [] -> seedDescriptions_of (join 10 l) = Some l).
Proof.
  unfold getInputs, getInput_required. intros Hget Hne.
  destruct (env "api-key") as [|k key]; [discriminate|].
  inversion Hget; subst; clear Hget. simpl.
  unfold seedDescriptions_of at 1.
  destruct (getInput env "seed-descriptions") as [|c s] eqn:E; [congruence|].
  eexists. split; [reflexivity|].
  assert (Hclean :
            List.Forall (fun d => d <> [] /\ trimmed d /\ ~ In 10%N d)
              (List.filter
                 (fun d => match d with [] => false | _ => true end)
                 (map trim (split 10 (c :: s))))).
  { rewrite List.Forall_forall. intros d Hd.
    apply filter_In in Hd as [Hin Hd].
    apply in_map_iff in Hin as (p & <- & Hp).
    split; [destruct (trim p); [discriminate | discriminate]|].
    split; [apply trimmed_trim|].
    intros H10. apply trim_In in H10.
    pose proof (split_pieces 10 (c :: s)) as Hall.
    rewrite List.Forall_forall in Hall. exact (Hall p Hp H10). }
  split; [exact Hclean|].
  revert Hclean.
  generalize (List.filter
                (fun d => match d with [] => false | _ => true end)
                (map trim (split 10 (c :: s)))).
  intros l Hclean Hl. unfold seedDescriptions_of.
  destruct l as [|d l]; [exfalso; apply Hl; reflexivity|].
  destruct (join 10 (d :: l)) as [|x xs] eqn:Ej.
  { exfalso. inversion Hclean as [|? ? (Hd & _) _]; subst.
    exact (join_nonempty 10 d l Hd Ej). }
  rewrite <- Ej. f_equal.
  rewrite split_join.
  - assert (Hmap : map trim (d :: l) = d :: l).
    { rewrite <- (map_id (d :: l)) at 2. apply map_ext_in.
      intros y Hy. rewrite List.Forall_forall in Hclean.
      apply trim_trimmed. apply (Hclean y Hy). }
    rewrite Hmap. clear Hmap Ej.
    induction Hclean as [|y ys (Hy & _) _ IH]; simpl; [reflexivity|].
    destruct y; [congruence|]. f_equal.
    destruct ys; [reflexivity|]. apply IH. discriminate.
  - discriminate.
  - rewrite List.Forall_forall in *. intros y Hy. apply (Hclean y Hy).
Qed.

Lemma X19_seed_descriptions_are_clean_witness :
  exists inputs l,
    getInputs example_input = Some inputs
    /\ seedDescriptions inputs = Some l
    /\ seedDescriptions_of (join 10 l) = Some l.
Proof.
  destruct (getInputs example_input) as [inputs|] eqn:E;
    [|vm_compute in E; discriminate].
  destruct (X19_seed_descriptions_are_clean example_input inputs E)
    as (l & Hl & _ & Hstable).
  - vm_compute. discriminate.
  - exists inputs, l. repeat split; [exact Hl|].
    apply Hstable. intros ->.
    revert Hl. inversion E; subst. vm_compute. discriminate.
Defined.

End InputsOfTheAction.

(* ===================================================================== *)
(** ** The entry point *)
(* ===================================================================== *)

Section EntryPoint.
Import Regex Js Action Trace Props Examples Observations.
Local Open Scope Z_scope.



End EntryPoint.
